(** * easyforce: the SOQL query builder, its analysers and its stores

    A shallow embedding of the pure core of the add-on's export page:
    [QueryBuilder], [QueryOptimizer], [QueryValidator], [UndoManager],
    [SavedQueries] and [QueryHistory].

    JavaScript strings are modelled as [string] (a sequence of code units
    below 256), arrays as lists, [null]/[undefined] as [None], and a call
    that can raise as a function into [completion]. *)

From Stdlib Require Import ZArith Ascii String List Bool Lia Permutation.
From Stdlib Require Import Numbers.DecimalString.
From Stdlib Require Import Sorting.Sorted.
From stdpp Require Import base option list gmap strings.

Local Open Scope string_scope.
Local Open Scope list_scope.

(* let simpl unfold appends of literal strings *)
#[local] Arguments String.append !s1 s2 : simpl nomatch.

(** ** Completions: a value, or a raised exception *)

Inductive error := TypeError | SyntaxError.

Inductive completion (A : Type) :=
| Normal (a : A)
| Throw (e : error).
Arguments Normal {A} a.
Arguments Throw {A} e.

Definition cbind {A B} (c : completion A) (f : A -> completion B) : completion B :=
  match c with
  | Normal a => f a
  | Throw e => Throw e
  end.

Definition cmap {A B} (f : A -> B) (c : completion A) : completion B :=
  cbind c (fun a => Normal (f a)).

Notation "'let*' x ':=' c 'in' k" := (cbind c (fun x => k))
  (at level 10, x name, c at level 100, k at level 200).

(** [try { c } catch { handler }] *)
Definition try_catch {A} (c handler : completion A) : completion A :=
  match c with
  | Normal a => Normal a
  | Throw _ => handler
  end.

(** ** Strings *)

(** [s.includes(sub)]: [sub] occurs in [s] as a contiguous run. *)
Fixpoint startsWith (sub s : string) : bool :=
  match sub, s with
  | EmptyString, _ => true
  | String a sub', String b s' => Ascii.eqb a b && startsWith sub' s'
  | String _ _, EmptyString => false
  end.

Fixpoint includes (sub s : string) : bool :=
  startsWith sub s ||
  match s with
  | EmptyString => false
  | String _ s' => includes sub s'
  end.

(** [parts.join(sep)] *)
Definition join (sep : string) (parts : list string) : string :=
  String.concat sep parts.

(** [value.replace(/'/g, "\\'")]: every single quote becomes backslash, quote. *)
Fixpoint escapeQuotes (value : string) : string :=
  match value with
  | EmptyString => EmptyString
  | String c rest =>
      if Ascii.eqb c "'" then String "\" (String "'" (escapeQuotes rest))
      else String c (escapeQuotes rest)
  end.

(** ** QueryBuilder.formatValue *)

Definition formatValue (value type : string) : string :=
  if String.eqb type "string" || String.eqb type "textarea" || String.eqb type "url"
     || String.eqb type "email" || String.eqb type "phone"
  then "'" +:+ escapeQuotes value +:+ "'"
  else if String.eqb type "boolean" then value
  else if String.eqb type "date"
  then if includes "'" value then value else "'" +:+ value +:+ "'"
  else if String.eqb type "datetime"
  then if includes "'" value then value else value
  else if String.eqb type "number" || String.eqb type "currency" || String.eqb type "percent"
  then value
  else "'" +:+ escapeQuotes value +:+ "'".


(** ** Plain objects used as dictionaries

    [groupedConditions] starts as [{}] and is filled by [acc[groupId] = []]
    and [acc[groupId].push(c)].  Three facts of the language matter:
    - a read [acc[key]] of a key that is not an own property finds the
      properties every object inherits from [Object.prototype];
    - [Object.entries] lists own keys that are array indices first, in
      ascending numeric order, then the other keys in creation order;
    - an assignment to an existing key keeps its position. *)

Definition jsobject (V : Type) := list (string * V).

Fixpoint getOwn {V} (o : jsobject V) (key : string) : option V :=
  match o with
  | [] => None
  | (k, v) :: rest => if String.eqb k key then Some v else getOwn rest key
  end.

Fixpoint setOwn {V} (o : jsobject V) (key : string) (v : V) : jsobject V :=
  match o with
  | [] => [(key, v)]
  | (k, w) :: rest =>
      if String.eqb k key then (k, v) :: rest else (k, w) :: setOwn rest key v
  end.

(** The property names of [Object.prototype]. *)
Definition objectPrototypeKeys : list string :=
  [ "constructor"; "__defineGetter__"; "__defineSetter__"; "hasOwnProperty";
    "__lookupGetter__"; "__lookupSetter__"; "isPrototypeOf";
    "propertyIsEnumerable"; "toString"; "valueOf"; "__proto__";
    "toLocaleString" ].

Definition inherited (key : string) : bool :=
  existsb (String.eqb key) objectPrototypeKeys.

Definition digitValue (c : ascii) : option N :=
  let n := N_of_ascii c in
  if (48 <=? n)%N && (n <=? 57)%N then Some (n - 48)%N else None.

Fixpoint parseDigits (acc : N) (s : string) : option N :=
  match s with
  | EmptyString => Some acc
  | String c rest =>
      match digitValue c with
      | Some d => parseDigits (acc * 10 + d)%N rest
      | None => None
      end
  end.

(** A key is an array index when it is the canonical decimal numeral of an
    integer in [0, 2^32 - 2]. *)
Definition arrayIndex (key : string) : option N :=
  match key with
  | EmptyString => None
  | String c rest =>
      if Ascii.eqb c "0" && negb (String.eqb rest "") then None
      else match parseDigits 0 key with
           | Some n => if (n <? 2 ^ 32 - 1)%N then Some n else None
           | None => None
           end
  end.

Fixpoint insertByIndex {V} (n : N) (kv : string * V) (l : list (N * (string * V)))
  : list (N * (string * V)) :=
  match l with
  | [] => [(n, kv)]
  | (m, kv') :: rest =>
      if (n <=? m)%N then (n, kv) :: l else (m, kv') :: insertByIndex n kv rest
  end.

Fixpoint indexedEntries {V} (o : jsobject V) : list (N * (string * V)) :=
  match o with
  | [] => []
  | kv :: rest =>
      match arrayIndex (fst kv) with
      | Some n => insertByIndex n kv (indexedEntries rest)
      | None => indexedEntries rest
      end
  end.

Definition isNamed {V} (kv : string * V) : bool :=
  match arrayIndex (fst kv) with Some _ => false | None => true end.

(** [Object.entries(o)] *)
Definition entries {V} (o : jsobject V) : list (string * V) :=
  map snd (indexedEntries o) ++ List.filter isNamed o.

(** ** QueryBuilder *)

Record Condition := {
  field : string;
  operator : string;
  value : string;
  type : string;
  groupId : option string
}.

Record SortKey := { sortField : string; direction : string }.

(** [selectedFields] is the iteration order of the [Set].  [limit] is
    [None] for [null] and for NaN, and otherwise the integer value of the
    Number [parseInt] gave: [Some z] is the Number nearest to [z], which is
    [z] itself for every integer a Number holds, and Infinity from 2^1024
    on. *)
Record QueryBuilder := {
  selectedObject : option string;
  selectedFields : list string;
  conditions : list Condition;
  orderBy : list SortKey;
  limit : option Z;
  groupOperator : string
}.

(** The decimal text of an integer, digit by digit. *)
Definition decimal (z : Z) : string := NilZero.string_of_int (Z.to_int z).

(** The Number nearest to a positive integer: 53 significant bits, a tie
    going to the even one.  A result of 2^1024 or more stands for
    Infinity. *)
Definition roundToNumber (m : Z) : Z :=
  let b := Z.log2 m in
  if (b <=? 52)%Z then m
  else
    let shift := (b - 52)%Z in
    let q := Z.shiftr m shift in
    let r := (m - Z.shiftl q shift)%Z in
    let half := Z.shiftl 1 (shift - 1) in
    let q := if (half <? r)%Z || ((r =? half)%Z && Z.odd q) then (q + 1)%Z else q in
    Z.shiftl q shift.

Definition digitCount (x : Z) : Z := Z.of_nat (String.length (decimal x)).

(** The digits [s], [k] of them, of the shortest decimal [s * 10 ^ (d - k)]
    that reads back as the Number [x] of [d] digits; of two that do, the one
    nearer to [x].  Without a shorter one these are the digits of [x]. *)
Fixpoint shortest (fuel : nat) (x d k : Z) : Z * Z :=
  match fuel with
  | O => (x, d)
  | S fuel' =>
      let p := (10 ^ (d - k))%Z in
      let lo := (x / p)%Z in
      let hi := (lo + 1)%Z in
      let okLo := (roundToNumber (lo * p) =? x)%Z in
      let okHi := (hi <? 10 ^ k)%Z && (roundToNumber (hi * p) =? x)%Z in
      if okLo && okHi then
        if (x - lo * p <? hi * p - x)%Z then (lo, k)
        else if (hi * p - x <? x - lo * p)%Z then (hi, k)
        else if Z.even lo then (lo, k) else (hi, k)
      else if okLo then (lo, k)
      else if okHi then (hi, k)
      else shortest fuel' x d (k + 1)%Z
  end.

Fixpoint zeros (n : nat) : string :=
  match n with
  | O => EmptyString
  | S n' => String "0" (zeros n')
  end.

(** The text of [s * 10 ^ (n - k)] for an integer of [n] digits: the digits
    and the zeros after them up to 21 digits, and from 22 digits on the
    first digit, the others after a point, and the exponent. *)
Definition formatNumber (s k n : Z) : string :=
  if (n <=? 21)%Z then decimal s +:+ zeros (Z.to_nat (n - k))
  else
    match decimal s with
    | String c rest =>
        String c (match rest with EmptyString => EmptyString | _ => String "." rest end)
        +:+ "e+" +:+ decimal (n - 1)
    | EmptyString => EmptyString
    end.

(** [Number::toString] for a finite Number with a positive integer value.
    The shortest decimal may be the power of ten next above [x]. *)
Definition numberToString (x : Z) : string :=
  let d := digitCount x in
  if (roundToNumber (10 ^ d) =? x)%Z then formatNumber 1 1 (d + 1)
  else let (s, k) := shortest (Z.to_nat (d - 1)) x d 1 in formatNumber s k d.

(** The text a template literal gives for the Number nearest to [z].  Up to
    2^53 every integer is a Number and its shortest decimal is the integer
    itself. *)
Definition showNumber (z : Z) : string :=
  if (Z.abs z <=? 2 ^ 53)%Z then decimal z
  else
    let x := roundToNumber (Z.abs z) in
    let text := if (2 ^ 1024 <=? x)%Z then "Infinity" else numberToString x in
    if (z <? 0)%Z then String "-" text else text.

(** [condition.groupId || 'default'] *)
Definition groupKey (c : Condition) : string :=
  match groupId c with
  | Some g => if String.eqb g "" then "default" else g
  | None => "default"
  end.

(** What a read [acc[key]] finds: an own property, a property inherited from
    [Object.prototype], or [undefined]. *)
Inductive property (V : Type) :=
| Own (v : V)
| Inherited
| Undefined.
Arguments Own {V} v.
Arguments Inherited {V}.
Arguments Undefined {V}.

Definition getProperty {V} (o : jsobject V) (key : string) : property V :=
  match getOwn o key with
  | Some v => Own v
  | None => if inherited key then Inherited else Undefined
  end.

(** One step of the [reduce] that buckets the conditions.  An own bucket is
    an array and so truthy, as is every inherited value; none of the
    inherited values has a [push]. *)
Definition addToGroup (acc : jsobject (list Condition)) (condition : Condition)
  : completion (jsobject (list Condition)) :=
  let groupId := groupKey condition in
  (* if (!acc[groupId]) acc[groupId] = [] *)
  let acc :=
    match getProperty acc groupId with
    | Undefined => setOwn acc groupId []
    | _ => acc
    end in
  (* acc[groupId].push(condition) *)
  match getProperty acc groupId with
  | Own bucket => Normal (setOwn acc groupId (bucket ++ [condition]))
  | Inherited => Throw TypeError
  | Undefined => Throw TypeError
  end.

Fixpoint reduceGroups (acc : jsobject (list Condition)) (cs : list Condition)
  : completion (jsobject (list Condition)) :=
  match cs with
  | [] => Normal acc
  | c :: rest => let* acc' := addToGroup acc c in reduceGroups acc' rest
  end.

Definition conditionString (c : Condition) : string :=
  field c +:+ " " +:+ operator c +:+ " " +:+ formatValue (value c) (type c).

Definition glue (groupOperator : string) : string := " " +:+ groupOperator +:+ " ".

Definition groupString (groupOperator : string) (conditions : list Condition) : string :=
  let conditionString := join (glue groupOperator) (map conditionString conditions) in
  if (1 <? List.length conditions)%nat then "(" +:+ conditionString +:+ ")" else conditionString.

Definition whereClause (q : QueryBuilder) : completion string :=
  match conditions q with
  | [] => Normal ""
  | _ =>
      let* groupedConditions := reduceGroups [] (conditions q) in
      let groupStrings :=
        map (fun e => groupString (groupOperator q) (snd e)) (entries groupedConditions) in
      Normal (" WHERE " +:+ join (glue (groupOperator q)) groupStrings)
  end.

Definition selectClause (q : QueryBuilder) : string :=
  "SELECT " +:+
  match selectedFields q with
  | [] => "Id"
  | fs => join ", " fs
  end.

Definition fromClause (q : QueryBuilder) : string :=
  match selectedObject q with
  | Some o => if String.eqb o "" then "" else " FROM " +:+ o
  | None => ""
  end.

Definition orderByClause (q : QueryBuilder) : string :=
  match orderBy q with
  | [] => ""
  | os => " ORDER BY " +:+ join ", " (map (fun o => sortField o +:+ " " +:+ direction o) os)
  end.

Definition limitClause (q : QueryBuilder) : string :=
  match limit q with
  | Some n => if (n =? 0)%Z then "" else " LIMIT " +:+ showNumber n
  | None => ""
  end.

Definition buildQuery (q : QueryBuilder) : completion string :=
  let query := selectClause q in
  let query := query +:+ fromClause q in
  let* wh := whereClause q in
  let query := query +:+ wh in
  let query := query +:+ orderByClause q in
  let query := query +:+ limitClause q in
  Normal query.

(** The same builder with another [limit]. *)
Definition withLimit (l : option Z) (q : QueryBuilder) : QueryBuilder :=
  {| selectedObject := selectedObject q; selectedFields := selectedFields q;
     conditions := conditions q; orderBy := orderBy q; limit := l;
     groupOperator := groupOperator q |}.

(** ** Vocabulary of the statements *)

Definition stringLikeTypes : list string :=
  ["string"; "textarea"; "url"; "email"; "phone"].

Definition verbatimTypes : list string :=
  ["boolean"; "number"; "currency"; "percent"].

Definition recognizedTypes : list string :=
  stringLikeTypes ++ verbatimTypes ++ ["date"; "datetime"].

Definition quoted (value : string) : string := "'" +:+ escapeQuotes value +:+ "'".

Fixpoint occurs (c : ascii) (s : string) : bool :=
  match s with
  | EmptyString => false
  | String x rest => Ascii.eqb c x || occurs c rest
  end.

(** A clause is empty or opens with a blank. *)
Definition clauseLike (y : string) : Prop :=
  y = "" \/ exists y', y = String " " y'.

Definition sortKeyMentions (kw : string) (o : SortKey) : bool :=
  includes kw (sortField o) || includes kw (direction o).

Definition objectMentions (kw : string) (q : QueryBuilder) : bool :=
  match selectedObject q with
  | Some o => includes kw o
  | None => false
  end.

Definition accountsLimited (n : Z) : QueryBuilder :=
  {| selectedObject := Some "Account"; selectedFields := []; conditions := [];
     orderBy := []; limit := Some n; groupOperator := "AND" |}.

(** The WHERE clause as tokens: the pieces of text the builder emits, with
    each boolean operator it puts between two of them kept apart from the
    text of fields and values. *)
Inductive token :=
| Lit (s : string)
| Operator.

Definition tokenText (groupOperator : string) (t : token) : string :=
  match t with
  | Lit s => s
  | Operator => glue groupOperator
  end.

Definition tokensText (groupOperator : string) (ts : list token) : string :=
  String.concat "" (map (tokenText groupOperator) ts).

Fixpoint joinTokens (parts : list (list token)) : list token :=
  match parts with
  | [] => []
  | p :: rest =>
      match rest with
      | [] => p
      | _ => p ++ Operator :: joinTokens rest
      end
  end.

Definition groupTokens (conditions : list Condition) : list token :=
  let inner := joinTokens (map (fun c => [Lit (conditionString c)]) conditions) in
  if (1 <? List.length conditions)%nat then Lit "(" :: inner ++ [Lit ")"] else inner.

Definition whereTokens (groups : list (list Condition)) : list token :=
  joinTokens (map groupTokens groups).

Fixpoint operators (ts : list token) : nat :=
  match ts with
  | [] => 0
  | Operator :: rest => S (operators rest)
  | Lit _ :: rest => operators rest
  end.

(** The conditions whose group key is [k], in their stored order. *)
Definition bucketOf (k : string) (cs : list Condition) : list Condition :=
  List.filter (fun c => String.eqb (groupKey c) k) cs.

Definition sumOver {A} (f : A -> nat) (l : list A) : nat :=
  fold_right (fun a n => f a + n) 0 l.

Definition groupedBy (g : option string) : QueryBuilder :=
  {| selectedObject := Some "Contact"; selectedFields := ["Name"];
     conditions := [ {| field := "Email"; operator := "="; value := "a@b.com";
                        type := "email"; groupId := g |} ];
     orderBy := []; limit := None; groupOperator := "AND" |}.

(** ** Regular expressions

    The patterns of this program are built from literal characters, the
    classes [.], [\s] and [\w], the quantifiers [*], [+] and [*?] applied to
    one class, sequence, alternation, [$] and at most one capturing group.
    The matcher is the backtracking one of the language: alternatives are
    tried left to right, greedy quantifiers longest first, lazy ones shortest
    first, and the first success wins. *)
Module RegExp.

Inductive charset :=
| Dot                 (* .   any character but a line terminator *)
| Space               (* \s *)
| Word                (* \w *)
| Char (c : ascii).   (* a literal character *)

Inductive regex :=
| Empty
| End                          (* $ *)
| One (cs : charset)           (* x *)
| Star (cs : charset)          (* x* *)
| Plus (cs : charset)          (* x+ *)
| LazyStar (cs : charset)      (* x*? *)
| Seq (r1 r2 : regex)
| Alt (r1 r2 : regex)          (* r1|r2 *)
| Group (r : regex).           (* (r), the capture numbered 1 *)

(** White space and line terminators below 256. *)
Definition isWhiteSpace (c : ascii) : bool :=
  let n := nat_of_ascii c in
  ((9 <=? n) && (n <=? 13) || (n =? 32) || (n =? 160))%nat.

Definition isWordChar (c : ascii) : bool :=
  let n := nat_of_ascii c in
  ((48 <=? n) && (n <=? 57) || (65 <=? n) && (n <=? 90)
   || (97 <=? n) && (n <=? 122) || (n =? 95))%nat.

Definition isLineTerminator (c : ascii) : bool :=
  let n := nat_of_ascii c in ((n =? 10) || (n =? 13))%nat.

(** Case folding of the [i] flag: a lower-case letter becomes upper-case
    (a to z, and the accented letters 224 to 254 but the division sign);
    the other characters below 256 have no upper case below 256. *)
Definition canonicalize (c : ascii) : ascii :=
  let n := nat_of_ascii c in
  if ((97 <=? n) && (n <=? 122)
      || (224 <=? n) && (n <=? 254) && negb (n =? 247))%nat
  then ascii_of_nat (n - 32) else c.

Definition matches (ignoreCase : bool) (cs : charset) (c : ascii) : bool :=
  match cs with
  | Dot => negb (isLineTerminator c)
  | Space => isWhiteSpace c
  | Word => isWordChar c
  | Char x =>
      if ignoreCase then Ascii.eqb (canonicalize x) (canonicalize c)
      else Ascii.eqb x c
  end.

(** The text from the start of [s] up to where [rest] begins. *)
Definition consumed (s rest : string) : string :=
  String.substring 0 (String.length s - String.length rest) s.

Section Matcher.
Variable ignoreCase : bool.
Context {R : Type}.

Fixpoint greedyStar (cs : charset) (s : string) (k : string -> option R) : option R :=
  match s with
  | String c s' =>
      if matches ignoreCase cs c
      then match greedyStar cs s' k with
           | Some x => Some x
           | None => k s
           end
      else k s
  | EmptyString => k s
  end.

Fixpoint lazyStar (cs : charset) (s : string) (k : string -> option R) : option R :=
  match k s with
  | Some x => Some x
  | None =>
      match s with
      | String c s' => if matches ignoreCase cs c then lazyStar cs s' k else None
      | EmptyString => None
      end
  end.

(** [matchFrom r s cap k]: match [r] at the start of [s], then hand the
    rest and the capture to the continuation [k]; [None] is failure, which
    makes the caller try its next choice. *)
Fixpoint matchFrom (r : regex) (s : string) (cap : option string)
         (k : string -> option string -> option R) : option R :=
  match r with
  | Empty => k s cap
  | End => match s with EmptyString => k s cap | String _ _ => None end
  | One cs =>
      match s with
      | String c s' => if matches ignoreCase cs c then k s' cap else None
      | EmptyString => None
      end
  | Star cs => greedyStar cs s (fun s' => k s' cap)
  | Plus cs =>
      match s with
      | String c s' =>
          if matches ignoreCase cs c then greedyStar cs s' (fun s' => k s' cap) else None
      | EmptyString => None
      end
  | LazyStar cs => lazyStar cs s (fun s' => k s' cap)
  | Seq r1 r2 => matchFrom r1 s cap (fun s' cap' => matchFrom r2 s' cap' k)
  | Alt r1 r2 =>
      match matchFrom r1 s cap k with
      | Some x => Some x
      | None => matchFrom r2 s cap k
      end
  | Group r1 => matchFrom r1 s cap (fun s' _ => k s' (Some (consumed s s')))
  end.
End Matcher.

(** The result of [text.match(re)] for a pattern without the [g] flag:
    [matched] is element 0, [group1] element 1. *)
Record MatchResult := {
  matched : string;
  capture : option string;
  after : string
}.

Definition accept (rest : string) (cap : option string) : option (string * option string) :=
  Some (rest, cap).

Definition matchAt (ignoreCase : bool) (r : regex) (s : string) : option MatchResult :=
  match matchFrom ignoreCase r s None accept with
  | Some (rest, cap) =>
      Some {| matched := consumed s rest; capture := cap; after := rest |}
  | None => None
  end.

(** [text.match(re)]: the leftmost match. *)
Fixpoint search (ignoreCase : bool) (r : regex) (s : string) : option MatchResult :=
  match matchAt ignoreCase r s with
  | Some m => Some m
  | None =>
      match s with
      | String _ s' => search ignoreCase r s'
      | EmptyString => None
      end
  end.

(** The capture of a pattern whose group takes part in every match. *)
Definition group1 (m : MatchResult) : string :=
  match capture m with Some g => g | None => "" end.

Definition test (ignoreCase : bool) (r : regex) (s : string) : bool :=
  match search ignoreCase r s with Some _ => true | None => false end.

(** [text.match(re)] with the [g] flag: all matches, left to right, each
    search starting where the previous match ended (one further on after an
    empty match).  [skip] counts the characters the last match still covers. *)
Fixpoint scan (ignoreCase : bool) (r : regex) (s : string) (skip : nat) : list string :=
  match s with
  | EmptyString =>
      match skip, matchAt ignoreCase r s with
      | O, Some m => [matched m]
      | _, _ => []
      end
  | String _ s' =>
      match skip with
      | S n => scan ignoreCase r s' n
      | O =>
          match matchAt ignoreCase r s with
          | Some m => matched m :: scan ignoreCase r s' (String.length (matched m) - 1)
          | None => scan ignoreCase r s' 0
          end
      end
  end.

Definition matchAll (ignoreCase : bool) (r : regex) (s : string) : list string :=
  scan ignoreCase r s 0.

(** A literal word. *)
Fixpoint lit (w : string) : regex :=
  match w with
  | EmptyString => Empty
  | String c EmptyString => One (Char c)
  | String c rest => Seq (One (Char c)) (lit rest)
  end.

End RegExp.

Import RegExp.

(** ** More string methods *)

(** [arr.push(x)] *)
Definition push {A} (arr : list A) (x : A) : list A := arr ++ [x].

(** The double quote character, for the messages that quote a name. *)
Definition dquote : string := String "034"%char EmptyString.

(** [s.split(sep)] for a one-character separator. *)
Fixpoint split (sep : ascii) (s : string) : list string :=
  match s with
  | EmptyString => [EmptyString]
  | String c rest =>
      if Ascii.eqb c sep then EmptyString :: split sep rest
      else match split sep rest with
           | part :: parts => String c part :: parts
           | [] => [String c EmptyString]
           end
  end.

Fixpoint trimStart (s : string) : string :=
  match s with
  | String c rest => if isWhiteSpace c then trimStart rest else s
  | EmptyString => EmptyString
  end.

Fixpoint trimEnd (s : string) : string :=
  match s with
  | EmptyString => EmptyString
  | String c rest =>
      match trimEnd rest with
      | EmptyString => if isWhiteSpace c then EmptyString else String c EmptyString
      | t => String c t
      end
  end.

(** [s.trim()] *)
Definition trim (s : string) : string := trimEnd (trimStart s).

(** ** Metadata and suggestions *)

Module ObjectInfo.
Record t := { name : string; label : string }.
End ObjectInfo.

Module FieldInfo.
Record t := { name : string; label : string; type : string; indexed : bool }.
End FieldInfo.

Module Suggestion.
Record t := { type : string; severity : string; message : string; fix_ : string }.
End Suggestion.

(** ** The patterns *)

Definition spaces : regex := Plus Space.

(** [/SELECT\s+\*/i] *)
Definition reSelectStar : regex := Seq (lit "SELECT") (Seq spaces (One (Char "*"))).

(** [/WHERE\s+(.*?)(?:\s+ORDER BY|\s+LIMIT|$)/i] *)
Definition reWhereClause : regex :=
  Seq (lit "WHERE")
      (Seq spaces
           (Seq (Group (LazyStar Dot))
                (Alt (Seq spaces (lit "ORDER BY")) (Alt (Seq spaces (lit "LIMIT")) End)))).

(** [/\w+\.\w+|\w+/g] *)
Definition reFieldRef : regex :=
  Alt (Seq (Plus Word) (Seq (One (Char ".")) (Plus Word))) (Plus Word).

(** [/FROM\s+(\w+)/i] *)
Definition reFromObject : regex := Seq (lit "FROM") (Seq spaces (Group (Plus Word))).

(** [/SELECT\s+(.*?)\s+FROM/i] *)
Definition reSelectList : regex :=
  Seq (lit "SELECT") (Seq spaces (Seq (Group (LazyStar Dot)) (Seq spaces (lit "FROM")))).

(** ** QueryOptimizer.analyzeQuery *)

Definition selectStarSuggestion : Suggestion.t :=
  {| Suggestion.type := "performance"; Suggestion.severity := "warning";
     Suggestion.message := "Specify only needed fields instead of SELECT *";
     Suggestion.fix_ := "Select specific fields" |}.

Definition tooManyRecordsSuggestion : Suggestion.t :=
  {| Suggestion.type := "performance"; Suggestion.severity := "warning";
     Suggestion.message := "Query might return too many records";
     Suggestion.fix_ := "Add WHERE clause or LIMIT" |}.

Definition notIndexedSuggestion (field : string) : Suggestion.t :=
  {| Suggestion.type := "performance"; Suggestion.severity := "info";
     Suggestion.message := "Field " +:+ dquote +:+ field +:+ dquote +:+ " is not indexed";
     Suggestion.fix_ := "Consider using indexed fields in filters" |}.

Definition orderByNoLimitSuggestion : Suggestion.t :=
  {| Suggestion.type := "performance"; Suggestion.severity := "info";
     Suggestion.message := "ORDER BY without LIMIT might be slow";
     Suggestion.fix_ := "Add LIMIT clause" |}.

(** [fieldMetadata.find(f => f.name === field)] *)
Definition findField (fieldMetadata : list FieldInfo.t) (field : string) : option FieldInfo.t :=
  find (fun f => String.eqb (FieldInfo.name f) field) fieldMetadata.

(** The body of the [forEach] over the field references of the WHERE clause. *)
Definition noteUnindexed (fieldMetadata : list FieldInfo.t)
           (suggestions : list Suggestion.t) (field : string) : list Suggestion.t :=
  match findField fieldMetadata field with
  | Some fieldInfo =>
      if negb (FieldInfo.indexed fieldInfo)
      then push suggestions (notIndexedSuggestion field)
      else suggestions
  | None => suggestions
  end.

Definition analyzeQuery (query : string) (objectMetadata : list ObjectInfo.t)
           (fieldMetadata : option (list FieldInfo.t)) : list Suggestion.t :=
  let suggestions := [] in
  (* Check for SELECT * *)
  let suggestions :=
    if test true reSelectStar query then push suggestions selectStarSuggestion
    else suggestions in
  (* Check for missing WHERE clause *)
  let suggestions :=
    if negb (test true (lit "WHERE") query) && negb (test true (lit "LIMIT") query)
    then push suggestions tooManyRecordsSuggestion
    else suggestions in
  (* Check for indexed fields in WHERE clause *)
  let whereMatch := search true reWhereClause query in
  let suggestions :=
    match whereMatch, fieldMetadata with
    | Some whereMatch, Some fieldMetadata =>
        let whereClause := group1 whereMatch in
        let usedFields := matchAll false reFieldRef whereClause in
        fold_left (noteUnindexed fieldMetadata) usedFields suggestions
    | _, _ => suggestions
    end in
  (* Check for ORDER BY on large result sets *)
  let suggestions :=
    if test true (lit "ORDER BY") query && negb (test true (lit "LIMIT") query)
    then push suggestions orderByNoLimitSuggestion
    else suggestions in
  suggestions.

(** ** QueryValidator.validateQuery *)

Definition missingClausesError : string := "Query must include SELECT and FROM clauses".

Definition objectNotFound (objectName : string) : string :=
  "Object " +:+ dquote +:+ objectName +:+ dquote +:+ " not found".

Definition wildcardError : string := "Wildcard (*) selections are not supported".

Definition fieldNotFound (field : string) : string :=
  "Field " +:+ dquote +:+ field +:+ dquote +:+ " not found".

Definition parenthesesError : string := "Unmatched parentheses in WHERE clause".

(** [fieldMetadata?.find(f => f.name === field)], as a truth value. *)
Definition knownField (fieldMetadata : option (list FieldInfo.t)) (field : string) : bool :=
  match fieldMetadata with
  | Some fields =>
      match findField fields field with Some _ => true | None => false end
  | None => false
  end.

(** The body of the [forEach] over the selected fields. *)
Definition checkField (fieldMetadata : option (list FieldInfo.t))
           (errors : list string) (field : string) : list string :=
  if String.eqb field "*" then push errors wildcardError
  else if negb (String.eqb field "Id") && negb (knownField fieldMetadata field)
  then push errors (fieldNotFound field)
  else errors.

(** Check object exists *)
Definition checkObject (query : string) (objectMetadata : list ObjectInfo.t)
           (errors : list string) : list string :=
  match search true reFromObject query with
  | Some fromMatch =>
      let objectName := group1 fromMatch in
      match find (fun obj => String.eqb (ObjectInfo.name obj) objectName) objectMetadata with
      | Some _ => errors
      | None => push errors (objectNotFound objectName)
      end
  | None => errors
  end.

(** Check fields exist *)
Definition checkFields (query : string) (fieldMetadata : option (list FieldInfo.t))
           (errors : list string) : list string :=
  match search true reSelectList query with
  | Some selectMatch =>
      let fields := map trim (split "," (group1 selectMatch)) in
      fold_left (checkField fieldMetadata) fields errors
  | None => errors
  end.

(** Check WHERE clause syntax *)
Definition checkWhere (query : string) (errors : list string) : list string :=
  match search true reWhereClause query with
  | Some whereMatch =>
      let whereClause := group1 whereMatch in
      if negb (List.length (matchAll false (One (Char "(")) whereClause)
               =? List.length (matchAll false (One (Char ")")) whereClause))%nat
      then push errors parenthesesError
      else errors
  | None => errors
  end.

Definition validateQuery (query : string) (objectMetadata : list ObjectInfo.t)
           (fieldMetadata : option (list FieldInfo.t)) : list string :=
  let errors := [] in
  (* Check basic structure *)
  if negb (includes "SELECT" query) || negb (includes "FROM" query)
  then push errors missingClausesError
  else
    let errors := checkObject query objectMetadata errors in
    let errors := checkFields query fieldMetadata errors in
    let errors := checkWhere query errors in
    errors.

(** The four checks of [analyzeQuery], each on its own. *)
Definition selectStarCheck (query : string) : list Suggestion.t :=
  if test true reSelectStar query then [selectStarSuggestion] else [].

Definition missingFilterCheck (query : string) : list Suggestion.t :=
  if negb (test true (lit "WHERE") query) && negb (test true (lit "LIMIT") query)
  then [tooManyRecordsSuggestion] else [].

Definition unindexedFields (fieldMetadata : list FieldInfo.t) (usedFields : list string)
  : list Suggestion.t :=
  flat_map (fun field =>
              match findField fieldMetadata field with
              | Some fieldInfo =>
                  if FieldInfo.indexed fieldInfo then [] else [notIndexedSuggestion field]
              | None => []
              end) usedFields.

Definition unindexedCheck (query : string) (fieldMetadata : option (list FieldInfo.t))
  : list Suggestion.t :=
  match search true reWhereClause query, fieldMetadata with
  | Some whereMatch, Some fields =>
      unindexedFields fields (matchAll false reFieldRef (group1 whereMatch))
  | _, _ => []
  end.

Definition orderByCheck (query : string) : list Suggestion.t :=
  if test true (lit "ORDER BY") query && negb (test true (lit "LIMIT") query)
  then [orderByNoLimitSuggestion] else [].

Definition aboutSelectStar (s : Suggestion.t) : bool :=
  includes "SELECT *" (Suggestion.message s).

Definition industryField : FieldInfo.t :=
  {| FieldInfo.name := "Industry"; FieldInfo.label := "Industry";
     FieldInfo.type := "picklist"; FieldInfo.indexed := false |}.

(** ** UndoManager *)

Module UndoManager.
Section WithState.
(** The saved states, and the deep copy [JSON.parse(JSON.stringify(state))]. *)
Variable State : Type.
Variable clone : State -> State.

Record t := {
  history : list State;
  currentIndex : Z;
  maxHistory : nat
}.

(** [new UndoManager(maxHistory)] *)
Definition create (maxHistory : nat) : t :=
  {| history := []; currentIndex := -1; maxHistory := maxHistory |}.

Definition size (l : list State) : Z := Z.of_nat (List.length l).

(** [arr.slice(0, e)]: a negative [e] counts from the end. *)
Definition slice0 (e : Z) (l : list State) : list State :=
  if (e <? 0)%Z then firstn (Z.to_nat (Z.max (size l + e) 0)) l
  else firstn (Z.to_nat e) l.

(** [arr[i]], [None] for [undefined]. *)
Definition at_ (l : list State) (i : Z) : option State :=
  if (i <? 0)%Z then None else nth_error l (Z.to_nat i).

Definition pushState (state : State) (u : t) : t :=
  (* Remove any future states if we're in the middle of the history *)
  let history :=
    if (currentIndex u <? size (history u) - 1)%Z
    then slice0 (currentIndex u + 1) (history u)
    else history u in
  (* Add new state *)
  let history := push history (clone state) in
  (* Remove oldest states if we exceed maxHistory *)
  if (Z.of_nat (maxHistory u) <? size history)%Z
  then {| history := tl history; currentIndex := currentIndex u;
          maxHistory := maxHistory u |}
  else {| history := history; currentIndex := currentIndex u + 1;
          maxHistory := maxHistory u |}.

Definition canUndo (u : t) : bool := (0 <? currentIndex u)%Z.

Definition canRedo (u : t) : bool := (currentIndex u <? size (history u) - 1)%Z.

(** The copy handed back: stringifying [undefined] gives [undefined], which
    [JSON.parse] refuses. *)
Definition copyAt (u : t) : completion (option State) :=
  match at_ (history u) (currentIndex u) with
  | Some s => Normal (Some (clone s))
  | None => Throw SyntaxError
  end.

Definition undo (u : t) : completion (option State) * t :=
  if canUndo u
  then let u' := {| history := history u; currentIndex := currentIndex u - 1;
                    maxHistory := maxHistory u |} in
       (copyAt u', u')
  else (Normal None, u).

Definition redo (u : t) : completion (option State) * t :=
  if canRedo u
  then let u' := {| history := history u; currentIndex := currentIndex u + 1;
                    maxHistory := maxHistory u |} in
       (copyAt u', u')
  else (Normal None, u).

Definition clear (u : t) : t :=
  {| history := []; currentIndex := -1; maxHistory := maxHistory u |}.

(** The calls a client can make, and a run of them. *)
Inductive call :=
| PushState (state : State)
| Undo
| Redo
| Clear.

Definition step (u : t) (c : call) : t :=
  match c with
  | PushState state => pushState state u
  | Undo => snd (undo u)
  | Redo => snd (redo u)
  | Clear => clear u
  end.

Definition run (calls : list call) (u : t) : t := fold_left step calls u.

Definition invariant (u : t) : Prop :=
  (-1 <= currentIndex u <= size (history u) - 1)%Z /\
  List.length (history u) <= maxHistory u.

(** The history [pushState] appends to: the states up to the current one,
    without the redo tail, followed by the copy of the new state. *)
Definition appended (state : State) (u : t) : list State :=
  firstn (Z.to_nat (currentIndex u + 1)) (history u) ++ [clone state].
End WithState.
End UndoManager.

(** Two states pushed into a manager of capacity 2, then one undo. *)
Definition undoneOnce : UndoManager.t nat :=
  UndoManager.run nat id
    [UndoManager.PushState nat 1; UndoManager.PushState nat 2; UndoManager.Undo nat]
    (UndoManager.create nat 2).

(** ** JSON values and the persistence stores *)

(** What [JSON.parse] can return.  A number is [mantissa * 10 ^ exponent]. *)
#[local] Unset Elimination Schemes.
Inductive json :=
| JNull
| JBool (b : bool)
| JNumber (mantissa exponent : Z)
| JString (s : string)
| JArray (items : list json)
| JObject (members : list (string * json)).
#[local] Set Elimination Schemes.

(** The truth value [||] looks at. *)
Definition truthy (v : json) : bool :=
  match v with
  | JNull => false
  | JBool b => b
  | JNumber mantissa _ => negb (mantissa =? 0)%Z
  | JString s => negb (String.eqb s "")
  | JArray _ => true
  | JObject _ => true
  end.

(** An entry of the query history. *)
Record HistoryEntry := { query : string; timestamp : string }.

Definition entryJson (e : HistoryEntry) : json :=
  JObject [("query", JString (query e)); ("timestamp", JString (timestamp e))].

Section JSONStore.
(** The platform's JSON reader: [JSON_parse] is [None] where [JSON.parse]
    raises a SyntaxError. *)
Variable JSON_parse : string -> option json.

Definition parseJSON (text : string) : completion json :=
  match JSON_parse text with
  | Some v => Normal v
  | None => Throw SyntaxError
  end.

(** [JSON.parse(localStorage.getItem(key))]: a missing item is [null], which
    [JSON.parse] reads as the text null. *)
Definition parseItem (localStorage : gmap string string) (key : string) : completion json :=
  parseJSON (match localStorage !! key with
             | Some text => text
             | None => "null"
             end).

(** [x || []] *)
Definition orEmpty (v : json) : json := if truthy v then v else JArray [].
End JSONStore.

Module SavedQueries.
Section WithJSON.
Variable JSON_parse : string -> option json.

Record t := { storageKey : string }.

Definition getAll (sq : t) (localStorage : gmap string string) : completion json :=
  try_catch (let* v := parseItem JSON_parse localStorage (storageKey sq) in
             Normal (orEmpty v))
            (Normal (JArray [])).
End WithJSON.

Section Writes.
(** The platform's JSON reader and writer, and its [===] on what a property
    read gives, [None] being [undefined]. *)
Variable JSON_parse : string -> option json.
Variable JSON_stringify : json -> string.
Variable strictEquals : option json -> option json -> bool.

(** [{ id: Date.now(), ...query, timestamp: ... }]: the spread copies the
    own properties of [query] in the order of [Object.entries], over the
    [id] just written; [timestamp] is written last. *)
Definition entry (now : Z) (query : jsobject json) (timestamp : string) : jsobject json :=
  let o := [("id", JNumber now 0)] in
  let o := fold_left (fun o kv => setOwn o (fst kv) (snd kv)) (entries query) o in
  setOwn o "timestamp" (JString timestamp).

(** Only an array has [unshift]. *)
Definition save (sq : t) (query : jsobject json) (now : Z) (timestamp : string)
           (localStorage : gmap string string) : completion (gmap string string) :=
  let* saved := getAll JSON_parse sq localStorage in
  match saved with
  | JArray saved =>
      let saved := JObject (entry now query timestamp) :: saved in
      Normal (<[storageKey sq := JSON_stringify (JArray saved)]> localStorage)
  | _ => Throw TypeError
  end.

(** [q.id]: a property read on [null] raises; no value but an object with
    an own [id] has one. *)
Definition idOf (q : json) : completion (option json) :=
  match q with
  | JNull => Throw TypeError
  | JObject members => Normal (getOwn members "id")
  | _ => Normal None
  end.

(** [saved.filter(q => q.id !== id)] *)
Fixpoint withoutId (id : option json) (saved : list json) : completion (list json) :=
  match saved with
  | [] => Normal []
  | q :: rest =>
      let* qid := idOf q in
      let* rest := withoutId id rest in
      Normal (if negb (strictEquals qid id) then q :: rest else rest)
  end.

(** Outside [getAll] nothing is caught; only an array has [filter]. *)
Definition delete (sq : t) (id : option json) (localStorage : gmap string string)
  : completion (gmap string string) :=
  let* saved := getAll JSON_parse sq localStorage in
  match saved with
  | JArray saved =>
      let* saved := withoutId id saved in
      Normal (<[storageKey sq := JSON_stringify (JArray saved)]> localStorage)
  | _ => Throw TypeError
  end.
End Writes.
End SavedQueries.

Module QueryHistory.
Section WithJSON.
(** The platform's JSON reader and writer. *)
Variable JSON_parse : string -> option json.
Variable JSON_stringify : json -> string.

Record t := { storageKey : string; maxSize : nat }.

Definition getAll (h : t) (localStorage : gmap string string) : completion json :=
  try_catch (let* v := parseItem JSON_parse localStorage (storageKey h) in
             Normal (orEmpty v))
            (Normal (JArray [])).

(** [now] is what [new Date().toISOString()] returns.  Only an array has
    [unshift]. *)
Definition add (h : t) (query now : string) (localStorage : gmap string string)
  : completion (gmap string string) :=
  let* history := getAll h localStorage in
  match history with
  | JArray history =>
      let history := entryJson {| query := query; timestamp := now |} :: history in
      let history :=
        if (maxSize h <? List.length history)%nat then removelast history else history in
      Normal (<[storageKey h := JSON_stringify (JArray history)]> localStorage)
  | _ => Throw TypeError
  end.

Definition clear (h : t) (localStorage : gmap string string) : gmap string string :=
  delete (storageKey h) localStorage.

(** A run of [add] calls, each with its query and its clock reading. *)
Fixpoint addAll (h : t) (calls : list (string * string))
         (localStorage : gmap string string) : completion (gmap string string) :=
  match calls with
  | [] => Normal localStorage
  | (query, now) :: rest =>
      let* localStorage := add h query now localStorage in
      addAll h rest localStorage
  end.
End WithJSON.
End QueryHistory.

Definition entryOf (call : string * string) : HistoryEntry :=
  {| query := fst call; timestamp := snd call |}.

(** The entries a run of calls leaves: most recent first, at most [n]. *)
Definition kept (n : nat) (calls : list (string * string)) : list HistoryEntry :=
  firstn n (rev (map entryOf calls)).

(** ** A compact JSON writer and reader

    Enough of JSON to run the stores: the writer prints any value without
    white space, escaping quotes and backslashes in strings; the reader
    accepts null and the arrays of objects with two string members that the
    history is stored as, and refuses every other text. *)
Module CompactJSON.

Fixpoint escape (s : string) : string :=
  match s with
  | EmptyString => EmptyString
  | String c rest =>
      if Ascii.eqb c "034" || Ascii.eqb c "\"
      then String "\" (String c (escape rest))
      else String c (escape rest)
  end.

Definition quote (s : string) : string := dquote +:+ escape s +:+ dquote.

Fixpoint stringify (v : json) : string :=
  match v with
  | JNull => "null"
  | JBool b => if b then "true" else "false"
  | JNumber mantissa exponent =>
      decimal mantissa
      +:+ (if (exponent =? 0)%Z then "" else "e" +:+ decimal exponent)
  | JString s => quote s
  | JArray items => "[" +:+ join "," (map stringify items) +:+ "]"
  | JObject members =>
      "{" +:+ join "," (map (fun kv => quote (fst kv) +:+ ":" +:+ stringify (snd kv))
                            members) +:+ "}"
  end.

Inductive token :=
| TOpenBracket | TCloseBracket | TOpenBrace | TCloseBrace | TComma | TColon
| TNull
| TString (s : string).

Definition consToken (t : token) (ts : option (list token)) : option (list token) :=
  match ts with
  | Some l => Some (t :: l)
  | None => None
  end.

(** [lex s lit]: the tokens of [s]; [lit] holds the part already read of a
    string literal that is still open. *)
Fixpoint lex (s : string) (lit : option string) : option (list token) :=
  match s with
  | EmptyString =>
      match lit with
      | None => Some []
      | Some _ => None
      end
  | String c rest =>
      match lit with
      | Some acc =>
          if Ascii.eqb c "034" then consToken (TString acc) (lex rest None)
          else if Ascii.eqb c "\" then
            match rest with
            | String e rest' =>
                if Ascii.eqb e "034" || Ascii.eqb e "\"
                then lex rest' (Some (acc +:+ String e EmptyString))
                else None
            | EmptyString => None
            end
          else lex rest (Some (acc +:+ String c EmptyString))
      | None =>
          if Ascii.eqb c "034" then lex rest (Some EmptyString)
          else if Ascii.eqb c "[" then consToken TOpenBracket (lex rest None)
          else if Ascii.eqb c "]" then consToken TCloseBracket (lex rest None)
          else if Ascii.eqb c "{" then consToken TOpenBrace (lex rest None)
          else if Ascii.eqb c "}" then consToken TCloseBrace (lex rest None)
          else if Ascii.eqb c "," then consToken TComma (lex rest None)
          else if Ascii.eqb c ":" then consToken TColon (lex rest None)
          else if Ascii.eqb c "n" then
            match rest with
            | String "u" (String "l" (String "l" rest')) =>
                consToken TNull (lex rest' None)
            | _ => None
            end
          else None
      end
  end.

Definition consValue (v : json) (vs : option (list json)) : option (list json) :=
  match vs with
  | Some l => Some (v :: l)
  | None => None
  end.

(** The objects of an array, after its opening bracket. *)
Fixpoint parseObjects (ts : list token) : option (list json) :=
  match ts with
  | TOpenBrace :: TString k1 :: TColon :: TString v1 :: TComma
      :: TString k2 :: TColon :: TString v2 :: TCloseBrace :: rest =>
      let object := JObject [(k1, JString v1); (k2, JString v2)] in
      match rest with
      | [TCloseBracket] => Some [object]
      | TComma :: rest' => consValue object (parseObjects rest')
      | _ => None
      end
  | _ => None
  end.

Definition parse (text : string) : option json :=
  match lex text None with
  | Some [TNull] => Some JNull
  | Some [TOpenBracket; TCloseBracket] => Some (JArray [])
  | Some (TOpenBracket :: ts) =>
      match parseObjects ts with
      | Some objects => Some (JArray objects)
      | None => None
      end
  | _ => None
  end.

Definition entryTokens (e : HistoryEntry) : list token :=
  [TOpenBrace; TString "query"; TColon; TString (query e); TComma;
   TString "timestamp"; TColon; TString (timestamp e); TCloseBrace].

End CompactJSON.

(** A history of capacity 2 under the key the add-on uses. *)
Definition smallHistory : QueryHistory.t :=
  {| QueryHistory.storageKey := "modernExportQueryHistory"; QueryHistory.maxSize := 2 |}.

Definition threeCalls : list (string * string) :=
  [("SELECT Id FROM Account", "2024-01-01T00:00:00.000Z");
   ("SELECT Id FROM Contact", "2024-01-02T00:00:00.000Z");
   ("SELECT Id FROM Lead", "2024-01-03T00:00:00.000Z")].

Definition consTokens (ts : list CompactJSON.token) (o : option (list CompactJSON.token))
  : option (list CompactJSON.token) :=
  match o with
  | Some l => Some (ts ++ l)
  | None => None
  end.

Fixpoint entriesTokens (es : list HistoryEntry) : list CompactJSON.token :=
  match es with
  | [] => []
  | e :: rest =>
      match rest with
      | [] => CompactJSON.entryTokens e
      | _ => CompactJSON.entryTokens e ++ CompactJSON.TComma :: entriesTokens rest
      end
  end.

(** A store whose saved-queries item was cut short while being written. *)
Definition corruptedStore : gmap string string :=
  {[ "modernExportSavedQueries" := "[{" +:+ dquote +:+ "id" +:+ dquote +:+ ":17" ]}.

(** What the accumulator holds once the conditions [p] have been read. *)
Definition holds (p : list Condition) (acc : jsobject (list Condition)) : Prop :=
  List.NoDup (map fst acc) /\
  forall k, getOwn acc k =
            match bucketOf k p with [] => None | b => Some b end.

Definition succeeds {A} (o : option A) : Prop := exists a, o = Some a.

Definition notMissingClauses (e : string) : Prop := e <> missingClausesError.

(** Three conditions in the groups b, 2 and b. *)
Definition twoGroups : QueryBuilder :=
  {| selectedObject := Some "Account"; selectedFields := ["Id"; "Name"];
     conditions :=
       [ {| field := "Name"; operator := "LIKE"; value := "A%"; type := "string";
            groupId := Some "b" |};
         {| field := "Employees"; operator := ">"; value := "10"; type := "number";
            groupId := Some "2" |};
         {| field := "Active"; operator := "="; value := "true"; type := "boolean";
            groupId := Some "b" |} ];
     orderBy := [ {| sortField := "Name"; direction := "ASC" |} ];
     limit := Some 5%Z; groupOperator := "OR" |}.

Definition accountObject : ObjectInfo.t :=
  {| ObjectInfo.name := "Account"; ObjectInfo.label := "Account" |}.

(** ** Vocabulary of the further properties *)

(** A manager as the calls leave it: within the invariant, and with an index
    of -1 only over an empty history. *)
Definition settled {State} (u : UndoManager.t State) : Prop :=
  UndoManager.invariant State u /\
  (UndoManager.currentIndex State u = (-1)%Z -> UndoManager.history State u = []).

(** Pushing a list of states, one call each. *)
Definition pushAll {State} (clone : State -> State) (states : list State)
           (u : UndoManager.t State) : UndoManager.t State :=
  UndoManager.run State clone (map (UndoManager.PushState State) states) u.

Definition threeUndoCalls : list (UndoManager.call nat) :=
  [UndoManager.PushState nat 1; UndoManager.PushState nat 2; UndoManager.PushState nat 3;
   UndoManager.Undo nat].

(** ** QueryBuilder: blocks *)

Module Blocks.
Section WithConfig.
(** What a block is configured with. *)
Variable Config : Type.

Record Block := { blockType : string; config : Config; id : Z }.

(** [addBlock]; [now] is what [Date.now()] returns. *)
Definition addBlock (type : string) (config : Config) (now : Z) (blocks : list Block)
  : list Block :=
  push blocks {| blockType := type; config := config; id := now |}.

Definition removeBlock (i : Z) (blocks : list Block) : list Block :=
  List.filter (fun block => negb (id block =? i)%Z) blocks.
End WithConfig.
End Blocks.

(** Undoing the escape of single quotes: a backslash before a quote goes. *)
Fixpoint unescapeQuotes (s : string) : string :=
  match s with
  | EmptyString => EmptyString
  | String c rest =>
      match rest with
      | String d rest' =>
          if Ascii.eqb c "\" && Ascii.eqb d "'"
          then String "'" (unescapeQuotes rest')
          else String c (unescapeQuotes rest)
      | EmptyString => String c EmptyString
      end
  end.

(** A selected object that counts as set. *)
Definition objectSelected (q : QueryBuilder) : Prop :=
  exists o, selectedObject q = Some o /\ o <> "".

(** A limit that counts as set. *)
Definition limitSet (q : QueryBuilder) : Prop :=
  exists n, limit q = Some n /\ n <> 0%Z.

Definition emailCondition (v : string) : Condition :=
  {| field := "Email"; operator := "="; value := v; type := "email"; groupId := None |}.

Definition contactsByEmail (vs : list string) (l : option Z) : QueryBuilder :=
  {| selectedObject := Some "Contact"; selectedFields := ["Name"];
     conditions := map emailCondition vs; orderBy := []; limit := l;
     groupOperator := "OR" |}.

(** ** QueryTemplates *)

(** [s + c] for one character. *)
Definition snoc (s : string) (c : ascii) : string := s +:+ String c EmptyString.

(** The text a replacement string stands for at one match of a pattern
    without capturing groups: [$$] is a dollar, [$&] the matched text,
    [$`] the text before the match, [$'] the text after it; any other
    dollar stands for itself. *)
Fixpoint expand (replacement matched before after : string) : string :=
  match replacement with
  | EmptyString => EmptyString
  | String c rest =>
      if Ascii.eqb c "$" then
        match rest with
        | String d rest' =>
            if Ascii.eqb d "$" then String "$" (expand rest' matched before after)
            else if Ascii.eqb d "&" then matched +:+ expand rest' matched before after
            else if Ascii.eqb d "`" then before +:+ expand rest' matched before after
            else if Ascii.eqb d "'" then after +:+ expand rest' matched before after
            else String c (expand rest matched before after)
        | EmptyString => String c EmptyString
        end
      else String c (expand rest matched before after)
  end.

(** [text.replace(re, replacement)] for a pattern with the [g] flag and
    without groups: every match, found as by [scan], gives way to the
    expansion of the replacement; [before] is the text already passed. *)
Fixpoint replaceScan (ignoreCase : bool) (r : regex) (replacement before s : string)
         (skip : nat) : string :=
  match s with
  | EmptyString =>
      match skip, matchAt ignoreCase r s with
      | O, Some m => expand replacement (matched m) before (after m)
      | _, _ => EmptyString
      end
  | String c s' =>
      match skip with
      | S n => replaceScan ignoreCase r replacement (snoc before c) s' n
      | O =>
          match matchAt ignoreCase r s with
          | Some m =>
              expand replacement (matched m) before (after m)
              +:+ match String.length (matched m) with
                  | O => String c (replaceScan ignoreCase r replacement (snoc before c) s' 0)
                  | S n => replaceScan ignoreCase r replacement (snoc before c) s' n
                  end
          | None => String c (replaceScan ignoreCase r replacement (snoc before c) s' 0)
          end
      end
  end.

Definition replaceAll (ignoreCase : bool) (r : regex) (replacement s : string) : string :=
  replaceScan ignoreCase r replacement EmptyString s 0.

Module Template.
Record t := { name : string; query : string }.
End Template.

(** [QueryTemplates.templates], an object literal. *)
Definition templates : jsobject Template.t :=
  [ ("Recently Modified",
     {| Template.name := "Recently Modified Records";
        Template.query := "SELECT Id, Name, LastModifiedDate FROM {object} ORDER BY LastModifiedDate DESC LIMIT 100" |});
    ("Created This Week",
     {| Template.name := "Records Created This Week";
        Template.query := "SELECT Id, Name, CreatedDate FROM {object} WHERE CreatedDate = THIS_WEEK ORDER BY CreatedDate DESC" |});
    ("Modified By Me",
     {| Template.name := "Records I Modified";
        Template.query := "SELECT Id, Name, LastModifiedDate FROM {object} WHERE LastModifiedById = {userId} ORDER BY LastModifiedDate DESC" |});
    ("Duplicate Check",
     {| Template.name := "Potential Duplicates";
        Template.query := "SELECT Name, COUNT(Id) records FROM {object} GROUP BY Name HAVING COUNT(Id) > 1" |}) ].

(** [QueryTemplates.getTemplateQuery]: [None] is [null]; what is inherited
    from [Object.prototype] is truthy and has no [query] to call [replace]
    on. *)
Definition getTemplateQuery (templateId object userId : string) : completion (option string) :=
  match getProperty templates templateId with
  | Undefined => Normal None
  | Inherited => Throw TypeError
  | Own template =>
      Normal (Some (replaceAll false (lit "{userId}") userId
                      (replaceAll false (lit "{object}") object (Template.query template))))
  end.

(** A reader that also knows the literals true and false. *)
Definition parseWithLiterals (text : string) : option json :=
  if String.eqb text "true" then Some (JBool true)
  else if String.eqb text "false" then Some (JBool false)
  else CompactJSON.parse text.

(** A store whose history item holds a lone true, and one that holds
    something else besides the history. *)
Definition foreignStore : gmap string string :=
  {[ "modernExportQueryHistory" := "true" ]}.

Definition sharedStore : gmap string string :=
  {[ "modernExportQueryHistory" := "[{"; "theme" := "dark" ]}.

(** The history [add] writes when it finds none: the new entry, unless the
    capacity is 0. *)
Definition freshHistory (h : QueryHistory.t) (query now : string) : json :=
  JArray (if (QueryHistory.maxSize h <? 1)%nat then []
          else [entryJson {| query := query; timestamp := now |}]).

(** ** The pickers *)

(** [s.toLowerCase()] below 256: the capitals A to Z, and the accented
    capitals 192 to 222 but the multiplication sign, move 32 up. *)
Definition lowerChar (c : ascii) : ascii :=
  let n := nat_of_ascii c in
  if ((65 <=? n) && (n <=? 90)
      || (192 <=? n) && (n <=? 222) && negb (n =? 215))%nat
  then ascii_of_nat (n + 32) else c.

Fixpoint toLowerCase (s : string) : string :=
  match s with
  | EmptyString => EmptyString
  | String c rest => String (lowerChar c) (toLowerCase rest)
  end.

(** The search test both pickers apply to a label and a name. *)
Definition matchesSearch (searchTerm label name : string) : bool :=
  String.eqb searchTerm ""
  || includes (toLowerCase searchTerm) (toLowerCase label)
  || includes (toLowerCase searchTerm) (toLowerCase name).

(** [ObjectSelector.getFilteredObjects]; [None] is [undefined], for props
    without objects. *)
Definition getFilteredObjects (objects : option (list ObjectInfo.t)) (searchTerm : string)
  : option (list ObjectInfo.t) :=
  option_map
    (List.filter (fun obj => matchesSearch searchTerm (ObjectInfo.label obj) (ObjectInfo.name obj)))
    objects.

(** [getFilteredFields], the same in the field selector and in the sorting
    modal. *)
Definition getFilteredFields (fields : option (list FieldInfo.t))
           (searchTerm categoryFilter : string) : option (list FieldInfo.t) :=
  option_map
    (List.filter (fun field =>
       let matchesSearch := matchesSearch searchTerm (FieldInfo.label field) (FieldInfo.name field) in
       let matchesCategory :=
         String.eqb categoryFilter "all" || String.eqb (FieldInfo.type field) categoryFilter in
       matchesSearch && matchesCategory))
    fields.

(** ** Exporting the results *)

Definition newline : string := String "010"%char EmptyString.
Definition tab : string := String "009"%char EmptyString.

(** The text [value.replace(/x/g, ...)] leaves when every [x] is doubled. *)
Fixpoint doubled (x : ascii) (s : string) : string :=
  match s with
  | EmptyString => EmptyString
  | String c rest =>
      if Ascii.eqb x c then String c (String c (doubled x rest))
      else String c (doubled x rest)
  end.

(** Reads a quoted cell from after its opening quote: the text up to the
    closing quote, a doubled quote standing for one, and what follows. *)
Fixpoint readQuoted (s : string) : option (string * string) :=
  match s with
  | EmptyString => None
  | String c rest =>
      if Ascii.eqb c "034" then
        match rest with
        | String d rest' =>
            if Ascii.eqb d "034" then
              match readQuoted rest' with
              | Some (text, after) => Some (String c text, after)
              | None => None
              end
            else Some (EmptyString, rest)
        | EmptyString => Some (EmptyString, rest)
        end
      else
        match readQuoted rest with
        | Some (text, after) => Some (String c text, after)
        | None => None
        end
  end.

Section ExportModel.
(** The records are what [JSON.parse] made of the server's answer.
    [stringOf] is the platform's [String(value)]; [inheritedText] is the text
    it gives for what [Object.prototype] holds under a name. *)
Variable stringOf : json -> string.
Variable inheritedText : string -> string.

(** [String(record[field] || '')] *)
Definition cellText (record : jsobject json) (field : string) : string :=
  match getProperty record field with
  | Own v => if truthy v then stringOf v else ""
  | Inherited => inheritedText field
  | Undefined => ""
  end.

(** The template literal that wraps a cell in quotes, those inside it
    doubled. *)
Definition quotedCell (record : jsobject json) (field : string) : string :=
  dquote +:+ replaceAll false (lit dquote) (dquote +:+ dquote) (cellText record field)
  +:+ dquote.

Definition exportToExcel (records : list (jsobject json)) (fields : list string) : string :=
  join newline
    (map (fun record => join tab (map (fun field => quotedCell record field) fields))
       records).

Definition exportToCsv (records : list (jsobject json)) (fields : list string) : string :=
  join newline
    (map (fun record => join "," (map (fun field => quotedCell record field) fields))
       records).

(** The cell texts of an export, row by row. *)
Definition table (records : list (jsobject json)) (fields : list string) : list (list string) :=
  map (fun record => map (cellText record) fields) records.
End ExportModel.

(** No quote comes first in the text. *)
Definition noQuoteAhead (s : string) : Prop :=
  match s with
  | EmptyString => True
  | String c _ => Ascii.eqb c "034" = false
  end.

(** A cell in quotes, and a row of them. *)
Definition inQuotes (text : string) : string := dquote +:+ doubled "034" text +:+ dquote.

Definition rowText (sep : ascii) (row : list string) : string :=
  join (String sep "") (map inQuotes row).

Definition tableText (sep : ascii) (rows : list (list string)) : string :=
  join newline (map (rowText sep) rows).

(** The text ends here or goes on with a new line. *)
Definition endsRow (s : string) : Prop := s = "" \/ exists s', s = String "010" s'.

(** Two contacts that differ in cells that are not truthy, and a field list. *)
Definition contactA : jsobject json :=
  [("Name", JString ("Ann " +:+ dquote +:+ "Al" +:+ dquote +:+ " Lee, PhD"));
   ("Score", JNumber 0 0); ("Active", JBool false)].

Definition contactB : jsobject json :=
  [("Name", JString ("Ann " +:+ dquote +:+ "Al" +:+ dquote +:+ " Lee, PhD"));
   ("Score", JNull)].

Definition contactFields : list string := ["Name"; "Score"; "Active"].

(** [String(value)] for a text, a truth value, null, an integer and a plain
    object; the examples hold no other value. *)
Definition textOf (v : json) : string :=
  match v with
  | JString s => s
  | JBool true => "true"
  | JBool false => "false"
  | JNull => "null"
  | JNumber mantissa _ => showNumber mantissa
  | JArray _ => ""
  | JObject _ => "[object Object]"
  end.

(** ** QueryValidator.suggestQuery *)

Module Proposal.
Record t := { type : string; text : string; description : string }.
End Proposal.

(** The pattern of the first block: FROM, white space, a captured run of
    word characters that may be empty, the end of the text; flag [i]. *)
Definition reFromPartial : regex :=
  Seq (lit "FROM") (Seq spaces (Seq (Group (Star Word)) End)).

(** [/SELECT\s*$/i] *)
Definition reSelectEnd : regex := Seq (lit "SELECT") (Seq (Star Space) End).

(** What the first block pushes: the objects whose name starts with the
    word being typed after FROM. *)
Definition objectProposals (partialQuery : string) (objectMetadata : list ObjectInfo.t)
  : list Proposal.t :=
  if includes "from" (toLowerCase partialQuery)
     && negb (includes "where" (toLowerCase partialQuery))
  then match search true reFromPartial partialQuery with
       | Some fromMatch =>
           let partial := toLowerCase (group1 fromMatch) in
           map (fun obj => {| Proposal.type := "object"; Proposal.text := ObjectInfo.name obj;
                              Proposal.description := ObjectInfo.label obj |})
             (List.filter (fun obj => startsWith partial (toLowerCase (ObjectInfo.name obj)))
                objectMetadata)
       | None => []
       end
  else [].

(** What the second block pushes: every field, after a bare SELECT. *)
Definition fieldProposals (partialQuery : string) (fieldMetadata : option (list FieldInfo.t))
  : list Proposal.t :=
  match fieldMetadata with
  | Some fields =>
      if test true reSelectEnd partialQuery
      then map (fun field => {| Proposal.type := "field"; Proposal.text := FieldInfo.name field;
                                Proposal.description := FieldInfo.label field |}) fields
      else []
  | None => []
  end.

Definition suggestQuery (partialQuery : string) (objectMetadata : list ObjectInfo.t)
           (fieldMetadata : option (list FieldInfo.t)) : list Proposal.t :=
  let suggestions := [] in
  let suggestions := suggestions ++ objectProposals partialQuery objectMetadata in
  let suggestions := suggestions ++ fieldProposals partialQuery fieldMetadata in
  suggestions.

(** Every character of the text passes the test. *)
Fixpoint allOf (f : ascii -> bool) (s : string) : bool :=
  match s with
  | EmptyString => true
  | String c rest => f c && allOf f rest
  end.

(** [a === b] on values read from JSON: numbers by their value, which is
    right for those a double holds exactly, as the integers of [Date.now()];
    arrays and objects never, each reading making new ones. *)
Definition sameValue (a b : option json) : bool :=
  match a, b with
  | None, None => true
  | Some JNull, Some JNull => true
  | Some (JBool x), Some (JBool y) => Bool.eqb x y
  | Some (JNumber m1 e1), Some (JNumber m2 e2) =>
      (m1 * 10 ^ (e1 - Z.min e1 e2) =? m2 * 10 ^ (e2 - Z.min e1 e2))%Z
  | Some (JString x), Some (JString y) => String.eqb x y
  | _, _ => false
  end.

(** A saved query loaded from the list and saved again: it carries the id
    and the time stamp of its first saving. *)
Definition resavedQuery : jsobject json :=
  [("id", JNumber 1704067200000 0); ("name", JString "Accounts");
   ("query", JString "SELECT Id FROM Account"); ("object", JString "Account");
   ("timestamp", JString "2024-01-01T00:00:00.000Z")].

(** The list [save] writes when it finds none, and the one [delete] writes. *)
Definition freshSaved (query : jsobject json) (now : Z) (timestamp : string) : json :=
  JArray [JObject (SavedQueries.entry now query timestamp)].

(** The iteration order of a [Set] the texts were added to one by one: the
    first of equal texts keeps its place. *)
Fixpoint distinct (l : list string) : list string :=
  match l with
  | [] => []
  | x :: rest => x :: List.filter (fun y => negb (String.eqb x y)) (distinct rest)
  end.

(** [array.sort()] without a comparator, on texts: ascending by code units. *)
Fixpoint insertSorted (x : string) (l : list string) : list string :=
  match l with
  | [] => [x]
  | y :: rest => if String.leb x y then x :: l else y :: insertSorted x rest
  end.

Definition sort (l : list string) : list string := fold_right insertSorted [] l.

(** [getFieldCategories]; without fields [forEach] is not called. *)
Definition getFieldCategories (fields : option (list FieldInfo.t)) : list string :=
  let categories :=
    distinct (match fields with
              | Some fields => map FieldInfo.type fields
              | None => []
              end) in
  "all" :: sort categories.

(** The builder right after an object has been chosen: nothing selected, no
    condition, no sorting, no limit. *)
Definition freshBuilder (object : string) : QueryBuilder :=
  {| selectedObject := Some object; selectedFields := []; conditions := [];
     orderBy := []; limit := None; groupOperator := "AND" |}.

(** ** SortingModal *)

(** [array.map((x, i) => ...)] and [array.filter((x, i) => ...)], the index
    counting from [i]. *)
Fixpoint mapWithIndex {A B} (f : A -> nat -> B) (i : nat) (l : list A) : list B :=
  match l with
  | [] => []
  | x :: rest => f x i :: mapWithIndex f (S i) rest
  end.

Fixpoint filterWithIndex {A} (f : A -> nat -> bool) (i : nat) (l : list A) : list A :=
  match l with
  | [] => []
  | x :: rest =>
      if f x i then x :: filterWithIndex f (S i) rest else filterWithIndex f (S i) rest
  end.

Module SortingModal.
(** The [updates] of [updateSortField]: a new field, a new direction, or
    both. *)
Record Updates := { newField : option string; newDirection : option string }.

(** [{ ...field, ...updates }] *)
Definition merge (row : SortKey) (updates : Updates) : SortKey :=
  {| sortField := match newField updates with Some f => f | None => sortField row end;
     direction := match newDirection updates with Some d => d | None => direction row end |}.

Definition addSortField (sortFields : list SortKey) : list SortKey :=
  sortFields ++ [{| sortField := ""; direction := "ASC" |}].

Definition updateSortField (index : nat) (updates : Updates) (sortFields : list SortKey)
  : list SortKey :=
  mapWithIndex (fun row i => if (i =? index)%nat then merge row updates else row) 0 sortFields.

Definition removeSortField (index : nat) (sortFields : list SortKey) : list SortKey :=
  filterWithIndex (fun _ i => negb (i =? index)%nat) 0 sortFields.

(** What the Apply button hands to [onApply]: the rows with a field. *)
Definition applied (sortFields : list SortKey) : list SortKey :=
  List.filter (fun f => negb (String.eqb (sortField f) "")) sortFields.
End SortingModal.

(** * Properties *)

(** ** Facts about strings *)

Lemma sapp_assoc (a b c : string) : (a +:+ b) +:+ c = a +:+ (b +:+ c).
Proof. induction a as [|x a IH]; simpl; [reflexivity | now rewrite IH]. Qed.

Lemma sapp_nil_r (a : string) : a +:+ "" = a.
Proof. induction a as [|x a IH]; simpl; [reflexivity | now rewrite IH]. Qed.

Lemma startsWith_spec (sub s : string) :
  startsWith sub s = true <-> exists b, s = sub +:+ b.
Proof.
  revert s; induction sub as [|a sub IH]; intros s; simpl.
  - split; [intros _; now exists s | reflexivity].
  - destruct s as [|b s]; simpl.
    + split; [discriminate | intros [r Hr]; discriminate].
    + rewrite andb_true_iff, Ascii.eqb_eq, IH. split.
      * intros [-> [r ->]]. now exists r.
      * intros [r Hr]. injection Hr as -> ->. split; [reflexivity | now exists r].
Qed.

Lemma includes_spec (sub s : string) :
  includes sub s = true <-> exists a b, s = a +:+ sub +:+ b.
Proof.
  induction s as [|c s IH]; simpl.
  - rewrite orb_false_r, startsWith_spec. split.
    + intros [b Hb]. now exists "", b.
    + intros [a [b Hab]]. destruct a; [now exists b | discriminate].
  - rewrite orb_true_iff, startsWith_spec, IH. split.
    + intros [[b Hb] | [a [b Hab]]].
      * now exists "", b.
      * exists (String c a), b. simpl. now rewrite Hab.
    + intros [a [b Hab]]. destruct a as [|x a]; simpl in Hab.
      * left. now exists b.
      * right. injection Hab as -> ->. now exists a, b.
Qed.

(** ** formatValue *)

(** In the escaped text every single quote stands right after a backslash. *)
Lemma escapeQuotes_escaped (value a b : string) :
  escapeQuotes value = a +:+ "'" +:+ b -> exists a', a = a' +:+ "\".
Proof.
  revert a; induction value as [|c v IH]; intros a H; simpl in H.
  - destruct a; discriminate.
  - destruct (Ascii.eqb c "'") eqn:Hc.
    + destruct a as [|x a]; simpl in H; [discriminate|].
      injection H as <- H.
      destruct a as [|y a]; simpl in H; [now exists ""|].
      injection H as <- H.
      destruct (IH _ H) as [a' ->]. now exists (String "\" (String "'" a')).
    + destruct a as [|x a]; simpl in H.
      * injection H as -> _. discriminate.
      * injection H as <- H. destruct (IH _ H) as [a' ->]. now exists (String c a').
Qed.

Lemma formatValue_unrecognized (value type : string) :
  ~ In type recognizedTypes -> formatValue value type = quoted value.
Proof.
  intros H. unfold formatValue.
  repeat match goal with
  | |- context [String.eqb type ?k] =>
      destruct (String.eqb_spec type k) as [->|_];
      [exfalso; apply H; unfold recognizedTypes; simpl; tauto|]
  end.
  reflexivity.
Qed.

(** C2. [formatValue] by declared type: the string-like types and every
    unrecognized type give the value in single quotes with each single quote
    escaped as backslash-quote; [boolean], [number], [currency] and [percent]
    give the value unchanged; [date] gives the value in single quotes unless
    it already contains one; [datetime] gives the value unchanged.  So
    O'Brien of type string is 'O\'Brien', and a number is left bare. *)
Theorem formatValue_by_type (value type : string) :
  (In type stringLikeTypes \/ ~ In type recognizedTypes ->
     formatValue value type = "'" +:+ escapeQuotes value +:+ "'") /\
  (forall a b, escapeQuotes value = a +:+ "'" +:+ b -> exists a', a = a' +:+ "\") /\
  (In type verbatimTypes -> formatValue value type = value) /\
  (type = "date" ->
     formatValue value type =
       if includes "'" value then value else "'" +:+ value +:+ "'") /\
  (type = "datetime" -> formatValue value type = value) /\
  formatValue "O'Brien" "string" = "'O\'Brien'" /\
  formatValue value "number" = value.
Proof.
  repeat split.
  - intros [H | H].
    + simpl in H. decompose [or] H; subst; try reflexivity; contradiction.
    + now apply formatValue_unrecognized.
  - apply escapeQuotes_escaped.
  - intros H. simpl in H. decompose [or] H; subst; try reflexivity; contradiction.
  - intros ->. reflexivity.
  - intros ->. unfold formatValue; simpl. now destruct (includes "'" value).
Qed.

Lemma formatValue_by_type_witness :
  formatValue "a@b.com" "email" = "'a@b.com'" /\
  formatValue "it's" "picklist" = "'it\'s'" /\
  formatValue "42" "number" = "42" /\
  formatValue "2024-01-01" "date" = "'2024-01-01'" /\
  formatValue "2024-01-01T00:00:00Z" "datetime" = "2024-01-01T00:00:00Z".
Proof.
  split; [|split; [|split; [|split]]].
  - apply (proj1 (formatValue_by_type "a@b.com" "email")).
    left. simpl. tauto.
  - apply (proj1 (formatValue_by_type "it's" "picklist")).
    right. unfold recognizedTypes. simpl. intros H. decompose [or] H; discriminate || contradiction.
  - apply (proj1 (proj2 (proj2 (formatValue_by_type "42" "number")))).
    simpl. tauto.
  - apply (proj1 (proj2 (proj2 (proj2 (formatValue_by_type "2024-01-01" "date"))))).
    reflexivity.
  - apply (proj1 (proj2 (proj2 (proj2 (proj2 (formatValue_by_type "2024-01-01T00:00:00Z" "datetime")))))).
    reflexivity.
Defined.

(** ** Where a keyword can occur in a concatenation *)

Lemma occurs_app (c : ascii) (a b : string) :
  occurs c (a +:+ b) = occurs c a || occurs c b.
Proof.
  induction a as [|x a IH]; simpl; [reflexivity|].
  now rewrite IH, orb_assoc.
Qed.

Lemma sapp_eq_sapp (a b c d : string) :
  a +:+ b = c +:+ d ->
  (exists m, c = a +:+ m /\ b = m +:+ d) \/ (exists m, a = c +:+ m /\ d = m +:+ b).
Proof.
  revert c; induction a as [|x a IH]; intros c H; simpl in H.
  - left. now exists c.
  - destruct c as [|y c]; simpl in H.
    + right. exists (String x a). now subst.
    + injection H as <- H. destruct (IH _ H) as [[m [-> ->]] | [m [-> ->]]].
      * left. now exists m.
      * right. now exists m.
Qed.

(** A character foreign to [sub] cuts every occurrence of [sub]: one that
    contains the cut is impossible. *)
Lemma includes_cut (sub x y : string) (c : ascii) :
  occurs c sub = false ->
  includes sub (x +:+ String c y) = includes sub x || includes sub y.
Proof.
  intros Hc. apply eq_true_iff_eq.
  rewrite orb_true_iff, !includes_spec. split.
  - intros [a [b H]]. symmetry in H.
    destruct (sapp_eq_sapp _ _ _ _ H) as [[m [-> Hm]] | [m [-> Hm]]].
    + (* the cut lies at or after the start of sub *)
      destruct (sapp_eq_sapp _ _ _ _ Hm) as [[n [-> Hn]] | [n [-> Hn]]].
      * left. exists a, n. now rewrite ?sapp_assoc, ?sapp_nil_r.
      * (* inside sub or right at its end *)
        destruct n as [|z n]; simpl in Hn.
        -- left. exists a, "". now rewrite ?sapp_assoc, ?sapp_nil_r.
        -- injection Hn as <- _. rewrite occurs_app in Hc. simpl in Hc.
           rewrite Ascii.eqb_refl, orb_true_r in Hc. discriminate.
    + (* the cut lies before sub *)
      destruct m as [|z m]; simpl in Hm.
      * destruct sub as [|z sub]; simpl in Hm.
        -- left. exists x, "". now rewrite ?sapp_assoc, ?sapp_nil_r.
        -- injection Hm as <- _. simpl in Hc. rewrite Ascii.eqb_refl in Hc. discriminate.
      * injection Hm as <- ->. right. now exists m, b.
  - intros [[a [b ->]] | [a [b ->]]].
    + exists a, (b +:+ String c y). now rewrite ?sapp_assoc, ?sapp_nil_r.
    + exists (x +:+ String c a), b. now rewrite ?sapp_assoc, ?sapp_nil_r.
Qed.

Lemma includes_nil_r (sub : string) : sub <> "" -> includes sub "" = false.
Proof. destruct sub; [congruence | reflexivity]. Qed.

Lemma includes_cons_foreign (sub y : string) (c : ascii) :
  occurs c sub = false -> sub <> "" ->
  includes sub (String c y) = includes sub y.
Proof.
  intros Hc Hne. change (String c y) with ("" +:+ String c y).
  now rewrite includes_cut, includes_nil_r.
Qed.

(** The right part starts with a foreign character. *)
Lemma includes_app_cut_l (sub x y : string) (c : ascii) :
  occurs c sub = false -> sub <> "" ->
  includes sub (x +:+ String c y) = includes sub x || includes sub (String c y).
Proof.
  intros Hc Hne. now rewrite includes_cut, includes_cons_foreign.
Qed.

(** The left part ends with a foreign character. *)
Lemma includes_app_cut_r (sub x y : string) (c : ascii) :
  occurs c sub = false -> sub <> "" ->
  includes sub ((x +:+ String c "") +:+ y) =
  includes sub (x +:+ String c "") || includes sub y.
Proof.
  intros Hc Hne. rewrite sapp_assoc. simpl.
  rewrite !includes_cut, includes_nil_r, orb_false_r by assumption.
  reflexivity.
Qed.

Lemma includes_occurs (c : ascii) (sub s : string) :
  includes (String c sub) s = true -> occurs c s = true.
Proof.
  rewrite includes_spec. intros [a [b ->]].
  rewrite occurs_app. simpl. now rewrite Ascii.eqb_refl, orb_true_r.
Qed.

(** ** buildQuery: the LIMIT clause *)

Lemma cmap_id_ext {A} (f : A -> A) (c : completion A) :
  (forall a, f a = a) -> cmap f c = c.
Proof. intros H. destruct c; simpl; [now rewrite H | reflexivity]. Qed.

Lemma buildQuery_unfold (q : QueryBuilder) :
  buildQuery q =
  cmap (fun wh => (((selectClause q +:+ fromClause q) +:+ wh) +:+ orderByClause q)
                  +:+ limitClause q) (whereClause q).
Proof. reflexivity. Qed.

(** C7. The LIMIT clause is the last thing appended, it is [" LIMIT "]
    followed by the stored limit as a template literal prints that Number,
    and it is there exactly when the limit is set and non-zero: with a limit
    of 0 (or none) the query is the one built without a limit.  The text of
    the limit is its decimal digits for every integer up to 2^53 in size;
    beyond that it is the shortest decimal of the Number, with zeros up to
    21 digits (2^60 gives 1152921504606847000) and in exponent form from 22
    digits on (10^21 gives 1e+21). *)
Theorem buildQuery_limit (q : QueryBuilder) :
  buildQuery q = cmap (fun s => s +:+ limitClause q) (buildQuery (withLimit None q)) /\
  (limit q = None \/ limit q = Some 0%Z ->
     limitClause q = "" /\ buildQuery q = buildQuery (withLimit None q)) /\
  (forall n, limit q = Some n -> n <> 0%Z ->
     limitClause q = " LIMIT " +:+ showNumber n) /\
  (forall n, limit q = Some n -> n <> 0%Z -> (Z.abs n <= 2 ^ 53)%Z ->
     limitClause q = " LIMIT " +:+ NilZero.string_of_int (Z.to_int n)) /\
  limitClause (withLimit (Some 25%Z) q) = " LIMIT 25" /\
  limitClause (withLimit (Some (-5)%Z) q) = " LIMIT -5" /\
  limitClause (withLimit (Some (2 ^ 60)%Z) q) = " LIMIT 1152921504606847000" /\
  limitClause (withLimit (Some (10 ^ 21)%Z) q) = " LIMIT 1e+21" /\
  limitClause (withLimit (Some (10 ^ 23)%Z) q) = " LIMIT 1e+23" /\
  limitClause (withLimit (Some (2 ^ 1024)%Z) q) = " LIMIT Infinity".
Proof.
  assert (Hgen : buildQuery q =
            cmap (fun s => s +:+ limitClause q) (buildQuery (withLimit None q))).
  { rewrite !buildQuery_unfold.
    change (whereClause (withLimit None q)) with (whereClause q).
    change (selectClause (withLimit None q)) with (selectClause q).
    change (fromClause (withLimit None q)) with (fromClause q).
    change (orderByClause (withLimit None q)) with (orderByClause q).
    change (limitClause (withLimit None q)) with "".
    destruct (whereClause q); simpl; [now rewrite sapp_nil_r | reflexivity]. }
  assert (Hshow : forall n, limit q = Some n -> n <> 0%Z ->
            limitClause q = " LIMIT " +:+ showNumber n).
  { intros n Hn Hz. unfold limitClause. rewrite Hn. now destruct (Z.eqb_spec n 0). }
  split; [exact Hgen | split; [|split; [exact Hshow | split]]].
  - intros H.
    assert (Hl : limitClause q = "") by (unfold limitClause; now destruct H as [-> | ->]).
    split; [exact Hl|].
    rewrite Hgen, Hl. apply cmap_id_ext, sapp_nil_r.
  - intros n Hn Hz Hsafe. rewrite (Hshow n Hn Hz). unfold showNumber, decimal.
    now destruct (Z.leb_spec (Z.abs n) (2 ^ 53)); [|lia].
  - unfold limitClause, withLimit. cbn [limit]. repeat split; vm_compute; reflexivity.
Qed.

Lemma buildQuery_limit_witness :
  buildQuery (accountsLimited 0) = Normal "SELECT Id FROM Account" /\
  limitClause (accountsLimited 25) = " LIMIT 25" /\
  limitClause (accountsLimited 9007199254740991) = " LIMIT 9007199254740991".
Proof.
  split; [|split].
  - rewrite (proj2 (proj1 (proj2 (buildQuery_limit (accountsLimited 0)))
                      (or_intror eq_refl))).
    reflexivity.
  - rewrite (proj1 (proj2 (proj2 (buildQuery_limit (accountsLimited 25)))) 25%Z eq_refl);
      [reflexivity | lia].
  - rewrite (proj1 (proj2 (proj2 (proj2 (buildQuery_limit (accountsLimited 9007199254740991)))))
               9007199254740991%Z eq_refl); [reflexivity | lia | vm_compute; discriminate].
Defined.

(** ** buildQuery without conditions *)

Lemma includes_WHERE_join (fs : list string) :
  includes "WHERE" (join ", " fs) = existsb (includes "WHERE") fs.
Proof.
  induction fs as [|f fs IH]; [reflexivity|].
  destruct fs as [|g fs].
  - simpl. now rewrite orb_false_r.
  - change (join ", " (f :: g :: fs)) with (f +:+ String "," (" " +:+ join ", " (g :: fs))).
    rewrite includes_cut by reflexivity.
    change (" " +:+ join ", " (g :: fs)) with (String " " (join ", " (g :: fs))).
    rewrite includes_cons_foreign by (reflexivity || discriminate).
    rewrite IH. reflexivity.
Qed.

Lemma occurs_W_uint (d : Decimal.uint) :
  occurs "W" (NilEmpty.string_of_uint d) = false.
Proof. induction d; simpl; auto. Qed.

Lemma occurs_W_decimal (n : Z) : occurs "W" (decimal n) = false.
Proof.
  unfold decimal. destruct (Z.to_int n) as [d|d]; simpl.
  - destruct d; simpl; try reflexivity; now rewrite occurs_W_uint.
  - destruct d; simpl; try reflexivity; now rewrite occurs_W_uint.
Qed.

Lemma occurs_W_zeros (n : nat) : occurs "W" (zeros n) = false.
Proof. induction n; simpl; auto. Qed.

Lemma occurs_W_formatNumber (s k n : Z) : occurs "W" (formatNumber s k n) = false.
Proof.
  unfold formatNumber. destruct (n <=? 21)%Z.
  - now rewrite occurs_app, occurs_W_decimal, occurs_W_zeros.
  - pose proof (occurs_W_decimal s) as Hs.
    destruct (decimal s) as [|c rest]; [reflexivity|].
    cbn [occurs] in Hs. apply orb_false_elim in Hs as [Hc Hrest].
    change (String c (match rest with EmptyString => EmptyString | _ => String "." rest end)
            +:+ "e+" +:+ decimal (n - 1))
      with (String c ((match rest with EmptyString => EmptyString | _ => String "." rest end)
                      +:+ "e+" +:+ decimal (n - 1))).
    cbn [occurs]. rewrite Hc, !occurs_app, occurs_W_decimal.
    destruct rest; [reflexivity|]. cbn [occurs] in *. now rewrite Hrest.
Qed.

Lemma occurs_W_showNumber (n : Z) : occurs "W" (showNumber n) = false.
Proof.
  unfold showNumber. destruct (Z.abs n <=? 2 ^ 53)%Z; [apply occurs_W_decimal|].
  assert (H : occurs "W"
                (if (2 ^ 1024 <=? roundToNumber (Z.abs n))%Z then "Infinity"
                 else numberToString (roundToNumber (Z.abs n))) = false).
  { destruct (2 ^ 1024 <=? roundToNumber (Z.abs n))%Z; [reflexivity|].
    unfold numberToString. destruct (_ =? _)%Z; [apply occurs_W_formatNumber|].
    destruct (shortest _ _ _ _). apply occurs_W_formatNumber. }
  cbv zeta. destruct (n <? 0)%Z; [|exact H]. cbn [occurs]. now rewrite H.
Qed.

Lemma includes_WHERE_showNumber (n : Z) : includes "WHERE" (showNumber n) = false.
Proof.
  destruct (includes "WHERE" (showNumber n)) eqn:H; [|reflexivity].
  apply includes_occurs in H. now rewrite occurs_W_showNumber in H.
Qed.

Lemma includes_WHERE_clause (x y : string) :
  clauseLike y ->
  includes "WHERE" (x +:+ y) = includes "WHERE" x || includes "WHERE" y.
Proof.
  intros [-> | [y' ->]].
  - now rewrite sapp_nil_r, orb_false_r.
  - apply includes_app_cut_l; [reflexivity | discriminate].
Qed.

Lemma includes_WHERE_keyword (kw rest : string) :
  includes "WHERE" ((kw +:+ " ") +:+ rest) =
  includes "WHERE" (kw +:+ " ") || includes "WHERE" rest.
Proof. apply includes_app_cut_r; [reflexivity | discriminate]. Qed.

Lemma includes_WHERE_select (q : QueryBuilder) :
  includes "WHERE" (selectClause q) = existsb (includes "WHERE") (selectedFields q).
Proof.
  unfold selectClause.
  change "SELECT " with ("SELECT" +:+ " ").
  rewrite includes_WHERE_keyword.
  destruct (selectedFields q) as [|f fs] eqn:E; [reflexivity|].
  now rewrite includes_WHERE_join.
Qed.

Lemma includes_WHERE_from (q : QueryBuilder) :
  includes "WHERE" (fromClause q) = objectMentions "WHERE" q.
Proof.
  unfold fromClause, objectMentions. destruct (selectedObject q) as [o|]; [|reflexivity].
  destruct (String.eqb_spec o "") as [->|_]; [reflexivity|].
  change " FROM " with (" FROM" +:+ " ").
  now rewrite includes_WHERE_keyword.
Qed.

Lemma includes_WHERE_orderBy (q : QueryBuilder) :
  includes "WHERE" (orderByClause q) = existsb (sortKeyMentions "WHERE") (orderBy q).
Proof.
  unfold orderByClause. destruct (orderBy q) as [|o os]; [reflexivity|].
  change " ORDER BY " with (" ORDER BY" +:+ " ").
  rewrite includes_WHERE_keyword, includes_WHERE_join.
  generalize (o :: os). intros l. simpl.
  induction l as [|k l IH]; [reflexivity|]. simpl. rewrite IH. f_equal.
  unfold sortKeyMentions.
  apply includes_app_cut_l; [reflexivity | discriminate].
Qed.

Lemma includes_WHERE_limit (q : QueryBuilder) :
  includes "WHERE" (limitClause q) = false.
Proof.
  unfold limitClause. destruct (limit q) as [n|]; [|reflexivity].
  destruct (n =? 0)%Z; [reflexivity|].
  change " LIMIT " with (" LIMIT" +:+ " ").
  now rewrite includes_WHERE_keyword, includes_WHERE_showNumber.
Qed.

Lemma clauseLike_from (q : QueryBuilder) : clauseLike (fromClause q).
Proof.
  unfold fromClause. destruct (selectedObject q) as [o|]; [|now left].
  destruct (String.eqb o ""); [now left | right; eexists; reflexivity].
Qed.

Lemma clauseLike_orderBy (q : QueryBuilder) : clauseLike (orderByClause q).
Proof.
  unfold orderByClause. destruct (orderBy q); [now left | right; eexists; reflexivity].
Qed.

Lemma clauseLike_limit (q : QueryBuilder) : clauseLike (limitClause q).
Proof.
  unfold limitClause. destruct (limit q) as [n|]; [|now left].
  destruct (n =? 0)%Z; [now left | right; eexists; reflexivity].
Qed.

Lemma clauseLike_app (a b : string) :
  clauseLike a -> clauseLike b -> clauseLike (a +:+ b).
Proof.
  intros [-> | [a' ->]] Hb; [exact Hb | right; eexists; reflexivity].
Qed.

(** C3 (as the code has it). Without conditions [buildQuery] returns the
    SELECT, FROM, ORDER BY and LIMIT clauses and no WHERE clause; the text
    WHERE occurs in the result exactly when it occurs in a selected field
    name, in the object name or in a sort key. *)
Theorem buildQuery_no_conditions (q : QueryBuilder) :
  conditions q = [] ->
  exists s,
    buildQuery q = Normal s /\
    s = selectClause q +:+ fromClause q +:+ orderByClause q +:+ limitClause q /\
    includes "WHERE" s =
      existsb (includes "WHERE") (selectedFields q)
      || objectMentions "WHERE" q
      || existsb (sortKeyMentions "WHERE") (orderBy q).
Proof.
  intros Hc.
  exists (selectClause q +:+ fromClause q +:+ orderByClause q +:+ limitClause q).
  split; [|split; [reflexivity|]].
  - rewrite buildQuery_unfold. unfold whereClause. rewrite Hc.
    cbv [cmap cbind]. now rewrite sapp_nil_r, !sapp_assoc.
  - rewrite !includes_WHERE_clause
      by auto using clauseLike_from, clauseLike_orderBy, clauseLike_limit, clauseLike_app.
    rewrite includes_WHERE_select, includes_WHERE_from, includes_WHERE_orderBy,
      includes_WHERE_limit.
    now rewrite orb_false_r, orb_assoc.
Qed.

Lemma buildQuery_no_conditions_witness :
  exists s,
    buildQuery {| selectedObject := Some "Account"; selectedFields := ["Name"];
                  conditions := [];
                  orderBy := [{| sortField := "Name"; direction := "ASC" |}];
                  limit := Some 10%Z; groupOperator := "AND" |} = Normal s /\
    includes "WHERE" s = false.
Proof.
  destruct (buildQuery_no_conditions
              {| selectedObject := Some "Account"; selectedFields := ["Name"];
                 conditions := [];
                 orderBy := [{| sortField := "Name"; direction := "ASC" |}];
                 limit := Some 10%Z; groupOperator := "AND" |} eq_refl)
    as [s [Hs [_ Hw]]].
  exists s. split; [exact Hs | exact Hw].
Defined.

(** C3 as stated fails: a custom field whose name contains WHERE puts the
    text in a query that has no conditions. *)
Lemma buildQuery_no_conditions_counterexample :
  let q := {| selectedObject := Some "Account"; selectedFields := ["WHEREABOUTS__c"];
              conditions := []; orderBy := []; limit := None;
              groupOperator := "AND" |} in
  conditions q = [] /\
  buildQuery q = Normal "SELECT WHEREABOUTS__c FROM Account" /\
  includes "WHERE" "SELECT WHEREABOUTS__c FROM Account" = true.
Proof. repeat split. Qed.

(** ** buildQuery: the WHERE clause *)

Lemma getOwn_setOwn {V} (o : jsobject V) (k k' : string) (v : V) :
  getOwn (setOwn o k v) k' = if String.eqb k k' then Some v else getOwn o k'.
Proof.
  induction o as [|[j w] o IH]; simpl.
  - reflexivity.
  - destruct (String.eqb_spec j k) as [->|Hjk]; simpl.
    + destruct (String.eqb k k'); reflexivity.
    + rewrite IH. destruct (String.eqb_spec j k') as [->|Hjk'].
      * destruct (String.eqb_spec k k'); [congruence | reflexivity].
      * reflexivity.
Qed.

Lemma getOwn_None_keys {V} (o : jsobject V) (k : string) :
  getOwn o k = None <-> ~ In k (map fst o).
Proof.
  induction o as [|[j w] o IH]; simpl; [tauto|].
  destruct (String.eqb_spec j k) as [->|Hjk].
  - split; [discriminate | tauto].
  - rewrite IH. tauto.
Qed.

Lemma getOwn_In {V} (o : jsobject V) (k : string) (v : V) :
  List.NoDup (map fst o) -> (getOwn o k = Some v <-> In (k, v) o).
Proof.
  induction o as [|[j w] o IH]; simpl; intros Hnd.
  - split; [discriminate | tauto].
  - inversion Hnd as [|? ? Hj Hnd']; subst.
    destruct (String.eqb_spec j k) as [->|Hjk].
    + split.
      * intros [= ->]. now left.
      * intros [[= ->] | Hin]; [reflexivity|].
        exfalso. apply Hj. apply (in_map fst) in Hin. exact Hin.
    + rewrite (IH Hnd'). split; [tauto|]. intros [[= -> ->] | Hin]; [congruence | exact Hin].
Qed.

Lemma setOwn_keys {V} (o : jsobject V) (k : string) (v : V) :
  map fst (setOwn o k v) =
  match getOwn o k with Some _ => map fst o | None => map fst o ++ [k] end.
Proof.
  induction o as [|[j w] o IH]; simpl; [reflexivity|].
  destruct (String.eqb_spec j k) as [->|Hjk]; simpl; [reflexivity|].
  rewrite IH. now destruct (getOwn o k).
Qed.

Lemma setOwn_NoDup {V} (o : jsobject V) (k : string) (v : V) :
  List.NoDup (map fst o) -> List.NoDup (map fst (setOwn o k v)).
Proof.
  intros Hnd. rewrite setOwn_keys. destruct (getOwn o k) eqn:E; [exact Hnd|].
  apply getOwn_None_keys in E.
  apply NoDup_rev in Hnd. rewrite <- (rev_involutive (map fst o ++ [k])).
  apply NoDup_rev. rewrite rev_app_distr. simpl. constructor; [|exact Hnd].
  now rewrite <- in_rev.
Qed.

Lemma bucketOf_snoc (k : string) (p : list Condition) (c : Condition) :
  bucketOf k (p ++ [c]) =
  bucketOf k p ++ (if String.eqb (groupKey c) k then [c] else []).
Proof. unfold bucketOf. rewrite List.filter_app. reflexivity. Qed.

Lemma setOwn_setOwn {V} (o : jsobject V) (k : string) (v w : V) :
  setOwn (setOwn o k v) k w = setOwn o k w.
Proof.
  induction o as [|[j x] o IH]; simpl.
  - now rewrite String.eqb_refl.
  - destruct (String.eqb j k) eqn:E; simpl; rewrite E; [reflexivity | now rewrite IH].
Qed.

(** The step on a key that is not inherited: the bucket of the key, created
    if need be, receives the condition. *)
Lemma addToGroup_plain (acc : jsobject (list Condition)) (c : Condition) :
  inherited (groupKey c) = false ->
  addToGroup acc c =
  Normal (setOwn acc (groupKey c)
            (match getOwn acc (groupKey c) with
             | Some bucket => bucket ++ [c]
             | None => [c]
             end)).
Proof.
  intros Hinh. unfold addToGroup, getProperty.
  cbv zeta. destruct (getOwn acc (groupKey c)) as [bucket|] eqn:E.
  - cbv iota. now rewrite E.
  - rewrite Hinh. cbv iota.
    now rewrite getOwn_setOwn, String.eqb_refl, setOwn_setOwn.
Qed.

(** The step on an inherited key that is no own property. *)
Lemma addToGroup_inherited (acc : jsobject (list Condition)) (c : Condition) :
  inherited (groupKey c) = true -> getOwn acc (groupKey c) = None ->
  addToGroup acc c = Throw TypeError.
Proof.
  intros Hinh E. unfold addToGroup, getProperty. cbv zeta.
  rewrite E, Hinh. cbv iota. now rewrite E.
Qed.

Lemma addToGroup_holds (p : list Condition) (acc : jsobject (list Condition))
      (c : Condition) :
  holds p acc -> inherited (groupKey c) = false ->
  exists acc', addToGroup acc c = Normal acc' /\ holds (p ++ [c]) acc'.
Proof.
  intros [Hnd Hget] Hinh. rewrite (addToGroup_plain acc c Hinh).
  eexists; split; [reflexivity|]. split; [now apply setOwn_NoDup|].
  intros k. rewrite getOwn_setOwn, bucketOf_snoc.
  destruct (String.eqb_spec (groupKey c) k) as [<-|Hk].
  - rewrite Hget. now destruct (bucketOf (groupKey c) p).
  - rewrite Hget, app_nil_r. reflexivity.
Qed.

Lemma reduceGroups_holds (cs p : list Condition) (acc : jsobject (list Condition)) :
  holds p acc ->
  Forall (fun c => inherited (groupKey c) = false) cs ->
  exists g, reduceGroups acc cs = Normal g /\ holds (p ++ cs) g.
Proof.
  revert p acc; induction cs as [|c cs IH]; intros p acc Hh Hall; simpl.
  - exists acc. now rewrite app_nil_r.
  - inversion Hall as [|? ? Hc Hcs]; subst.
    destruct (addToGroup_holds p acc c Hh Hc) as [acc' [-> Hh']]. simpl.
    destruct (IH _ _ Hh' Hcs) as [g [Hg Hhg]].
    exists g. split; [exact Hg|]. now rewrite <- app_assoc in Hhg.
Qed.

Lemma holds_nil : holds [] [].
Proof. split; [constructor | reflexivity]. Qed.

Lemma insertByIndex_perm {V} (n : N) (kv : string * V) (l : list (N * (string * V))) :
  Permutation (insertByIndex n kv l) ((n, kv) :: l).
Proof.
  induction l as [|[m kv'] l IH]; simpl; [reflexivity|].
  destruct (n <=? m)%N; [reflexivity|].
  rewrite IH. apply perm_swap.
Qed.

(** [Object.entries] lists every own property once. *)
Lemma entries_perm {V} (o : jsobject V) : Permutation (entries o) o.
Proof.
  unfold entries. induction o as [|kv o IH]; simpl; [reflexivity|].
  unfold isNamed at 1. destruct (arrayIndex (fst kv)) as [n|].
  - rewrite insertByIndex_perm. simpl. now rewrite IH.
  - rewrite <- Permutation_middle. now rewrite IH.
Qed.

Lemma concat_empty_cons (x : string) (xs : list string) :
  String.concat "" (x :: xs) = x +:+ String.concat "" xs.
Proof. destruct xs; simpl; [now rewrite sapp_nil_r | reflexivity]. Qed.

Lemma tokensText_app (op : string) (a b : list token) :
  tokensText op (a ++ b) = tokensText op a +:+ tokensText op b.
Proof.
  unfold tokensText. induction a as [|t a IH]; [reflexivity|].
  change (map (tokenText op) ((t :: a) ++ b))
    with (tokenText op t :: map (tokenText op) (a ++ b)).
  change (map (tokenText op) (t :: a)) with (tokenText op t :: map (tokenText op) a).
  now rewrite !concat_empty_cons, IH, sapp_assoc.
Qed.

Lemma tokensText_cons (op : string) (t : token) (ts : list token) :
  tokensText op (t :: ts) = tokenText op t +:+ tokensText op ts.
Proof. apply concat_empty_cons. Qed.

(** Reading the tokens back gives the text [join] builds. *)
Lemma tokensText_joinTokens (op : string) (parts : list (list token)) :
  tokensText op (joinTokens parts) = join (glue op) (map (tokensText op) parts).
Proof.
  induction parts as [|p rest IH]; [reflexivity|].
  destruct rest as [|p' rest]; [reflexivity|].
  change (joinTokens (p :: p' :: rest)) with (p ++ Operator :: joinTokens (p' :: rest)).
  rewrite tokensText_app, tokensText_cons, IH. reflexivity.
Qed.

Lemma tokensText_groupTokens (op : string) (conds : list Condition) :
  tokensText op (groupTokens conds) = groupString op conds.
Proof.
  unfold groupTokens, groupString.
  assert (H : tokensText op (joinTokens (map (fun c => [Lit (conditionString c)]) conds))
              = join (glue op) (map conditionString conds)).
  { rewrite tokensText_joinTokens, map_map. reflexivity. }
  destruct (1 <? List.length conds)%nat.
  - rewrite tokensText_cons, tokensText_app, H. reflexivity.
  - exact H.
Qed.

Lemma tokensText_whereTokens (op : string) (groups : list (string * list Condition)) :
  tokensText op (whereTokens (map snd groups)) =
  join (glue op) (map (fun e => groupString op (snd e)) groups).
Proof.
  unfold whereTokens. rewrite tokensText_joinTokens, !map_map.
  f_equal. apply map_ext. intros e. apply tokensText_groupTokens.
Qed.

Lemma operators_app (a b : list token) :
  operators (a ++ b) = operators a + operators b.
Proof.
  induction a as [|[s|] a IH]; simpl; [reflexivity | exact IH | now rewrite IH].
Qed.

(** [join] puts one operator between each two neighbours. *)
Lemma operators_joinTokens (parts : list (list token)) :
  operators (joinTokens parts) = (List.length parts - 1) + sumOver operators parts.
Proof.
  induction parts as [|p rest IH]; [reflexivity|].
  destruct rest as [|p' rest]; [simpl; lia|].
  change (joinTokens (p :: p' :: rest)) with (p ++ Operator :: joinTokens (p' :: rest)).
  rewrite operators_app.
  change (operators (Operator :: joinTokens (p' :: rest)))
    with (S (operators (joinTokens (p' :: rest)))).
  rewrite IH. cbn [List.length sumOver fold_right]. lia.
Qed.

Lemma operators_groupTokens (conds : list Condition) :
  operators (groupTokens conds) = List.length conds - 1.
Proof.
  unfold groupTokens.
  assert (H : operators (joinTokens (map (fun c => [Lit (conditionString c)]) conds))
              = List.length conds - 1).
  { rewrite operators_joinTokens, length_map.
    assert (Hz : forall l : list Condition,
               sumOver operators (map (fun c => [Lit (conditionString c)]) l) = 0)
      by (induction l; simpl; auto).
    rewrite Hz. lia. }
  destruct (1 <? List.length conds)%nat; [|exact H].
  simpl. rewrite operators_app, H. simpl. lia.
Qed.

Lemma operators_whereTokens (groups : list (string * list Condition)) :
  operators (whereTokens (map snd groups)) =
  (List.length groups - 1) + sumOver (fun g => List.length (snd g) - 1) groups.
Proof.
  unfold whereTokens. rewrite operators_joinTokens, !length_map. f_equal.
  induction groups as [|g groups IH]; [reflexivity|].
  simpl. now rewrite IH, operators_groupTokens.
Qed.

(** The groups of a builder whose group keys are not names inherited from
    [Object.prototype]: one group per key in use, holding the conditions of
    that key in stored order; the WHERE clause is their token text, and the
    operators in it number (groups - 1) plus, per group, (conditions - 1). *)
Lemma buildQuery_where_structure (q : QueryBuilder) :
  conditions q <> [] ->
  Forall (fun c => inherited (groupKey c) = false) (conditions q) ->
  exists groups : list (string * list Condition),
    List.NoDup (map fst groups) /\
    (forall k b, In (k, b) groups <-> b <> [] /\ b = bucketOf k (conditions q)) /\
    buildQuery q =
      Normal (selectClause q +:+ fromClause q +:+ " WHERE "
              +:+ tokensText (groupOperator q) (whereTokens (map snd groups))
              +:+ orderByClause q +:+ limitClause q) /\
    operators (whereTokens (map snd groups)) =
      (List.length groups - 1) + sumOver (fun g => List.length (snd g) - 1) groups.
Proof.
  intros Hne Hall.
  destruct (reduceGroups_holds (conditions q) [] [] holds_nil Hall) as [g [Hg [Hnd Hget]]].
  simpl in Hget.
  exists (entries g). split; [|split; [|split]].
  - eapply Permutation_NoDup; [|exact Hnd].
    apply Permutation_map. symmetry. apply entries_perm.
  - intros k b. rewrite (Permutation_in' (eq_refl (k, b)) (entries_perm g)).
    rewrite <- (getOwn_In g k b Hnd), Hget.
    destruct (bucketOf k (conditions q)) as [|x l] eqn:E.
    + split; [discriminate | intros [H ->]; congruence].
    + split; [intros [= <-]; split; [discriminate | reflexivity] | intros [_ ->]; reflexivity].
  - rewrite buildQuery_unfold. unfold whereClause.
    destruct (conditions q) as [|c cs] eqn:E; [congruence|].
    rewrite Hg. cbv [cmap cbind].
    rewrite tokensText_whereTokens. now rewrite !sapp_assoc.
  - apply operators_whereTokens.
Qed.

(** A group whose id is an array index is listed before the groups created
    earlier under other names. *)
Example buildQuery_twoGroups :
  buildQuery twoGroups =
    Normal ("SELECT Id, Name FROM Account WHERE Employees > 10 OR "
            +:+ "(Name LIKE 'A%' OR Active = true) ORDER BY Name ASC LIMIT 5").
Proof. reflexivity. Qed.

Lemma getOwn_Some_keys {V} (o : jsobject V) (k : string) (v : V) :
  getOwn o k = Some v -> In k (map fst o).
Proof.
  intros H. destruct (in_dec String.string_dec k (map fst o)) as [Hin|Hout]; [exact Hin|].
  apply getOwn_None_keys in Hout. congruence.
Qed.

Lemma reduceGroups_inherited (cs : list Condition) :
  forall acc : jsobject (list Condition),
    Forall (fun k => inherited k = false) (map fst acc) ->
    Exists (fun c => inherited (groupKey c) = true) cs ->
    reduceGroups acc cs = Throw TypeError.
Proof.
  induction cs as [|c cs IH]; intros acc Hkeys Hex; [inversion Hex|].
  simpl. destruct (inherited (groupKey c)) eqn:Hc.
  - rewrite addToGroup_inherited; [reflexivity | exact Hc |].
    destruct (getOwn acc (groupKey c)) as [bucket|] eqn:E; [|reflexivity].
    apply getOwn_Some_keys in E.
    rewrite (proj1 (List.Forall_forall _ _) Hkeys _ E) in Hc. discriminate.
  - assert (Htail : Exists (fun c => inherited (groupKey c) = true) cs)
      by (inversion Hex; subst; [congruence | assumption]).
    rewrite (addToGroup_plain acc c Hc). simpl. apply IH; [|exact Htail].
    rewrite setOwn_keys. destruct (getOwn acc (groupKey c)); [exact Hkeys|].
    apply Forall_app. split; [exact Hkeys|]. constructor; [exact Hc | constructor].
Qed.

(** Whenever some condition carries a group key inherited from
    [Object.prototype], [buildQuery] raises instead of returning. *)
Lemma buildQuery_inherited_throws (q : QueryBuilder) :
  Exists (fun c => inherited (groupKey c) = true) (conditions q) ->
  buildQuery q = Throw TypeError.
Proof.
  intros Hex. rewrite buildQuery_unfold. unfold whereClause.
  destruct (conditions q) as [|c cs] eqn:E; [inversion Hex|].
  assert (Hnone : Forall (fun k => inherited k = false)
                         (map fst (@nil (string * list Condition)))) by constructor.
  now rewrite (reduceGroups_inherited (c :: cs) [] Hnone Hex).
Qed.

(** C1 (failing input). A condition whose group id is the name of a
    property every object inherits, such as constructor, makes the
    grouping step read that inherited value instead of creating a group,
    and [buildQuery] raises a TypeError instead of returning a query; the
    same condition without a group id is rendered as a one-condition
    group. *)
Theorem buildQuery_inherited_group_key :
  buildQuery (groupedBy (Some "constructor")) = Throw TypeError /\
  buildQuery (groupedBy None) =
    Normal "SELECT Name FROM Contact WHERE Email = 'a@b.com'".
Proof. split; reflexivity. Qed.

(** ** The matcher *)

Lemma fails_not_succeeds {A} (P : Prop) : succeeds (@None A) -> P.
Proof. intros [a Ha]. discriminate. Qed.

Lemma greedyStar_mono {R R'} ic cs s (k : string -> option R) (k' : string -> option R') :
  (forall s', succeeds (k s') -> succeeds (k' s')) ->
  succeeds (greedyStar ic cs s k) -> succeeds (greedyStar ic cs s k').
Proof.
  intros Hk. induction s as [|c s IH]; simpl; [apply Hk|].
  destruct (matches ic cs c); [|apply Hk].
  destruct (greedyStar ic cs s k) as [x|] eqn:E.
  - intros _. destruct IH as [y ->]; [now exists x | now exists y].
  - intros H. destruct (greedyStar ic cs s k'); [now eexists | now apply Hk].
Qed.

Lemma lazyStar_mono {R R'} ic cs s (k : string -> option R) (k' : string -> option R') :
  (forall s', succeeds (k s') -> succeeds (k' s')) ->
  succeeds (lazyStar ic cs s k) -> succeeds (lazyStar ic cs s k').
Proof.
  intros Hk. induction s as [|c s IH]; simpl.
  - destruct (k "") as [x|] eqn:E.
    + intros _. destruct (Hk "") as [y ->]; [rewrite E; now exists x | now exists y].
    + intros [a Ha]. discriminate.
  - destruct (k (String c s)) as [x|] eqn:E.
    + intros _. destruct (Hk (String c s)) as [y ->]; [rewrite E; now exists x | now exists y].
    + intros H. destruct (k' (String c s)); [now eexists|].
      destruct (matches ic cs c); [now apply IH | exact (fails_not_succeeds _ H)].
Qed.

(** A match still succeeds when the continuation accepts more. *)
Lemma matchFrom_mono {R R'} ic r :
  forall s cap (k : string -> option string -> option R)
         (k' : string -> option string -> option R'),
  (forall s' c', succeeds (k s' c') -> succeeds (k' s' c')) ->
  succeeds (matchFrom ic r s cap k) -> succeeds (matchFrom ic r s cap k').
Proof.
  induction r as [| |cs|cs|cs|cs|r1 IH1 r2 IH2|r1 IH1 r2 IH2|r1 IH1];
    intros s cap k k' Hk; simpl.
  - apply Hk.
  - destruct s; [apply Hk | apply fails_not_succeeds].
  - destruct s as [|c s]; [apply fails_not_succeeds|].
    destruct (matches ic cs c); [apply Hk | apply fails_not_succeeds].
  - apply greedyStar_mono. intros s'. apply Hk.
  - destruct s as [|c s]; [apply fails_not_succeeds|].
    destruct (matches ic cs c); [|apply fails_not_succeeds].
    apply greedyStar_mono. intros s'. apply Hk.
  - apply lazyStar_mono. intros s'. apply Hk.
  - apply IH1. intros s' c'. apply IH2, Hk.
  - destruct (matchFrom ic r1 s cap k) as [x|] eqn:E.
    + intros _. destruct (IH1 s cap k k' Hk) as [y ->]; [rewrite E; now exists x|].
      now exists y.
    + intros H. destruct (matchFrom ic r1 s cap k'); [now eexists|].
      now apply (IH2 s cap k k' Hk).
  - apply IH1. intros s' c'. apply Hk.
Qed.

Lemma matchAt_Seq ic r1 r2 s m :
  matchAt ic (Seq r1 r2) s = Some m -> exists m', matchAt ic r1 s = Some m'.
Proof.
  unfold matchAt. intros H.
  assert (Hs : succeeds (matchFrom ic r1 s None accept)).
  { apply (matchFrom_mono ic r1 s None
             (fun s' cap' => matchFrom ic r2 s' cap' accept) accept).
    - intros s' c' _. now eexists.
    - simpl in H. destruct (matchFrom ic r1 s None _) as [x|]; [now exists x | discriminate]. }
  destruct Hs as [[rest cap] ->]. now eexists.
Qed.

(** Where a sequence is found, its first part is found. *)
Lemma test_Seq ic r1 r2 s : test ic (Seq r1 r2) s = true -> test ic r1 s = true.
Proof.
  unfold test. induction s as [|c s IH]; simpl.
  - destruct (matchAt ic (Seq r1 r2) "") as [m|] eqn:E; [|discriminate].
    destruct (matchAt_Seq _ _ _ _ _ E) as [m' ->]. reflexivity.
  - destruct (matchAt ic (Seq r1 r2) (String c s)) as [m|] eqn:E.
    + destruct (matchAt_Seq _ _ _ _ _ E) as [m' ->]. reflexivity.
    + intros H. destruct (matchAt ic r1 (String c s)); [reflexivity | exact (IH H)].
Qed.

(** ** analyzeQuery *)

Lemma fold_left_noteUnindexed fields usedFields suggestions :
  fold_left (noteUnindexed fields) usedFields suggestions =
  suggestions ++ unindexedFields fields usedFields.
Proof.
  revert suggestions; induction usedFields as [|f l IH]; intros acc; simpl.
  - now rewrite app_nil_r.
  - rewrite IH. unfold noteUnindexed, push.
    destruct (findField fields f) as [fi|]; [|reflexivity].
    destruct (FieldInfo.indexed fi); simpl; [reflexivity | now rewrite <- app_assoc].
Qed.

Lemma analyzeQuery_concat query objectMetadata fieldMetadata :
  analyzeQuery query objectMetadata fieldMetadata =
  selectStarCheck query ++ missingFilterCheck query
  ++ unindexedCheck query fieldMetadata ++ orderByCheck query.
Proof.
  unfold analyzeQuery, selectStarCheck, missingFilterCheck, unindexedCheck,
    orderByCheck, push.
  destruct (test true reSelectStar query);
    destruct (negb (test true (lit "WHERE") query) && negb (test true (lit "LIMIT") query));
    destruct (search true reWhereClause query) as [m|];
    destruct fieldMetadata as [fields|];
    destruct (test true (lit "ORDER BY") query && negb (test true (lit "LIMIT") query));
    rewrite ?fold_left_noteUnindexed; simpl; rewrite ?app_nil_r, <- ?app_assoc;
    reflexivity.
Qed.

(** The missing-filter check and the unindexed-field check exclude each
    other: the second needs a WHERE the first must not see. *)
Lemma missingFilter_excludes_unindexed query fieldMetadata :
  missingFilterCheck query = [] \/ unindexedCheck query fieldMetadata = [].
Proof.
  unfold missingFilterCheck, unindexedCheck.
  destruct (search true reWhereClause query) as [m|] eqn:E; [|now right].
  left. assert (H : test true (lit "WHERE") query = true).
  { apply (test_Seq true (lit "WHERE")
             (Seq spaces
                (Seq (Group (LazyStar Dot))
                   (Alt (Seq spaces (lit "ORDER BY"))
                      (Alt (Seq spaces (lit "LIMIT")) End))))).
    unfold test. fold reWhereClause. now rewrite E. }
  now rewrite H.
Qed.

(** C5 (as the code has it). [analyzeQuery] returns, in this order, what
    its four checks give: SELECT * (any case), neither WHERE nor LIMIT, one
    info suggestion per field reference of the WHERE clause that the field
    metadata lists as not indexed, ORDER BY without LIMIT.  No check stops
    another, but the second and the third never fire together; the first,
    second and fourth can, and so can the first, third and fourth.  For
    SELECT * FROM Account the result is the SELECT * warning followed by the
    too-many-records warning, so exactly one suggestion is about SELECT *. *)
Theorem analyzeQuery_checks :
  (forall query objectMetadata fieldMetadata,
     analyzeQuery query objectMetadata fieldMetadata =
     selectStarCheck query ++ missingFilterCheck query
     ++ unindexedCheck query fieldMetadata ++ orderByCheck query) /\
  (forall query fieldMetadata,
     missingFilterCheck query = [] \/ unindexedCheck query fieldMetadata = []) /\
  (forall objectMetadata fieldMetadata,
     analyzeQuery "SELECT * FROM Account" objectMetadata fieldMetadata =
       [selectStarSuggestion; tooManyRecordsSuggestion] /\
     List.length (List.filter aboutSelectStar
                    (analyzeQuery "SELECT * FROM Account" objectMetadata fieldMetadata)) = 1) /\
  analyzeQuery "SELECT * FROM Account ORDER BY Name" [] None =
    [selectStarSuggestion; tooManyRecordsSuggestion; orderByNoLimitSuggestion] /\
  analyzeQuery "SELECT * FROM Account WHERE Industry = 'Banking' ORDER BY Name" []
               (Some [industryField]) =
    [selectStarSuggestion; notIndexedSuggestion "Industry"; orderByNoLimitSuggestion].
Proof.
  split; [exact analyzeQuery_concat|].
  split; [exact missingFilter_excludes_unindexed|].
  split; [|split; vm_compute; reflexivity].
  intros om fm.
  assert (H : analyzeQuery "SELECT * FROM Account" om fm =
              [selectStarSuggestion; tooManyRecordsSuggestion]).
  { rewrite analyzeQuery_concat. unfold unindexedCheck.
    replace (search true reWhereClause "SELECT * FROM Account")
      with (@None MatchResult) by (vm_compute; reflexivity).
    vm_compute. reflexivity. }
  rewrite H. split; [reflexivity | vm_compute; reflexivity].
Qed.

(** C5 as stated fails: no query makes all four checks fire. *)
Lemma analyzeQuery_checks_counterexample :
  ~ exists query fieldMetadata,
      selectStarCheck query <> [] /\ missingFilterCheck query <> [] /\
      unindexedCheck query fieldMetadata <> [] /\ orderByCheck query <> [].
Proof.
  intros [query [fm [_ [H2 [H3 _]]]]].
  destruct (missingFilter_excludes_unindexed query fm); contradiction.
Qed.

(** ** validateQuery *)

Lemma checkField_other fm errors field :
  Forall notMissingClauses errors -> Forall notMissingClauses (checkField fm errors field).
Proof.
  intros H. unfold checkField, push.
  destruct (String.eqb field "*").
  - apply Forall_app. split; [exact H|]. constructor; [discriminate | constructor].
  - destruct (negb (String.eqb field "Id") && negb (knownField fm field)); [|exact H].
    apply Forall_app. split; [exact H|]. constructor; [discriminate | constructor].
Qed.

Lemma fold_checkField_other fm fields errors :
  Forall notMissingClauses errors ->
  Forall notMissingClauses (fold_left (checkField fm) fields errors).
Proof.
  revert errors; induction fields as [|f l IH]; intros errors H; simpl; [exact H|].
  apply IH, checkField_other, H.
Qed.

Lemma checkObject_other query om errors :
  Forall notMissingClauses errors -> Forall notMissingClauses (checkObject query om errors).
Proof.
  intros H. unfold checkObject, push.
  destruct (search true reFromObject query) as [m|]; [|exact H].
  destruct (find _ om); [exact H|].
  apply Forall_app. split; [exact H|]. constructor; [discriminate | constructor].
Qed.

Lemma checkFields_other query fm errors :
  Forall notMissingClauses errors -> Forall notMissingClauses (checkFields query fm errors).
Proof.
  intros H. unfold checkFields.
  destruct (search true reSelectList query); [|exact H].
  now apply fold_checkField_other.
Qed.

Lemma checkWhere_other query errors :
  Forall notMissingClauses errors -> Forall notMissingClauses (checkWhere query errors).
Proof.
  intros H. unfold checkWhere, push.
  destruct (search true reWhereClause query) as [m|]; [|exact H].
  destruct (negb _); [|exact H].
  apply Forall_app. split; [exact H|]. constructor; [discriminate | constructor].
Qed.

(** C4 (as the code has it). [validateQuery] returns at once, with the
    missing-clauses error as its only element, exactly when the query lacks
    SELECT or lacks FROM (one missing token is enough); the test is a
    case-sensitive substring test, so a lower-case query is refused.  When
    both tokens are present that error is not in the result. *)
Theorem validateQuery_missing_clauses (query : string)
        (objectMetadata : list ObjectInfo.t) (fieldMetadata : option (list FieldInfo.t)) :
  (includes "SELECT" query = false \/ includes "FROM" query = false ->
     validateQuery query objectMetadata fieldMetadata = [missingClausesError]) /\
  (includes "SELECT" query = true /\ includes "FROM" query = true ->
     ~ In missingClausesError (validateQuery query objectMetadata fieldMetadata)) /\
  validateQuery "select Id from Account" objectMetadata fieldMetadata =
    [missingClausesError].
Proof.
  split; [|split; [|reflexivity]].
  - intros H. unfold validateQuery.
    destruct H as [-> | ->]; simpl; [reflexivity | now rewrite orb_true_r].
  - intros [Hs Hf] Hin. unfold validateQuery in Hin. rewrite Hs, Hf in Hin.
    cbn [negb orb] in Hin.
    assert (H : Forall notMissingClauses
                  (checkWhere query
                     (checkFields query fieldMetadata
                        (checkObject query objectMetadata []))))
      by (apply checkWhere_other, checkFields_other, checkObject_other; constructor).
    exact (proj1 (List.Forall_forall _ _) H _ Hin eq_refl).
Qed.

Lemma validateQuery_missing_clauses_witness :
  validateQuery "SELECT Id" [] None = [missingClausesError] /\
  ~ In missingClausesError (validateQuery "SELECT Id FROM Account" [] None).
Proof.
  split.
  - apply (proj1 (validateQuery_missing_clauses "SELECT Id" [] None)).
    right. reflexivity.
  - apply (proj1 (proj2 (validateQuery_missing_clauses "SELECT Id FROM Account" [] None))).
    split; reflexivity.
Defined.

(** C4 as stated fails: a query that has SELECT and lacks only FROM is
    refused with the missing-clauses error all the same. *)
Lemma validateQuery_missing_clauses_counterexample :
  includes "SELECT" "SELECT Id" = true /\
  includes "FROM" "SELECT Id" = false /\
  validateQuery "SELECT Id" [] None = [missingClausesError].
Proof. repeat split. Qed.

Example validateQuery_unbalanced :
  validateQuery "SELECT Id FROM Account WHERE (A = 1" [accountObject] None =
    [parenthesesError].
Proof. vm_compute. reflexivity. Qed.

Lemma find_object_none (objs : list ObjectInfo.t) (objectName : string) :
  (forall o, In o objs -> ObjectInfo.name o <> objectName) ->
  find (fun obj => String.eqb (ObjectInfo.name obj) objectName) objs = None.
Proof.
  induction objs as [|o objs IH]; intros H; simpl; [reflexivity|].
  destruct (String.eqb_spec (ObjectInfo.name o) objectName) as [E|_].
  - exfalso. apply (H o); [now left | exact E].
  - apply IH. intros o' Ho'. apply H. now right.
Qed.

(** C6. For SELECT Foo FROM Unknown, with no object named Unknown in the
    object metadata and an empty field metadata list, [validateQuery]
    returns two errors: the unknown object, then the unknown field. *)
Theorem validateQuery_unknown_object_and_field (objs : list ObjectInfo.t) :
  (forall o, In o objs -> ObjectInfo.name o <> "Unknown") ->
  validateQuery "SELECT Foo FROM Unknown" objs (Some []) =
    [objectNotFound "Unknown"; fieldNotFound "Foo"].
Proof.
  intros H. unfold validateQuery, checkObject, checkFields, checkWhere.
  replace (search true reFromObject "SELECT Foo FROM Unknown")
    with (Some {| matched := "FROM Unknown"; capture := Some "Unknown"; after := "" |})
    by (vm_compute; reflexivity).
  replace (search true reSelectList "SELECT Foo FROM Unknown")
    with (Some {| matched := "SELECT Foo FROM"; capture := Some "Foo"; after := " Unknown" |})
    by (vm_compute; reflexivity).
  replace (search true reWhereClause "SELECT Foo FROM Unknown")
    with (@None MatchResult) by (vm_compute; reflexivity).
  cbv beta zeta iota delta [group1 capture].
  rewrite (find_object_none objs "Unknown" H).
  vm_compute. reflexivity.
Qed.

Lemma validateQuery_unknown_object_and_field_witness :
  validateQuery "SELECT Foo FROM Unknown"
    [{| ObjectInfo.name := "Account"; ObjectInfo.label := "Account" |}] (Some []) =
    [objectNotFound "Unknown"; fieldNotFound "Foo"].
Proof.
  apply validateQuery_unknown_object_and_field.
  intros o [<- | []]. simpl. discriminate.
Defined.

(** ** UndoManager *)

Section UndoManagerFacts.
Variable State : Type.
Variable clone : State -> State.

Abbreviation t := (UndoManager.t State).
Abbreviation pushState := (UndoManager.pushState State clone).
Abbreviation appended := (UndoManager.appended State clone).
Abbreviation invariant := (UndoManager.invariant State).
Abbreviation step := (UndoManager.step State clone).
Abbreviation run := (UndoManager.run State clone).
Abbreviation create := (UndoManager.create State).
Abbreviation at_ := (UndoManager.at_ State).
Abbreviation size := (UndoManager.size State).
Abbreviation history := (UndoManager.history State).
Abbreviation currentIndex := (UndoManager.currentIndex State).
Abbreviation maxHistory := (UndoManager.maxHistory State).

(** Under the invariant the truncation keeps the states up to the current
    one, whichever branch is taken. *)
Lemma truncated_appended (state : State) (u : t) :
  invariant u ->
  push (if (currentIndex u <? size (history u) - 1)%Z
        then UndoManager.slice0 State (currentIndex u + 1) (history u)
        else history u) (clone state) = appended state u.
Proof.
  intros [Hi Hl]. unfold UndoManager.appended, push, UndoManager.size in *. f_equal.
  destruct (Z.ltb_spec (currentIndex u) (Z.of_nat (List.length (history u)) - 1)).
  - unfold UndoManager.slice0. destruct (Z.ltb_spec (currentIndex u + 1) 0); [lia | reflexivity].
  - symmetry. apply firstn_all2. lia.
Qed.

Lemma length_appended (state : State) (u : t) :
  invariant u -> Z.of_nat (List.length (appended state u)) = (currentIndex u + 2)%Z.
Proof.
  intros [Hi Hl]. unfold UndoManager.appended, UndoManager.size in *.
  rewrite length_app, firstn_length_le by lia. simpl. lia.
Qed.

Lemma pushState_unfold (state : State) (u : t) :
  invariant u ->
  pushState state u =
  if (Z.of_nat (maxHistory u) <? size (appended state u))%Z
  then {| UndoManager.history := tl (appended state u);
          UndoManager.currentIndex := currentIndex u;
          UndoManager.maxHistory := maxHistory u |}
  else {| UndoManager.history := appended state u;
          UndoManager.currentIndex := (currentIndex u + 1)%Z;
          UndoManager.maxHistory := maxHistory u |}.
Proof.
  intros H. unfold UndoManager.pushState. now rewrite (truncated_appended state u H).
Qed.

Lemma at_last (l : list State) (x : State) :
  at_ (l ++ [x]) (Z.of_nat (List.length l)) = Some x.
Proof.
  unfold UndoManager.at_. destruct (Z.ltb_spec (Z.of_nat (List.length l)) 0); [lia|].
  rewrite Nat2Z.id, nth_error_app2, Nat.sub_diag by lia. reflexivity.
Qed.

Lemma pushState_invariant (state : State) (u : t) :
  invariant u -> invariant (pushState state u).
Proof.
  intros H. rewrite (pushState_unfold state u H).
  pose proof (length_appended state u H) as Hlen. destruct H as [Hi Hl].
  unfold UndoManager.invariant, UndoManager.size in *.
  destruct (Z.ltb_spec (Z.of_nat (maxHistory u)) (Z.of_nat (List.length (appended state u))));
    simpl.
  - assert (Ht : List.length (tl (appended state u)) = List.length (appended state u) - 1)
      by (destruct (appended state u); simpl; lia).
    rewrite Ht. lia.
  - lia.
Qed.

Lemma step_invariant (u : t) (c : UndoManager.call State) :
  invariant u -> invariant (step u c).
Proof.
  intros H. destruct c as [state| | |]; simpl.
  - now apply pushState_invariant.
  - unfold UndoManager.undo, UndoManager.canUndo.
    destruct (Z.ltb_spec 0 (currentIndex u)); simpl; [|exact H].
    destruct H as [Hi Hl]. split; simpl; [lia | exact Hl].
  - unfold UndoManager.redo, UndoManager.canRedo.
    destruct (Z.ltb_spec (currentIndex u) (size (history u) - 1)); simpl; [|exact H].
    destruct H as [Hi Hl]. split; simpl; [lia | exact Hl].
  - split; simpl; [unfold UndoManager.size; simpl; lia | lia].
Qed.

Lemma step_maxHistory (u : t) (c : UndoManager.call State) :
  maxHistory (step u c) = maxHistory u.
Proof.
  destruct c as [state| | |]; simpl; try reflexivity.
  - unfold UndoManager.pushState. now destruct (_ <? _)%Z.
  - unfold UndoManager.undo. now destruct (UndoManager.canUndo State u).
  - unfold UndoManager.redo. now destruct (UndoManager.canRedo State u).
Qed.

Lemma run_invariant (calls : list (UndoManager.call State)) (u : t) :
  invariant u -> invariant (run calls u) /\ maxHistory (run calls u) = maxHistory u.
Proof.
  revert u; induction calls as [|c calls IH]; intros u H; simpl; [now split|].
  destruct (IH (step u c) (step_invariant u c H)) as [Hinv Hmax].
  split; [exact Hinv | now rewrite Hmax, step_maxHistory].
Qed.

Lemma create_invariant (n : nat) : invariant (create n).
Proof. split; simpl; [unfold UndoManager.size; simpl; lia | lia]. Qed.

(** C10 (as the code has it). From a new manager, after any calls of
    pushState, undo, redo and clear: currentIndex lies between -1 and
    history.length - 1, and history.length is at most maxHistory.  The
    next pushState keeps the states up to the current one, drops the redo
    tail and appends the copy of the new state; if that fits, currentIndex
    moves up by one and addresses the new state; if it does not fit, the
    oldest state is removed, currentIndex stays, and it addresses the new
    state whenever maxHistory is at least 1. *)
Theorem UndoManager_invariant (n : nat) (calls : list (UndoManager.call State)) :
  let u := run calls (create n) in
  invariant u /\ maxHistory u = n /\
  forall state,
    let u' := pushState state u in
    (List.length (appended state u) <= n ->
       history u' = appended state u /\
       currentIndex u' = (currentIndex u + 1)%Z /\
       at_ (history u') (currentIndex u') = Some (clone state)) /\
    (n < List.length (appended state u) ->
       history u' = tl (appended state u) /\
       currentIndex u' = currentIndex u /\
       (0 < n -> at_ (history u') (currentIndex u') = Some (clone state))).
Proof.
  intros u. destruct (run_invariant calls (create n) (create_invariant n)) as [Hinv Hmax].
  fold u in Hinv, Hmax. simpl in Hmax.
  split; [exact Hinv | split; [exact Hmax|]].
  intros state u'. unfold u'. rewrite (pushState_unfold state u Hinv), Hmax.
  pose proof (length_appended state u Hinv) as Hlen.
  unfold UndoManager.size.
  destruct (Z.ltb_spec (Z.of_nat n) (Z.of_nat (List.length (appended state u))));
    simpl; (split; [intros Hfit | intros Hover]); try lia.
  - split; [reflexivity | split; [reflexivity|]]. intros Hpos.
    destruct Hinv as [Hi Hl]. unfold UndoManager.size in Hi. rewrite Hmax in Hl.
    unfold UndoManager.appended in *.
    assert (Hfull : firstn (Z.to_nat (currentIndex u + 1)) (history u) = history u)
      by (apply firstn_all2; lia).
    rewrite Hfull in *. rewrite length_app in Hlen. simpl in Hlen.
    destruct (history u) as [|x h] eqn:Eh; simpl in *; [lia|].
    replace (currentIndex u) with (Z.of_nat (List.length h)) by lia.
    apply at_last.
  - split; [reflexivity | split; [reflexivity|]].
    unfold UndoManager.appended in *. rewrite length_app in Hlen. simpl in Hlen.
    replace (currentIndex u + 1)%Z
      with (Z.of_nat (List.length (firstn (Z.to_nat (currentIndex u + 1)) (history u))))
      at 2 by lia.
    apply at_last.
Qed.
End UndoManagerFacts.

Lemma UndoManager_invariant_witness :
  UndoManager.history nat (UndoManager.pushState nat id 3 undoneOnce) = [1; 3] /\
  UndoManager.currentIndex nat (UndoManager.pushState nat id 3 undoneOnce) = 1%Z /\
  UndoManager.history nat
    (UndoManager.pushState nat id 4 (UndoManager.pushState nat id 3 undoneOnce)) = [3; 4].
Proof.
  pose proof (UndoManager_invariant nat id 2
                [UndoManager.PushState nat 1; UndoManager.PushState nat 2;
                 UndoManager.Undo nat]) as H.
  pose proof (UndoManager_invariant nat id 2
                [UndoManager.PushState nat 1; UndoManager.PushState nat 2;
                 UndoManager.Undo nat; UndoManager.PushState nat 3]) as H'.
  cbv zeta in H, H'.
  destruct H as [_ [_ H]]. destruct (H 3) as [Hfit _].
  destruct H' as [_ [_ H']]. destruct (H' 4) as [_ Hover].
  split; [|split].
  - exact (proj1 (Hfit ltac:(simpl; lia))).
  - exact (proj1 (proj2 (Hfit ltac:(simpl; lia)))).
  - exact (proj1 (Hover ltac:(simpl; lia))).
Defined.

(** C10 as stated fails for a manager of capacity 0: the state pushed is
    itself the one removed, and currentIndex, still -1, addresses nothing. *)
Lemma UndoManager_invariant_counterexample :
  let u := UndoManager.pushState nat id 7 (UndoManager.create nat 0) in
  UndoManager.maxHistory nat (UndoManager.create nat 0) < List.length (UndoManager.appended nat id 7 (UndoManager.create nat 0)) /\
  UndoManager.history nat u = [] /\
  UndoManager.currentIndex nat u = (-1)%Z /\
  UndoManager.at_ nat (UndoManager.history nat u) (UndoManager.currentIndex nat u) = None.
Proof. repeat split. simpl. lia. Qed.

(** ** The persistence stores *)

Section PersistenceFacts.
Variable JSON_parse : string -> option json.
Variable JSON_stringify : json -> string.

(** [JSON.parse] reads the text null as [null]. *)
Hypothesis parse_null : JSON_parse "null" = Some JNull.

(** [JSON.parse] gives back the history that [JSON.stringify] wrote. *)
Hypothesis parse_stringify_history :
  forall es : list HistoryEntry,
    JSON_parse (JSON_stringify (JArray (map entryJson es))) =
    Some (JArray (map entryJson es)).

(** Neither [getAll] raises, whatever the store holds. *)
Lemma getAll_returns (key : string) (n : nat) (localStorage : gmap string string) :
  (exists v, SavedQueries.getAll JSON_parse {| SavedQueries.storageKey := key |} localStorage = Normal v) /\
  (exists v, QueryHistory.getAll JSON_parse {| QueryHistory.storageKey := key; QueryHistory.maxSize := n |} localStorage = Normal v).
Proof.
  unfold SavedQueries.getAll, QueryHistory.getAll, parseItem, parseJSON. simpl.
  generalize (match localStorage !! key with Some text => text | None => "null" end).
  intros text. destruct (JSON_parse text); simpl; split; eauto.
Qed.

Lemma getAll_stored (h : QueryHistory.t) (localStorage : gmap string string)
      (es : list HistoryEntry) :
  localStorage !! QueryHistory.storageKey h = Some (JSON_stringify (JArray (map entryJson es))) ->
  QueryHistory.getAll JSON_parse h localStorage = Normal (JArray (map entryJson es)).
Proof.
  intros H. unfold QueryHistory.getAll, parseItem, parseJSON.
  now rewrite H, parse_stringify_history.
Qed.

Lemma getAll_absent (h : QueryHistory.t) (localStorage : gmap string string) :
  localStorage !! QueryHistory.storageKey h = None -> QueryHistory.getAll JSON_parse h localStorage = Normal (JArray []).
Proof.
  intros H. unfold QueryHistory.getAll, parseItem, parseJSON.
  now rewrite H, parse_null.
Qed.

Lemma removelast_map {A B} (f : A -> B) (l : list A) :
  removelast (map f l) = map f (removelast l).
Proof.
  induction l as [|a l IH]; [reflexivity|].
  destruct l as [|b l]; [reflexivity|].
  change (removelast (map f (a :: b :: l))) with (f a :: removelast (map f (b :: l))).
  now rewrite IH.
Qed.

Lemma removelast_firstn_len {A} (l : list A) :
  removelast l = firstn (List.length l - 1) l.
Proof.
  induction l as [|a l IH]; [reflexivity|].
  destruct l as [|b l]; [reflexivity|].
  change (removelast (a :: b :: l)) with (a :: removelast (b :: l)).
  rewrite IH. simpl. now rewrite Nat.sub_0_r.
Qed.

(** One [add] on a history within its bound: the new entry goes first and
    the result is cut to [maxSize], which drops the oldest entry when the
    history was full. *)
Lemma add_step (h : QueryHistory.t) (query now : string)
      (localStorage : gmap string string) (es : list HistoryEntry) :
  QueryHistory.getAll JSON_parse h localStorage = Normal (JArray (map entryJson es)) ->
  List.length es <= QueryHistory.maxSize h ->
  exists localStorage',
    QueryHistory.add JSON_parse JSON_stringify h query now localStorage = Normal localStorage' /\
    QueryHistory.getAll JSON_parse h localStorage' =
      Normal (JArray (map entryJson
                (firstn (QueryHistory.maxSize h) ({| query := query; timestamp := now |} :: es)))).
Proof.
  intros Hget Hlen. unfold QueryHistory.add. rewrite Hget. cbv beta iota delta [cbind].
  set (e := {| query := query; timestamp := now |}).
  change (entryJson e :: map entryJson es) with (map entryJson (e :: es)).
  rewrite length_map.
  assert (Hcut : (if (QueryHistory.maxSize h <? List.length (e :: es))%nat
                  then removelast (map entryJson (e :: es))
                  else map entryJson (e :: es))
                 = map entryJson (firstn (QueryHistory.maxSize h) (e :: es))).
  { destruct (Nat.ltb_spec (QueryHistory.maxSize h) (List.length (e :: es))) as [Hlt|Hge].
    - rewrite removelast_map, removelast_firstn_len. do 2 f_equal.
      simpl List.length in *. lia.
    - now rewrite firstn_all2 by exact Hge. }
  rewrite Hcut. eexists. split; [reflexivity|].
  apply getAll_stored. apply lookup_insert_eq.
Qed.

Lemma firstn_cons_firstn {A} (n : nat) (a : A) (l : list A) :
  firstn n (a :: firstn n l) = firstn n (a :: l).
Proof.
  destruct n as [|n]; [reflexivity|]. simpl. f_equal.
  rewrite firstn_firstn. f_equal. lia.
Qed.

Lemma firstn_app_firstn {A} (n : nat) (a b : list A) :
  firstn n (a ++ firstn n b) = firstn n (a ++ b).
Proof.
  rewrite !firstn_app, firstn_firstn. do 2 f_equal. lia.
Qed.

Lemma addAll_from (h : QueryHistory.t) (calls : list (string * string)) :
  forall (localStorage : gmap string string) (es : list HistoryEntry),
    QueryHistory.getAll JSON_parse h localStorage = Normal (JArray (map entryJson es)) ->
    List.length es <= QueryHistory.maxSize h ->
    exists localStorage',
      QueryHistory.addAll JSON_parse JSON_stringify h calls localStorage = Normal localStorage' /\
      QueryHistory.getAll JSON_parse h localStorage' =
        Normal (JArray (map entryJson
                  (firstn (QueryHistory.maxSize h) (rev (map entryOf calls) ++ es)))).
Proof.
  induction calls as [|[q now] calls IH]; intros ls es Hget Hlen.
  - exists ls. split; [reflexivity|]. simpl. now rewrite firstn_all2 by exact Hlen.
  - destruct (add_step h q now ls es Hget Hlen) as [ls1 [Hadd Hget1]].
    destruct (IH ls1 _ Hget1 (firstn_le_length _ _)) as [ls2 [Hall Hget2]].
    exists ls2. split.
    + simpl. now rewrite Hadd.
    + rewrite Hget2, firstn_app_firstn. simpl. now rewrite <- app_assoc.
Qed.

(** C8. From an empty store, any run of [add] calls succeeds and leaves a
    history of at most [maxSize] entries: the entries added, most recent
    first, cut to [maxSize]; so one more [add] puts its entry first and, when
    the history is full, drops the oldest. *)
Theorem history_bounded (h : QueryHistory.t) (localStorage : gmap string string)
        (calls : list (string * string)) :
  localStorage !! QueryHistory.storageKey h = None ->
  exists localStorage',
    QueryHistory.addAll JSON_parse JSON_stringify h calls localStorage = Normal localStorage' /\
    QueryHistory.getAll JSON_parse h localStorage' =
      Normal (JArray (map entryJson (kept (QueryHistory.maxSize h) calls))) /\
    List.length (kept (QueryHistory.maxSize h) calls) <= QueryHistory.maxSize h /\
    forall call,
      kept (QueryHistory.maxSize h) (calls ++ [call]) =
      firstn (QueryHistory.maxSize h) (entryOf call :: kept (QueryHistory.maxSize h) calls).
Proof.
  intros Habsent.
  destruct (addAll_from h calls localStorage [] (getAll_absent h localStorage Habsent)
              (Nat.le_0_l _)) as [ls' [Hall Hget]].
  exists ls'. split; [exact Hall|]. unfold kept. split; [|split].
  - now rewrite app_nil_r in Hget.
  - apply firstn_le_length.
  - intros call. rewrite map_app, rev_app_distr. simpl.
    now rewrite firstn_cons_firstn.
Qed.

(** C9. When the item is missing, or holds a text that [JSON.parse]
    refuses, both [getAll] methods return the empty list; neither raises. *)
Theorem getAll_unreadable (key : string) (n : nat) (localStorage : gmap string string) :
  localStorage !! key = None \/
  (exists text, localStorage !! key = Some text /\ JSON_parse text = None) ->
  SavedQueries.getAll JSON_parse {| SavedQueries.storageKey := key |} localStorage = Normal (JArray []) /\
  QueryHistory.getAll JSON_parse {| QueryHistory.storageKey := key; QueryHistory.maxSize := n |} localStorage = Normal (JArray []).
Proof.
  unfold SavedQueries.getAll, QueryHistory.getAll, parseItem, parseJSON. simpl.
  intros [-> | [text [-> Hbad]]].
  - now rewrite parse_null.
  - now rewrite Hbad.
Qed.
End PersistenceFacts.

(** ** The compact JSON reader reads back what the writer wrote *)

Import CompactJSON.

Lemma lex_literal (s acc rest : string) :
  lex (escape s +:+ dquote +:+ rest) (Some acc) =
  consToken (TString (acc +:+ s)) (lex rest None).
Proof.
  revert acc; induction s as [|c s IH]; intros acc.
  - simpl. now rewrite sapp_nil_r.
  - simpl escape. destruct (Ascii.eqb c "034" || Ascii.eqb c "\") eqn:E.
    + change (lex (String "\" (String c (escape s)) +:+ dquote +:+ rest) (Some acc))
        with (if Ascii.eqb c "034" || Ascii.eqb c "\"
              then lex (escape s +:+ dquote +:+ rest) (Some (acc +:+ String c ""))
              else None).
      rewrite E, IH, sapp_assoc. reflexivity.
    + apply orb_false_iff in E. destruct E as [E1 E2].
      change (lex (String c (escape s) +:+ dquote +:+ rest) (Some acc))
        with (if Ascii.eqb c "034" then consToken (TString acc) (lex (escape s +:+ dquote +:+ rest) None)
              else if Ascii.eqb c "\" then
                     match escape s +:+ dquote +:+ rest with
                     | String e rest' =>
                         if Ascii.eqb e "034" || Ascii.eqb e "\"
                         then lex rest' (Some (acc +:+ String e EmptyString))
                         else None
                     | EmptyString => None
                     end
                   else lex (escape s +:+ dquote +:+ rest) (Some (acc +:+ String c ""))).
      rewrite E1, E2, IH, sapp_assoc. reflexivity.
Qed.

Lemma lex_quote (s rest : string) :
  lex (quote s +:+ rest) None = consToken (TString s) (lex rest None).
Proof.
  unfold quote. rewrite !sapp_assoc.
  change (lex (dquote +:+ escape s +:+ dquote +:+ rest) None)
    with (lex (escape s +:+ dquote +:+ rest) (Some "")).
  apply lex_literal.
Qed.

Lemma stringify_entry (e : HistoryEntry) (rest : string) :
  stringify (entryJson e) +:+ rest =
  "{" +:+ quote "query" +:+ ":" +:+ quote (query e) +:+ ","
  +:+ quote "timestamp" +:+ ":" +:+ quote (timestamp e) +:+ "}" +:+ rest.
Proof.
  unfold entryJson. cbn [stringify map fst snd join String.concat].
  now rewrite !sapp_assoc.
Qed.

Lemma lex_entry (e : HistoryEntry) (rest : string) :
  lex (stringify (entryJson e) +:+ rest) None =
  consTokens (entryTokens e) (lex rest None).
Proof.
  rewrite stringify_entry.
  change (lex ("{" +:+ quote "query" +:+ ":" +:+ quote (query e) +:+ ","
               +:+ quote "timestamp" +:+ ":" +:+ quote (timestamp e) +:+ "}" +:+ rest) None)
    with (consToken TOpenBrace
            (lex (quote "query" +:+ ":" +:+ quote (query e) +:+ ","
                  +:+ quote "timestamp" +:+ ":" +:+ quote (timestamp e) +:+ "}" +:+ rest) None)).
  rewrite lex_quote.
  change (lex (":" +:+ quote (query e) +:+ "," +:+ quote "timestamp" +:+ ":"
               +:+ quote (timestamp e) +:+ "}" +:+ rest) None)
    with (consToken TColon
            (lex (quote (query e) +:+ "," +:+ quote "timestamp" +:+ ":"
                  +:+ quote (timestamp e) +:+ "}" +:+ rest) None)).
  rewrite lex_quote.
  change (lex ("," +:+ quote "timestamp" +:+ ":" +:+ quote (timestamp e) +:+ "}" +:+ rest) None)
    with (consToken TComma
            (lex (quote "timestamp" +:+ ":" +:+ quote (timestamp e) +:+ "}" +:+ rest) None)).
  rewrite lex_quote.
  change (lex (":" +:+ quote (timestamp e) +:+ "}" +:+ rest) None)
    with (consToken TColon (lex (quote (timestamp e) +:+ "}" +:+ rest) None)).
  rewrite lex_quote.
  change (lex ("}" +:+ rest) None) with (consToken TCloseBrace (lex rest None)).
  destruct (lex rest None); reflexivity.
Qed.

Lemma lex_entries (e : HistoryEntry) (es : list HistoryEntry) :
  lex (join "," (map stringify (map entryJson (e :: es))) +:+ "]") None =
  Some (entriesTokens (e :: es) ++ [TCloseBracket]).
Proof.
  revert e; induction es as [|e' es IH]; intros e.
  - change (join "," (map stringify (map entryJson [e])) +:+ "]")
      with (stringify (entryJson e) +:+ "]").
    rewrite lex_entry. reflexivity.
  - change (join "," (map stringify (map entryJson (e :: e' :: es))) +:+ "]")
      with ((stringify (entryJson e)
             +:+ "," +:+ join "," (map stringify (map entryJson (e' :: es)))) +:+ "]").
    rewrite !sapp_assoc, lex_entry.
    change (lex ("," +:+ join "," (map stringify (map entryJson (e' :: es))) +:+ "]") None)
      with (consToken TComma
              (lex (join "," (map stringify (map entryJson (e' :: es))) +:+ "]") None)).
    rewrite IH.
    change (entriesTokens (e :: e' :: es))
      with (entryTokens e ++ TComma :: entriesTokens (e' :: es)).
    simpl consToken. unfold consTokens. now rewrite <- app_assoc.
Qed.

Lemma parseObjects_entries (e : HistoryEntry) (es : list HistoryEntry) :
  parseObjects (entriesTokens (e :: es) ++ [TCloseBracket]) =
  Some (map entryJson (e :: es)).
Proof.
  revert e; induction es as [|e' es IH]; intros e; [reflexivity|].
  change (entriesTokens (e :: e' :: es))
    with (entryTokens e ++ TComma :: entriesTokens (e' :: es)).
  rewrite <- app_assoc.
  change (parseObjects (entryTokens e ++ (TComma :: entriesTokens (e' :: es)) ++ [TCloseBracket]))
    with (consValue (entryJson e)
            (parseObjects (entriesTokens (e' :: es) ++ [TCloseBracket]))).
  now rewrite IH.
Qed.

(** The reader gives back every history the writer printed. *)
Lemma CompactJSON_history (es : list HistoryEntry) :
  parse (stringify (JArray (map entryJson es))) = Some (JArray (map entryJson es)).
Proof.
  destruct es as [|e es]; [reflexivity|].
  unfold parse.
  change (lex (stringify (JArray (map entryJson (e :: es)))) None)
    with (consToken TOpenBracket
            (lex (join "," (map stringify (map entryJson (e :: es))) +:+ "]") None)).
  rewrite lex_entries.
  assert (H := parseObjects_entries e es).
  assert (Hhd : exists ts, entriesTokens (e :: es) ++ [TCloseBracket] = TOpenBrace :: ts)
    by (destruct es; eexists; reflexivity).
  destruct Hhd as [ts Hts]. rewrite Hts in *.
  cbn [consToken]. now rewrite H.
Qed.

Lemma history_bounded_witness :
  exists localStorage,
    QueryHistory.addAll parse stringify smallHistory threeCalls ∅ = Normal localStorage /\
    QueryHistory.getAll parse smallHistory localStorage =
      Normal (JArray (map entryJson (kept 2 threeCalls))) /\
    List.length (kept 2 threeCalls) <= 2.
Proof.
  destruct (history_bounded parse stringify eq_refl CompactJSON_history
              smallHistory ∅ threeCalls (lookup_empty _)) as [ls [H1 [H2 [H3 _]]]].
  exists ls. split; [exact H1 | split; [exact H2 | exact H3]].
Defined.

Lemma getAll_unreadable_witness :
  SavedQueries.getAll parse {| SavedQueries.storageKey := "modernExportSavedQueries" |} corruptedStore =
    Normal (JArray []) /\
  QueryHistory.getAll parse {| QueryHistory.storageKey := "modernExportQueryHistory"; QueryHistory.maxSize := 50 |} ∅ =
    Normal (JArray []).
Proof.
  split.
  - apply (getAll_unreadable parse eq_refl "modernExportSavedQueries" 0 corruptedStore).
    right. eexists. split; [apply lookup_singleton_eq | reflexivity].
  - apply (getAll_unreadable parse eq_refl "modernExportQueryHistory" 50 ∅).
    left. apply lookup_empty.
Defined.

(** * Further properties *)

(** ** UndoManager: undo, redo and runs of pushState *)

Section UndoManagerMore.
Variable State : Type.
Variable clone : State -> State.

Abbreviation t := (UndoManager.t State).
Abbreviation pushState := (UndoManager.pushState State clone).
Abbreviation appended := (UndoManager.appended State clone).
Abbreviation invariant := (UndoManager.invariant State).
Abbreviation step := (UndoManager.step State clone).
Abbreviation run := (UndoManager.run State clone).
Abbreviation create := (UndoManager.create State).
Abbreviation at_ := (UndoManager.at_ State).
Abbreviation size := (UndoManager.size State).
Abbreviation history := (UndoManager.history State).
Abbreviation currentIndex := (UndoManager.currentIndex State).
Abbreviation maxHistory := (UndoManager.maxHistory State).
Abbreviation undo := (UndoManager.undo State clone).
Abbreviation redo := (UndoManager.redo State clone).
Abbreviation canUndo := (UndoManager.canUndo State).
Abbreviation canRedo := (UndoManager.canRedo State).
Abbreviation copyAt := (UndoManager.copyAt State clone).

Lemma manager_eta (u : t) :
  {| UndoManager.history := history u; UndoManager.currentIndex := currentIndex u;
     UndoManager.maxHistory := maxHistory u |} = u.
Proof. now destruct u. Qed.

Lemma step_settled (u : t) (c : UndoManager.call State) :
  settled u -> settled (step u c).
Proof.
  intros [Hinv Hempty]. split; [now apply step_invariant|].
  destruct c as [state| | |]; simpl.
  - rewrite (pushState_unfold State clone state u Hinv).
    pose proof (length_appended State clone state u Hinv) as Hlen.
    destruct Hinv as [Hi Hl]. unfold UndoManager.size in *.
    destruct (Z.ltb_spec (Z.of_nat (maxHistory u))
                (Z.of_nat (List.length (appended state u)))); simpl; [|lia].
    intros Hm. unfold UndoManager.appended. rewrite Hm. reflexivity.
  - unfold UndoManager.undo, UndoManager.canUndo.
    destruct (Z.ltb_spec 0 (currentIndex u)); simpl; [lia | exact Hempty].
  - unfold UndoManager.redo, UndoManager.canRedo.
    destruct (Z.ltb_spec (currentIndex u) (size (history u) - 1)); simpl; [|exact Hempty].
    destruct Hinv as [Hi Hl]. lia.
  - reflexivity.
Qed.

Lemma run_settled (calls : list (UndoManager.call State)) (u : t) :
  settled u -> settled (run calls u).
Proof.
  revert u; induction calls as [|c calls IH]; intros u H; simpl; [exact H|].
  apply IH, step_settled, H.
Qed.

Lemma create_settled (n : nat) : settled (create n).
Proof. split; [apply create_invariant | reflexivity]. Qed.

Lemma at_in_range (l : list State) (i : Z) :
  (0 <= i < size l)%Z -> exists s, at_ l i = Some s.
Proof.
  intros H. unfold UndoManager.at_, UndoManager.size in *.
  destruct (Z.ltb_spec i 0); [lia|].
  destruct (nth_error l (Z.to_nat i)) as [s|] eqn:E; [now exists s|].
  apply nth_error_None in E. lia.
Qed.

(** X1. On a manager reached by any calls, an undo that is possible is
    taken back by redo: the manager is the one before the undo, and redo
    hands out the copy of the state that was current.  Likewise a redo that
    is possible is taken back by undo. *)
Theorem undo_redo_inverse (n : nat) (calls : list (UndoManager.call State)) :
  let u := run calls (create n) in
  (canUndo u = true ->
     exists s, at_ (history u) (currentIndex u) = Some s /\
               redo (snd (undo u)) = (Normal (Some (clone s)), u)) /\
  (canRedo u = true ->
     exists s, at_ (history u) (currentIndex u) = Some s /\
               undo (snd (redo u)) = (Normal (Some (clone s)), u)).
Proof.
  intros u. destruct (run_settled calls (create n) (create_settled n)) as [[Hi Hl] Hempty].
  fold u in Hi, Hl, Hempty. unfold UndoManager.size in Hi.
  split; intros Hcan.
  - unfold UndoManager.canUndo in Hcan. apply Z.ltb_lt in Hcan.
    destruct (at_in_range (history u) (currentIndex u)) as [s Hs];
      [unfold UndoManager.size; lia|].
    exists s. split; [exact Hs|].
    unfold UndoManager.undo, UndoManager.canUndo.
    destruct (Z.ltb_spec 0 (currentIndex u)); [|lia]. simpl snd.
    unfold UndoManager.redo, UndoManager.canRedo, UndoManager.size. simpl.
    destruct (Z.ltb_spec (currentIndex u - 1) (Z.of_nat (List.length (history u)) - 1));
      [|lia].
    replace (currentIndex u - 1 + 1)%Z with (currentIndex u) by lia.
    rewrite manager_eta. unfold UndoManager.copyAt. now rewrite Hs.
  - unfold UndoManager.canRedo, UndoManager.size in Hcan. apply Z.ltb_lt in Hcan.
    assert (Hnn : (0 <= currentIndex u)%Z).
    { destruct (Z.eq_dec (currentIndex u) (-1)%Z) as [E|E]; [|lia].
      rewrite (Hempty E) in Hcan. simpl in Hcan. lia. }
    destruct (at_in_range (history u) (currentIndex u)) as [s Hs];
      [unfold UndoManager.size; lia|].
    exists s. split; [exact Hs|].
    unfold UndoManager.redo, UndoManager.canRedo, UndoManager.size.
    destruct (Z.ltb_spec (currentIndex u) (Z.of_nat (List.length (history u)) - 1)); [|lia].
    simpl snd. unfold UndoManager.undo, UndoManager.canUndo. simpl.
    destruct (Z.ltb_spec 0 (currentIndex u + 1)); [|lia].
    replace (currentIndex u + 1 - 1)%Z with (currentIndex u) by lia.
    rewrite manager_eta. unfold UndoManager.copyAt. now rewrite Hs.
Qed.

(** X2. On a manager reached by any calls, undo and redo never raise: undo
    returns null, changing nothing, exactly when currentIndex is 0 or less,
    and otherwise the copy of the state one place back; redo returns null,
    changing nothing, exactly when currentIndex is at the last state, and
    otherwise the copy of the state one place on. *)
Theorem undo_redo_results (n : nat) (calls : list (UndoManager.call State)) :
  let u := run calls (create n) in
  (((currentIndex u <= 0)%Z /\ undo u = (Normal None, u)) \/
   ((0 < currentIndex u)%Z /\
    exists s, at_ (history u) (currentIndex u - 1) = Some s /\
              fst (undo u) = Normal (Some (clone s)) /\
              currentIndex (snd (undo u)) = (currentIndex u - 1)%Z /\
              history (snd (undo u)) = history u)) /\
  (((currentIndex u = size (history u) - 1)%Z /\ redo u = (Normal None, u)) \/
   ((currentIndex u < size (history u) - 1)%Z /\
    exists s, at_ (history u) (currentIndex u + 1) = Some s /\
              fst (redo u) = Normal (Some (clone s)) /\
              currentIndex (snd (redo u)) = (currentIndex u + 1)%Z /\
              history (snd (redo u)) = history u)).
Proof.
  intros u. destruct (run_settled calls (create n) (create_settled n)) as [[Hi Hl] Hempty].
  fold u in Hi, Hl, Hempty. split.
  - unfold UndoManager.undo, UndoManager.canUndo.
    destruct (Z.ltb_spec 0 (currentIndex u)); [right | left; split; [lia | reflexivity]].
    split; [assumption|].
    destruct (at_in_range (history u) (currentIndex u - 1)) as [s Hs]; [lia|].
    exists s. split; [exact Hs|]. simpl. unfold UndoManager.copyAt. simpl.
    now rewrite Hs.
  - unfold UndoManager.redo, UndoManager.canRedo.
    destruct (Z.ltb_spec (currentIndex u) (size (history u) - 1));
      [right | left; split; [lia | reflexivity]].
    split; [assumption|].
    destruct (at_in_range (history u) (currentIndex u + 1)) as [s Hs]; [lia|].
    exists s. split; [exact Hs|]. simpl. unfold UndoManager.copyAt. simpl.
    now rewrite Hs.
Qed.

(** X3. On a manager reached by any calls, pushState leaves nothing to redo:
    currentIndex is at the last state, so the next redo returns null and
    changes nothing. *)
Theorem pushState_ends_redo (n : nat) (calls : list (UndoManager.call State))
        (state : State) :
  let u := pushState state (run calls (create n)) in
  currentIndex u = (size (history u) - 1)%Z /\
  canRedo u = false /\
  redo u = (Normal None, u).
Proof.
  intros u.
  destruct (run_settled calls (create n) (create_settled n)) as [Hinv _].
  assert (Hidx : currentIndex u = (size (history u) - 1)%Z).
  { unfold u. rewrite (pushState_unfold State clone state _ Hinv).
    pose proof (length_appended State clone state _ Hinv) as Hlen.
    unfold UndoManager.size.
    destruct (Z.ltb_spec (Z.of_nat (maxHistory (run calls (create n))))
                (Z.of_nat (List.length (appended state (run calls (create n))))));
      simpl; [|lia].
    destruct (appended state (run calls (create n))); simpl in *; lia. }
  assert (Hcan : canRedo u = false)
    by (unfold UndoManager.canRedo; apply Z.ltb_ge; lia).
  split; [exact Hidx | split; [exact Hcan|]].
  unfold UndoManager.redo. now rewrite Hcan.
Qed.
Lemma pushAll_snoc (states : list State) (state : State) (u : t) :
  pushAll clone (states ++ [state]) u = pushState state (pushAll clone states u).
Proof. unfold pushAll, UndoManager.run. now rewrite map_app, fold_left_app. Qed.

Lemma tl_map {A B} (f : A -> B) (l : list A) : tl (map f l) = map f (tl l).
Proof. now destruct l. Qed.

(** X4. Pushing states into a new manager keeps the copies of the last
    maxHistory of them, oldest first, with currentIndex at the newest. *)
Theorem pushAll_keeps_last (n : nat) (states : list State) :
  let u := pushAll clone states (create n) in
  history u = map clone (skipn (List.length states - n) states) /\
  currentIndex u = (Z.of_nat (Nat.min (List.length states) n) - 1)%Z.
Proof.
  induction states as [|state states IH] using rev_ind.
  - simpl. split; [reflexivity | lia].
  - cbv zeta in IH |- *. destruct IH as [Hh Hc]. rewrite pushAll_snoc.
    assert (Hinv : invariant (pushAll clone states (create n)))
      by (apply run_invariant, create_invariant).
    rewrite (pushState_unfold State clone state _ Hinv).
    assert (Hlen : List.length (history (pushAll clone states (create n)))
                   = Nat.min (List.length states) n)
      by (rewrite Hh, length_map, length_skipn; lia).
    assert (Happ : appended state (pushAll clone states (create n))
                   = map clone (skipn (List.length states - n) states ++ [state])).
    { unfold UndoManager.appended. rewrite firstn_all2 by lia.
      now rewrite Hh, map_app. }
    assert (Hmax : maxHistory (pushAll clone states (create n)) = n)
      by (apply (run_invariant State clone _ (create n)), create_invariant).
    rewrite Happ, Hmax. unfold UndoManager.size.
    rewrite length_map, !length_app, length_skipn. simpl List.length.
    destruct (Z.ltb_spec (Z.of_nat n)
                (Z.of_nat (List.length states - (List.length states - n) + 1))); simpl.
    + split; [|lia]. rewrite tl_map. f_equal.
      replace (List.length states + 1 - n) with (1 + (List.length states - n)) by lia.
      rewrite <- skipn_skipn, skipn_app.
      replace (List.length states - n - List.length states) with 0 by lia.
      change (skipn 0 [state]) with [state].
      now destruct (skipn (List.length states - n) states ++ [state]).
    + split; [|lia].
      replace (List.length states + 1 - n) with 0 by lia.
      replace (List.length states - n) with 0 by lia. reflexivity.
Qed.
End UndoManagerMore.

Lemma undo_redo_inverse_witness :
  let u := UndoManager.run nat id threeUndoCalls (UndoManager.create nat 5) in
  (exists s, UndoManager.at_ nat (UndoManager.history nat u) (UndoManager.currentIndex nat u)
             = Some s /\
             UndoManager.redo nat id (snd (UndoManager.undo nat id u))
             = (Normal (Some (id s)), u)) /\
  (exists s, UndoManager.at_ nat (UndoManager.history nat u) (UndoManager.currentIndex nat u)
             = Some s /\
             UndoManager.undo nat id (snd (UndoManager.redo nat id u))
             = (Normal (Some (id s)), u)).
Proof.
  split.
  - apply (proj1 (undo_redo_inverse nat id 5 threeUndoCalls)). reflexivity.
  - apply (proj2 (undo_redo_inverse nat id 5 threeUndoCalls)). reflexivity.
Defined.

(** ** QueryBuilder: ungrouped conditions, and each condition once *)

Lemma reduceGroups_default (cs b : list Condition) :
  Forall (fun c => groupKey c = "default") cs -> b <> [] ->
  reduceGroups [("default", b)] cs = Normal [("default", b ++ cs)].
Proof.
  revert b; induction cs as [|c cs IH]; intros b Hall Hb; simpl.
  - now rewrite app_nil_r.
  - inversion Hall as [|? ? Hc Hcs]; subst.
    rewrite addToGroup_plain by (rewrite Hc; reflexivity).
    rewrite Hc. simpl. rewrite IH; [| exact Hcs | now destruct b].
    now rewrite <- app_assoc.
Qed.

(** X5. When no condition carries a group id (or only the ids that read as
    default), the WHERE clause is one group: the conditions in stored order
    joined by the operator, in parentheses when there are two or more. *)
Theorem buildQuery_ungrouped (q : QueryBuilder) :
  conditions q <> [] ->
  Forall (fun c => groupKey c = "default") (conditions q) ->
  buildQuery q =
    Normal (selectClause q +:+ fromClause q +:+ " WHERE "
            +:+ (let inner := join (glue (groupOperator q))
                                   (map conditionString (conditions q)) in
                 if (1 <? List.length (conditions q))%nat
                 then "(" +:+ inner +:+ ")" else inner)
            +:+ orderByClause q +:+ limitClause q).
Proof.
  intros Hne Hall. rewrite buildQuery_unfold. unfold whereClause.
  destruct (conditions q) as [|c cs] eqn:E; [congruence|].
  inversion Hall as [|? ? Hc Hcs]; subst.
  change (reduceGroups [] (c :: cs))
    with (let* acc' := addToGroup [] c in reduceGroups acc' cs).
  rewrite addToGroup_plain by (rewrite Hc; reflexivity).
  rewrite Hc. cbn [getOwn setOwn cbind].
  rewrite (reduceGroups_default cs [c] Hcs) by discriminate.
  cbv [cmap cbind]. change (entries [("default", [c] ++ cs)]) with [("default", c :: cs)].
  cbn [map snd join String.concat]. unfold groupString.
  now rewrite !sapp_assoc.
Qed.

Lemma buildQuery_ungrouped_witness :
  buildQuery (contactsByEmail ["a@b.com"; "c@d.org"] None) =
    Normal "SELECT Name FROM Contact WHERE (Email = 'a@b.com' OR Email = 'c@d.org')".
Proof.
  rewrite (buildQuery_ungrouped (contactsByEmail ["a@b.com"; "c@d.org"] None)).
  - reflexivity.
  - discriminate.
  - repeat constructor.
Defined.

Lemma flat_map_setOwn_new {V} (o : jsobject (list V)) (k : string) (x : list V) :
  getOwn o k = None -> flat_map snd (setOwn o k x) = flat_map snd o ++ x.
Proof.
  induction o as [|[j w] o IH]; simpl; intros H; [now rewrite app_nil_r|].
  destruct (String.eqb j k); [discriminate|].
  simpl. now rewrite IH, app_assoc.
Qed.

Lemma flat_map_setOwn_push {V} (o : jsobject (list V)) (k : string) (b x : list V) :
  getOwn o k = Some b ->
  Permutation (flat_map snd (setOwn o k (b ++ x))) (flat_map snd o ++ x).
Proof.
  induction o as [|[j w] o IH]; simpl; intros H; [discriminate|].
  destruct (String.eqb j k).
  - injection H as ->. simpl. rewrite <- !app_assoc. apply Permutation_app_head.
    apply Permutation_app_comm.
  - simpl. rewrite <- app_assoc. apply Permutation_app_head. now apply IH.
Qed.

(** The buckets together hold the conditions read so far, each once. *)
Lemma reduceGroups_perm (cs : list Condition) :
  forall acc g,
    reduceGroups acc cs = Normal g ->
    Forall (fun c => inherited (groupKey c) = false) cs ->
    Permutation (flat_map snd g) (flat_map snd acc ++ cs).
Proof.
  induction cs as [|c cs IH]; intros acc g Hg Hall; simpl in Hg.
  - injection Hg as <-. now rewrite app_nil_r.
  - inversion Hall as [|? ? Hc Hcs]; subst.
    rewrite (addToGroup_plain acc c Hc) in Hg. simpl in Hg.
    rewrite (IH _ _ Hg Hcs).
    change (c :: cs) with ([c] ++ cs). rewrite app_assoc.
    apply Permutation_app_tail.
    destruct (getOwn acc (groupKey c)) as [b|] eqn:E.
    + now apply flat_map_setOwn_push.
    + now rewrite flat_map_setOwn_new.
Qed.

Lemma sumOver_pred {A} (f : A -> list Condition) (l : list A) :
  Forall (fun a => f a <> []) l ->
  sumOver (fun a => List.length (f a) - 1) l + List.length l =
  List.length (flat_map f l).
Proof.
  induction l as [|a l IH]; intros H; simpl; [reflexivity|].
  inversion H as [|? ? Ha Hl]; subst. rewrite length_app.
  specialize (IH Hl). destruct (f a); [congruence|]. simpl. lia.
Qed.

(** X6. Whenever [buildQuery] returns, its WHERE clause holds every
    condition exactly once: the groups it renders are, taken together, a
    rearrangement of the stored conditions, no group is empty, and the
    operators the builder puts in number one less than the conditions. *)
Theorem buildQuery_each_condition_once (q : QueryBuilder) (s : string) :
  conditions q <> [] ->
  buildQuery q = Normal s ->
  exists groups : list (string * list Condition),
    s = selectClause q +:+ fromClause q +:+ " WHERE "
        +:+ tokensText (groupOperator q) (whereTokens (map snd groups))
        +:+ orderByClause q +:+ limitClause q /\
    Permutation (flat_map snd groups) (conditions q) /\
    Forall (fun g => snd g <> []) groups /\
    operators (whereTokens (map snd groups)) = List.length (conditions q) - 1.
Proof.
  intros Hne Hs.
  assert (Hall : Forall (fun c => inherited (groupKey c) = false) (conditions q)).
  { apply List.Forall_forall. intros c Hc.
    destruct (inherited (groupKey c)) eqn:E; [|reflexivity].
    rewrite buildQuery_inherited_throws in Hs; [discriminate|].
    apply List.Exists_exists. now exists c. }
  destruct (reduceGroups_holds (conditions q) [] [] holds_nil Hall) as [g [Hg [Hnd Hget]]].
  simpl in Hget.
  assert (Hperm : Permutation (flat_map snd (entries g)) (conditions q)).
  { rewrite (entries_perm g). apply (reduceGroups_perm _ [] g Hg Hall). }
  assert (Hfull : Forall (fun e => snd e <> []) (entries g)).
  { apply List.Forall_forall. intros [k b] Hin.
    apply (Permutation_in _ (entries_perm g)) in Hin.
    apply (getOwn_In g k b Hnd) in Hin. rewrite Hget in Hin. simpl.
    destruct (bucketOf k (conditions q)); [discriminate|].
    injection Hin as <-. discriminate. }
  exists (entries g). split; [|split; [exact Hperm | split; [exact Hfull|]]].
  - rewrite buildQuery_unfold in Hs. unfold whereClause in Hs.
    destruct (conditions q) as [|c cs] eqn:E; [congruence|].
    rewrite Hg in Hs. cbv [cmap cbind] in Hs. injection Hs as <-.
    rewrite tokensText_whereTokens. now rewrite !sapp_assoc.
  - rewrite operators_whereTokens.
    pose proof (sumOver_pred snd (entries g) Hfull) as Hsum.
    rewrite (Permutation_length Hperm) in Hsum.
    assert (Hpos : 0 < List.length (conditions q))
      by (destruct (conditions q); [congruence | simpl; lia]).
    assert (Hgroups : 0 < List.length (entries g)).
    { destruct (entries g); [|simpl; lia].
      apply Permutation_length in Hperm. simpl in Hperm. lia. }
    lia.
Qed.

Lemma buildQuery_each_condition_once_witness :
  exists groups : list (string * list Condition),
    Permutation (flat_map snd groups) (conditions twoGroups) /\
    operators (whereTokens (map snd groups)) = 2.
Proof.
  destruct (buildQuery_each_condition_once twoGroups _ ltac:(discriminate) eq_refl)
    as [groups [_ [Hp [_ Ho]]]].
  exists groups. split; [exact Hp | exact Ho].
Defined.

(** ** formatValue: different values, different texts *)

Lemma escapeQuotes_head (v : string) :
  forall rest, escapeQuotes v <> String "'" rest.
Proof.
  destruct v as [|c v]; simpl; [discriminate|].
  destruct (Ascii.eqb c "'") eqn:E; intros rest H.
  - discriminate.
  - injection H as -> _. discriminate.
Qed.

(** Removing the backslash before each quote undoes the escaping. *)
Lemma unescape_escapeQuotes (v : string) : unescapeQuotes (escapeQuotes v) = v.
Proof.
  induction v as [|c v IH]; [reflexivity|].
  simpl escapeQuotes. destruct (Ascii.eqb_spec c "'") as [->|Hc].
  - change (unescapeQuotes (String "\" (String "'" (escapeQuotes v))))
      with (String "'" (unescapeQuotes (escapeQuotes v))).
    now rewrite IH.
  - destruct (escapeQuotes v) as [|d rest] eqn:E.
    + simpl. destruct v as [|x v]; [reflexivity|].
      simpl in E. destruct (Ascii.eqb x "'"); discriminate.
    + assert (Hd : (Ascii.eqb c "\" && Ascii.eqb d "'") = false).
      { destruct (Ascii.eqb_spec d "'") as [->|_]; [|apply andb_false_r].
        exfalso. exact (escapeQuotes_head v rest E). }
      change (unescapeQuotes (String c (String d rest)))
        with (if Ascii.eqb c "\" && Ascii.eqb d "'"
              then String "'" (unescapeQuotes rest)
              else String c (unescapeQuotes (String d rest))).
      now rewrite Hd, IH.
Qed.

Lemma sapp_inv_tail (a b c : string) : a +:+ c = b +:+ c -> a = b.
Proof.
  intros H.
  assert (Hlen : forall x y, String.length (x +:+ y) = String.length x + String.length y)
    by (induction x; simpl; auto).
  assert (Hl : String.length a = String.length b).
  { pose proof (f_equal String.length H) as E. rewrite !Hlen in E. lia. }
  clear Hlen. revert b H Hl. induction a as [|x a IH]; intros [|y b] H Hl;
    simpl in *; try discriminate; [reflexivity|].
  injection H as -> H. f_equal. apply IH; [exact H | lia].
Qed.

(** X7. For every type but date, [formatValue] gives different texts for
    different values (the quoted forms can be read back by dropping the outer
    quotes and the backslash before each inner quote); for date it does not:
    a value and the same value in quotes are both rendered in quotes. *)
Theorem formatValue_injective (type v1 v2 : string) :
  (type <> "date" -> formatValue v1 type = formatValue v2 type -> v1 = v2) /\
  unescapeQuotes (escapeQuotes v1) = v1 /\
  formatValue "2024-01-01" "date" = formatValue "'2024-01-01'" "date".
Proof.
  split; [|split; [apply unescape_escapeQuotes | reflexivity]].
  intros Hdate H.
  assert (Hq : "'" +:+ escapeQuotes v1 +:+ "'" = "'" +:+ escapeQuotes v2 +:+ "'" -> v1 = v2).
  { intros E. simpl in E. injection E as E. apply sapp_inv_tail in E.
    rewrite <- (unescape_escapeQuotes v1), <- (unescape_escapeQuotes v2).
    now rewrite E. }
  unfold formatValue in H.
  destruct (String.eqb type "string" || String.eqb type "textarea" || String.eqb type "url"
            || String.eqb type "email" || String.eqb type "phone"); [now apply Hq|].
  destruct (String.eqb type "boolean"); [exact H|].
  destruct (String.eqb_spec type "date"); [contradiction|].
  destruct (String.eqb type "datetime").
  - now destruct (includes "'" v1), (includes "'" v2).
  - destruct (String.eqb type "number" || String.eqb type "currency"
              || String.eqb type "percent"); [exact H | now apply Hq].
Qed.

Lemma formatValue_injective_witness :
  formatValue "O'Brien" "string" <> formatValue "OBrien" "string".
Proof.
  intros H.
  pose proof (proj1 (formatValue_injective "string" "O'Brien" "OBrien")
                ltac:(discriminate) H) as E.
  discriminate E.
Defined.

(** ** QueryBuilder: blocks *)

(** X8. [removeBlock] takes out every block with the given id and keeps the
    others in order; so removing the id of a block just added gives the
    blocks as they were when no other block had that id, and otherwise takes
    those along. *)
Theorem removeBlock_addBlock (Config : Type) (type : string) (config : Config)
        (now : Z) (blocks : list (Blocks.Block Config)) :
  Blocks.removeBlock Config now (Blocks.addBlock Config type config now blocks) =
    Blocks.removeBlock Config now blocks /\
  (Forall (fun b => Blocks.id Config b <> now) blocks ->
     Blocks.removeBlock Config now (Blocks.addBlock Config type config now blocks) = blocks) /\
  (forall i b, In b (Blocks.removeBlock Config i blocks) <->
               In b blocks /\ Blocks.id Config b <> i).
Proof.
  assert (H1 : Blocks.removeBlock Config now (Blocks.addBlock Config type config now blocks)
               = Blocks.removeBlock Config now blocks).
  { unfold Blocks.removeBlock, Blocks.addBlock, push.
    rewrite List.filter_app. simpl. rewrite Z.eqb_refl. simpl. apply app_nil_r. }
  split; [exact H1 | split].
  - intros Hall. rewrite H1. clear H1. unfold Blocks.removeBlock.
    induction Hall as [|b l Hb Hl IH]; simpl; [reflexivity|].
    destruct (Z.eqb_spec (Blocks.id Config b) now); [contradiction|].
    simpl. now rewrite IH.
  - intros i b. unfold Blocks.removeBlock. rewrite List.filter_In.
    destruct (Z.eqb_spec (Blocks.id Config b) i); simpl; intuition congruence.
Qed.

Lemma removeBlock_addBlock_witness :
  Blocks.removeBlock nat 20
    (Blocks.addBlock nat "field" 7 20
       [{| Blocks.blockType := "field"; Blocks.config := 5; Blocks.id := 10%Z |}]) =
  [{| Blocks.blockType := "field"; Blocks.config := 5; Blocks.id := 10%Z |}].
Proof.
  apply (proj1 (proj2 (removeBlock_addBlock nat "field" 7 20
           [{| Blocks.blockType := "field"; Blocks.config := 5; Blocks.id := 10%Z |}]))).
  repeat constructor. simpl. lia.
Defined.

(** ** What the analysers make of a built query *)

Lemma includes_app_l (sub x y : string) :
  includes sub x = true -> includes sub (x +:+ y) = true.
Proof.
  rewrite !includes_spec. intros [a [b ->]]. exists a, (b +:+ y).
  now rewrite !sapp_assoc.
Qed.

Lemma includes_app_r (sub x y : string) :
  includes sub y = true -> includes sub (x +:+ y) = true.
Proof.
  rewrite !includes_spec. intros [a [b ->]]. exists (x +:+ a), b.
  now rewrite !sapp_assoc.
Qed.

Lemma buildQuery_parts (q : QueryBuilder) (s : string) :
  buildQuery q = Normal s ->
  exists wh, whereClause q = Normal wh /\
             s = (((selectClause q +:+ fromClause q) +:+ wh) +:+ orderByClause q)
                 +:+ limitClause q.
Proof.
  rewrite buildQuery_unfold. destruct (whereClause q) as [wh|e]; simpl; [|discriminate].
  intros [= <-]. now exists wh.
Qed.

(** X9. A query built with an object selected always passes the
    validator's first check: the missing-clauses error is not among the
    errors, whatever the metadata. *)
Theorem validateQuery_of_buildQuery (q : QueryBuilder) (s : string)
        (objectMetadata : list ObjectInfo.t) (fieldMetadata : option (list FieldInfo.t)) :
  buildQuery q = Normal s ->
  objectSelected q ->
  includes "SELECT" s = true /\ includes "FROM" s = true /\
  ~ In missingClausesError (validateQuery s objectMetadata fieldMetadata).
Proof.
  intros Hs [o [Ho Hne]]. destruct (buildQuery_parts q s Hs) as [wh [_ ->]].
  assert (H1 : includes "SELECT" (selectClause q) = true) by reflexivity.
  assert (H2 : includes "FROM" (fromClause q) = true).
  { unfold fromClause. rewrite Ho. destruct (String.eqb_spec o ""); [contradiction|].
    reflexivity. }
  set (s := (((selectClause q +:+ fromClause q) +:+ wh) +:+ orderByClause q)
            +:+ limitClause q).
  assert (Hsel : includes "SELECT" s = true) by (unfold s; auto using includes_app_l).
  assert (Hfrom : includes "FROM" s = true)
    by (unfold s; auto using includes_app_l, includes_app_r).
  split; [exact Hsel | split; [exact Hfrom|]].
  intros Hin. unfold validateQuery in Hin. rewrite Hsel, Hfrom in Hin.
  cbn [negb orb] in Hin.
  assert (H : Forall notMissingClauses
                (checkWhere s (checkFields s fieldMetadata (checkObject s objectMetadata []))))
    by (apply checkWhere_other, checkFields_other, checkObject_other; constructor).
  exact (proj1 (List.Forall_forall _ _) H _ Hin eq_refl).
Qed.

Lemma validateQuery_of_buildQuery_witness :
  ~ In missingClausesError
      (validateQuery "SELECT Name FROM Contact WHERE Email = 'a@b.com'" [] None).
Proof.
  apply (validateQuery_of_buildQuery (contactsByEmail ["a@b.com"] None) _ [] None eq_refl).
  exists "Contact". split; [reflexivity | discriminate].
Defined.

Lemma matches_self (c : ascii) : matches true (Char c) c = true.
Proof. simpl. apply Ascii.eqb_refl. Qed.

(** A literal word matches itself, in any case of the pattern's flag. *)
Lemma matchFrom_lit {R} (w rest : string) (cap : option string)
      (k : string -> option string -> option R) :
  matchFrom true (lit w) (w +:+ rest) cap k = k rest cap.
Proof.
  revert rest; induction w as [|c w IH]; intros rest; [reflexivity|].
  destruct w as [|d w].
  - simpl. now rewrite Ascii.eqb_refl.
  - change (lit (String c (String d w))) with (Seq (One (Char c)) (lit (String d w))).
    change (String c (String d w) +:+ rest) with (String c (String d w +:+ rest)).
    cbn [matchFrom]. rewrite matches_self. apply IH.
Qed.

Lemma search_skip (r : regex) (a x : string) :
  succeeds (matchAt true r x) -> succeeds (search true r (a +:+ x)).
Proof.
  intros H. induction a as [|c a IH]; simpl.
  - destruct x; simpl; destruct H as [m ->]; now eexists.
  - destruct (matchAt true r (String c (a +:+ x))); [now eexists | exact IH].
Qed.

(** A text that contains a word is found by the pattern of that word. *)
Lemma test_includes (w s : string) :
  includes w s = true -> test true (lit w) s = true.
Proof.
  rewrite includes_spec. intros [a [b ->]]. unfold test.
  destruct (search_skip (lit w) a (w +:+ b)) as [m ->]; [|reflexivity].
  unfold matchAt. rewrite matchFrom_lit. unfold accept. now eexists.
Qed.

(** X10. The optimizer's too-many-records warning never comes up for a
    built query that has conditions or a limit, and its ORDER BY warning
    never for one that has a limit. *)
Theorem analyzeQuery_of_buildQuery (q : QueryBuilder) (s : string) :
  buildQuery q = Normal s ->
  (conditions q <> [] \/ limitSet q -> missingFilterCheck s = []) /\
  (limitSet q -> orderByCheck s = []).
Proof.
  intros Hs. destruct (buildQuery_parts q s Hs) as [wh [Hwh ->]].
  assert (Hlimit : limitSet q ->
            test true (lit "LIMIT")
              ((((selectClause q +:+ fromClause q) +:+ wh) +:+ orderByClause q)
               +:+ limitClause q) = true).
  { intros [n [Hn Hz]]. apply test_includes, includes_app_r.
    unfold limitClause. rewrite Hn. destruct (Z.eqb_spec n 0); [contradiction|].
    reflexivity. }
  split.
  - intros [Hc | Hl]; unfold missingFilterCheck.
    + assert (Hw : includes "WHERE" wh = true).
      { unfold whereClause in Hwh. destruct (conditions q); [congruence|].
        destruct (reduceGroups _ _); simpl in Hwh; [|discriminate].
        injection Hwh as <-. reflexivity. }
      rewrite (test_includes "WHERE"); [reflexivity|].
      auto using includes_app_l, includes_app_r.
    + rewrite (Hlimit Hl). cbn [negb]. now rewrite andb_false_r.
  - intros Hl. unfold orderByCheck. rewrite (Hlimit Hl). cbn [negb].
    now rewrite andb_false_r.
Qed.

Lemma analyzeQuery_of_buildQuery_witness :
  missingFilterCheck "SELECT Name FROM Contact WHERE Email = 'a@b.com'" = [] /\
  orderByCheck "SELECT Name FROM Contact LIMIT 10" = [].
Proof.
  split.
  - apply (proj1 (analyzeQuery_of_buildQuery (contactsByEmail ["a@b.com"] None) _ eq_refl)).
    left. discriminate.
  - apply (proj2 (analyzeQuery_of_buildQuery (contactsByEmail [] (Some 10%Z)) _ eq_refl)).
    exists 10%Z. split; [reflexivity | lia].
Defined.

(** ** Query templates *)

Lemma expand_plain (replacement m b a : string) :
  occurs "$" replacement = false -> expand replacement m b a = replacement.
Proof.
  induction replacement as [|c r IH]; [reflexivity|].
  cbn [occurs expand]. intros H. apply orb_false_elim in H as [Hc Hr].
  rewrite Ascii.eqb_sym in Hc. rewrite Hc. now rewrite (IH Hr).
Qed.

Lemma matchFrom_lit_exact {R} (w rest : string) (cap : option string)
      (k : string -> option string -> option R) :
  matchFrom false (lit w) (w +:+ rest) cap k = k rest cap.
Proof.
  revert rest; induction w as [|c w IH]; intros rest; [reflexivity|].
  destruct w as [|d w].
  - simpl. now rewrite Ascii.eqb_refl.
  - change (lit (String c (String d w))) with (Seq (One (Char c)) (lit (String d w))).
    change (String c (String d w) +:+ rest) with (String c (String d w +:+ rest)).
    cbn [matchFrom matches]. rewrite Ascii.eqb_refl. apply IH.
Qed.

Lemma matchAt_lit_foreign (c0 c : ascii) (w x : string) :
  Ascii.eqb c0 c = false -> matchAt false (lit (String c0 w)) (String c x) = None.
Proof.
  intros H. unfold matchAt. destruct w; cbn [lit matchFrom matches]; now rewrite H.
Qed.

Lemma matchAt_lit_end (c0 : ascii) (w : string) :
  matchAt false (lit (String c0 w)) "" = None.
Proof. unfold matchAt. now destruct w. Qed.

Lemma consumed_app (w rest : string) : consumed (w +:+ rest) rest = w.
Proof.
  unfold consumed.
  replace (String.length (w +:+ rest) - String.length rest)%nat with (String.length w).
  - induction w as [|c w IH]; simpl; [now destruct rest | now rewrite IH].
  - induction w as [|c w IH]; simpl; [lia|].
    rewrite Nat.sub_succ_l; [now rewrite <- IH|].
    clear IH. induction w; simpl; lia.
Qed.

Lemma snoc_app (b : string) (c : ascii) (x : string) :
  snoc b c +:+ x = b +:+ String c x.
Proof. unfold snoc. now rewrite sapp_assoc. Qed.

Lemma replaceScan_skip (r : regex) (rep x rest b : string) (k : nat) :
  replaceScan false r rep b (x +:+ rest) (String.length x + k)
  = replaceScan false r rep (b +:+ x) rest k.
Proof.
  revert b; induction x as [|c x IH]; intros b; simpl.
  - now rewrite sapp_nil_r.
  - rewrite IH. now rewrite snoc_app.
Qed.

(** Text without the first character of the word passes unchanged. *)
Lemma replaceScan_pass (c0 : ascii) (w rep pre rest b : string) :
  occurs c0 pre = false ->
  replaceScan false (lit (String c0 w)) rep b (pre +:+ rest) 0
  = pre +:+ replaceScan false (lit (String c0 w)) rep (b +:+ pre) rest 0.
Proof.
  revert b; induction pre as [|c pre IH]; intros b H.
  - simpl. now rewrite sapp_nil_r.
  - simpl in H. apply orb_false_elim in H as [Hc Hpre].
    change (String c pre +:+ rest) with (String c (pre +:+ rest)).
    cbn [replaceScan]. rewrite (matchAt_lit_foreign c0 c w _ Hc).
    rewrite (IH _ Hpre). now rewrite snoc_app.
Qed.

(** The word itself gives way to the expansion of the replacement. *)
Lemma replaceScan_hit (c0 : ascii) (w rep rest b : string) :
  replaceScan false (lit (String c0 w)) rep b (String c0 w +:+ rest) 0
  = expand rep (String c0 w) b rest
    +:+ replaceScan false (lit (String c0 w)) rep (b +:+ String c0 w) rest 0.
Proof.
  assert (Hm : matchAt false (lit (String c0 w)) (String c0 w +:+ rest)
               = Some {| matched := String c0 w; capture := None; after := rest |}).
  { unfold matchAt. rewrite matchFrom_lit_exact. unfold accept.
    now rewrite consumed_app. }
  change (String c0 w +:+ rest) with (String c0 (w +:+ rest)) in *.
  cbn [replaceScan]. rewrite Hm. cbn [matched after String.length].
  f_equal. rewrite <- (Nat.add_0_r (String.length w)).
  rewrite replaceScan_skip. now rewrite snoc_app.
Qed.

Lemma replaceScan_end (c0 : ascii) (w rep b : string) :
  replaceScan false (lit (String c0 w)) rep b "" 0 = "".
Proof. cbn [replaceScan]. now rewrite matchAt_lit_end. Qed.

(** A text without the first character of the word is left as it is. *)
Lemma replaceAll_none (c0 : ascii) (w rep s : string) :
  occurs c0 s = false -> replaceAll false (lit (String c0 w)) rep s = s.
Proof.
  intros H. unfold replaceAll. rewrite <- (sapp_nil_r s) at 1.
  rewrite (replaceScan_pass c0 w rep s "" "" H), replaceScan_end.
  apply sapp_nil_r.
Qed.

(** One occurrence of the word, replaced by a text without a dollar. *)
Lemma replaceAll_one (c0 : ascii) (w rep pre post : string) :
  occurs c0 pre = false -> occurs c0 post = false -> occurs "$" rep = false ->
  replaceAll false (lit (String c0 w)) rep (pre +:+ String c0 w +:+ post)
  = pre +:+ rep +:+ post.
Proof.
  intros Hpre Hpost Hrep. unfold replaceAll.
  rewrite (replaceScan_pass c0 w rep pre _ "" Hpre), replaceScan_hit.
  rewrite (expand_plain _ _ _ _ Hrep).
  rewrite <- (sapp_nil_r post) at 1.
  rewrite (replaceScan_pass c0 w rep post "" _ Hpost), replaceScan_end.
  now rewrite sapp_nil_r.
Qed.

(** X11. getTemplateQuery gives a query for the four template ids, null for
    an id that names nothing, and raises a TypeError for an id that names a
    property of Object.prototype, such as constructor or toString: the
    lookup finds the inherited value, which has no query text. *)
Theorem getTemplateQuery_outcomes (templateId object userId : string) :
  (In templateId (map fst templates) ->
     exists s, getTemplateQuery templateId object userId = Normal (Some s)) /\
  (inherited templateId = true ->
     getTemplateQuery templateId object userId = Throw TypeError) /\
  (~ In templateId (map fst templates) -> inherited templateId = false ->
     getTemplateQuery templateId object userId = Normal None).
Proof.
  unfold getTemplateQuery, getProperty. repeat split.
  - intros Hin. destruct (getOwn templates templateId) as [t|] eqn:E; [now eexists|].
    apply getOwn_None_keys in E. contradiction.
  - intros Hinh. destruct (getOwn templates templateId) as [t|] eqn:E; [|now rewrite Hinh].
    apply getOwn_Some_keys in E. simpl in E.
    destruct E as [<- | [<- | [<- | [<- | []]]]]; discriminate Hinh.
  - intros Hnot Hinh. destruct (getOwn templates templateId) as [t|] eqn:E;
      [|now rewrite Hinh].
    apply getOwn_Some_keys in E. contradiction.
Qed.

Lemma getTemplateQuery_outcomes_witness :
  getTemplateQuery "constructor" "Account" "'005xx0000012345'" = Throw TypeError /\
  getTemplateQuery "Everything" "Account" "'005xx0000012345'" = Normal None.
Proof.
  split.
  - apply (proj1 (proj2 (getTemplateQuery_outcomes "constructor" "Account"
                           "'005xx0000012345'"))).
    reflexivity.
  - apply (proj2 (proj2 (getTemplateQuery_outcomes "Everything" "Account"
                           "'005xx0000012345'"))); [|reflexivity].
    cbn. intuition discriminate.
Defined.

(** X12. For an object name without a dollar or an opening brace and a user
    id without a dollar, getTemplateQuery returns the template text with
    the object name in the place of {object} and the user id in the place
    of {userId}. *)
Theorem getTemplateQuery_substitutes (object userId : string) :
  occurs "$" object = false -> occurs "{" object = false ->
  occurs "$" userId = false ->
  getTemplateQuery "Recently Modified" object userId
  = Normal (Some ("SELECT Id, Name, LastModifiedDate FROM " +:+ object
                  +:+ " ORDER BY LastModifiedDate DESC LIMIT 100")) /\
  getTemplateQuery "Created This Week" object userId
  = Normal (Some ("SELECT Id, Name, CreatedDate FROM " +:+ object
                  +:+ " WHERE CreatedDate = THIS_WEEK ORDER BY CreatedDate DESC")) /\
  getTemplateQuery "Modified By Me" object userId
  = Normal (Some ("SELECT Id, Name, LastModifiedDate FROM " +:+ object
                  +:+ " WHERE LastModifiedById = " +:+ userId
                  +:+ " ORDER BY LastModifiedDate DESC")) /\
  getTemplateQuery "Duplicate Check" object userId
  = Normal (Some ("SELECT Name, COUNT(Id) records FROM " +:+ object
                  +:+ " GROUP BY Name HAVING COUNT(Id) > 1")).
Proof.
  intros Hd Hb Hu.
  assert (Hnone : forall pre post,
            occurs "{" pre = false -> occurs "{" post = false ->
            replaceAll false (lit "{userId}") userId (pre +:+ object +:+ post)
            = pre +:+ object +:+ post).
  { intros pre post Hpre Hpost. apply (replaceAll_none "{" "userId}").
    rewrite !occurs_app, Hpre, Hb, Hpost. reflexivity. }
  assert (Huser : forall pre post,
            occurs "{" pre = false -> occurs "{" post = false ->
            replaceAll false (lit "{userId}") userId
              ((pre +:+ object +:+ post) +:+ "{userId}" +:+ " ORDER BY LastModifiedDate DESC")
            = (pre +:+ object +:+ post) +:+ userId +:+ " ORDER BY LastModifiedDate DESC").
  { intros pre post Hpre Hpost. apply (replaceAll_one "{" "userId}"); auto.
    rewrite !occurs_app, Hpre, Hb, Hpost. reflexivity. }
  assert (E1 : replaceAll false (lit "{object}") object
                 "SELECT Id, Name, LastModifiedDate FROM {object} ORDER BY LastModifiedDate DESC LIMIT 100"
               = "SELECT Id, Name, LastModifiedDate FROM "
                 +:+ expand object "{object}" "SELECT Id, Name, LastModifiedDate FROM "
                       " ORDER BY LastModifiedDate DESC LIMIT 100"
                 +:+ " ORDER BY LastModifiedDate DESC LIMIT 100")
    by (vm_compute; reflexivity).
  assert (E2 : replaceAll false (lit "{object}") object
                 "SELECT Id, Name, CreatedDate FROM {object} WHERE CreatedDate = THIS_WEEK ORDER BY CreatedDate DESC"
               = "SELECT Id, Name, CreatedDate FROM "
                 +:+ expand object "{object}" "SELECT Id, Name, CreatedDate FROM "
                       " WHERE CreatedDate = THIS_WEEK ORDER BY CreatedDate DESC"
                 +:+ " WHERE CreatedDate = THIS_WEEK ORDER BY CreatedDate DESC")
    by (vm_compute; reflexivity).
  assert (E3 : replaceAll false (lit "{object}") object
                 "SELECT Id, Name, LastModifiedDate FROM {object} WHERE LastModifiedById = {userId} ORDER BY LastModifiedDate DESC"
               = "SELECT Id, Name, LastModifiedDate FROM "
                 +:+ expand object "{object}" "SELECT Id, Name, LastModifiedDate FROM "
                       " WHERE LastModifiedById = {userId} ORDER BY LastModifiedDate DESC"
                 +:+ " WHERE LastModifiedById = {userId} ORDER BY LastModifiedDate DESC")
    by (vm_compute; reflexivity).
  assert (E4 : replaceAll false (lit "{object}") object
                 "SELECT Name, COUNT(Id) records FROM {object} GROUP BY Name HAVING COUNT(Id) > 1"
               = "SELECT Name, COUNT(Id) records FROM "
                 +:+ expand object "{object}" "SELECT Name, COUNT(Id) records FROM "
                       " GROUP BY Name HAVING COUNT(Id) > 1"
                 +:+ " GROUP BY Name HAVING COUNT(Id) > 1")
    by (vm_compute; reflexivity).
  rewrite (expand_plain _ _ _ _ Hd) in E1. rewrite (expand_plain _ _ _ _ Hd) in E2.
  rewrite (expand_plain _ _ _ _ Hd) in E3. rewrite (expand_plain _ _ _ _ Hd) in E4.
  unfold getTemplateQuery.
  change (getProperty templates "Recently Modified")
    with (Own {| Template.name := "Recently Modified Records";
                 Template.query := "SELECT Id, Name, LastModifiedDate FROM {object} ORDER BY LastModifiedDate DESC LIMIT 100" |}).
  change (getProperty templates "Created This Week")
    with (Own {| Template.name := "Records Created This Week";
                 Template.query := "SELECT Id, Name, CreatedDate FROM {object} WHERE CreatedDate = THIS_WEEK ORDER BY CreatedDate DESC" |}).
  change (getProperty templates "Modified By Me")
    with (Own {| Template.name := "Records I Modified";
                 Template.query := "SELECT Id, Name, LastModifiedDate FROM {object} WHERE LastModifiedById = {userId} ORDER BY LastModifiedDate DESC" |}).
  change (getProperty templates "Duplicate Check")
    with (Own {| Template.name := "Potential Duplicates";
                 Template.query := "SELECT Name, COUNT(Id) records FROM {object} GROUP BY Name HAVING COUNT(Id) > 1" |}).
  cbv beta iota. cbn [Template.query]. rewrite E1, E2, E3, E4. clear E1 E2 E3 E4.
  rewrite !Hnone by reflexivity.
  rewrite (Hnone "SELECT Name, COUNT(Id) records FROM "
             " GROUP BY Name HAVING COUNT(Id) > 1" eq_refl eq_refl).
  split; [reflexivity|]. split; [reflexivity|]. split; [|reflexivity].
  replace ("SELECT Id, Name, LastModifiedDate FROM " +:+ object
           +:+ " WHERE LastModifiedById = {userId} ORDER BY LastModifiedDate DESC")
    with (("SELECT Id, Name, LastModifiedDate FROM " +:+ object
           +:+ " WHERE LastModifiedById = ")
          +:+ "{userId}" +:+ " ORDER BY LastModifiedDate DESC")
    by (rewrite !sapp_assoc; reflexivity).
  rewrite (Huser "SELECT Id, Name, LastModifiedDate FROM " " WHERE LastModifiedById = "
             eq_refl eq_refl).
  rewrite !sapp_assoc. reflexivity.
Qed.

Lemma getTemplateQuery_substitutes_witness :
  getTemplateQuery "Modified By Me" "Account" "'005xx0000012345'"
  = Normal (Some "SELECT Id, Name, LastModifiedDate FROM Account WHERE LastModifiedById = '005xx0000012345' ORDER BY LastModifiedDate DESC").
Proof.
  exact (proj1 (proj2 (proj2
    (getTemplateQuery_substitutes "Account" "'005xx0000012345'" eq_refl eq_refl eq_refl)))).
Defined.

(** ** More on the query history *)

Section PersistenceMore.
Variable JSON_parse : string -> option json.
Variable JSON_stringify : json -> string.
Hypothesis parse_null : JSON_parse "null" = Some JNull.
Hypothesis parse_stringify_history :
  forall es : list HistoryEntry,
    JSON_parse (JSON_stringify (JArray (map entryJson es))) =
    Some (JArray (map entryJson es)).

(** X13. What add does with an item that is no history.  An item that
    reads as a value that is truthy and no array (true, a number, a text,
    an object) makes add raise a TypeError, whatever the query, and nothing
    is written; an item that cannot be read or reads as a falsy value is
    replaced by a history of the new entry alone. *)
Theorem add_outcomes (h : QueryHistory.t) (query now : string)
        (localStorage : gmap string string) :
  (forall v, parseItem JSON_parse localStorage (QueryHistory.storageKey h) = Normal v ->
             truthy v = true -> (forall items, v <> JArray items) ->
             QueryHistory.add JSON_parse JSON_stringify h query now localStorage
             = Throw TypeError) /\
  ((parseItem JSON_parse localStorage (QueryHistory.storageKey h) = Throw SyntaxError \/
    exists v, parseItem JSON_parse localStorage (QueryHistory.storageKey h) = Normal v /\
              truthy v = false) ->
   QueryHistory.add JSON_parse JSON_stringify h query now localStorage
   = Normal (<[QueryHistory.storageKey h := JSON_stringify (freshHistory h query now)]>
               localStorage)).
Proof.
  unfold QueryHistory.add, QueryHistory.getAll. split.
  - intros v Hv Ht Hna. rewrite Hv. cbv [cbind try_catch orEmpty]. rewrite Ht.
    destruct v; try reflexivity. now destruct (Hna items).
  - intros [Hthrow | [v [Hv Hf]]].
    + rewrite Hthrow. reflexivity.
    + rewrite Hv. cbv [cbind try_catch orEmpty]. rewrite Hf. reflexivity.
Qed.

Lemma add_other_keys (h : QueryHistory.t) (query now : string)
      (localStorage localStorage' : gmap string string) (key : string) :
  QueryHistory.add JSON_parse JSON_stringify h query now localStorage = Normal localStorage' ->
  key <> QueryHistory.storageKey h ->
  localStorage' !! key = localStorage !! key.
Proof.
  unfold QueryHistory.add. intros H Hkey.
  destruct (QueryHistory.getAll JSON_parse h localStorage) as [[]|]; try discriminate H.
  cbv [cbind] in H. injection H as <-. now apply lookup_insert_ne.
Qed.

Lemma addAll_other_keys (h : QueryHistory.t) (calls : list (string * string)) (key : string) :
  key <> QueryHistory.storageKey h ->
  forall localStorage localStorage' : gmap string string,
    QueryHistory.addAll JSON_parse JSON_stringify h calls localStorage = Normal localStorage' ->
    localStorage' !! key = localStorage !! key.
Proof.
  intros Hkey. induction calls as [|[q now] calls IH]; intros ls ls' H.
  - now injection H as <-.
  - simpl in H.
    destruct (QueryHistory.add JSON_parse JSON_stringify h q now ls) as [ls1|] eqn:E;
      [|discriminate H].
    cbv [cbind] in H. rewrite (IH _ _ H). exact (add_other_keys _ _ _ _ _ _ E Hkey).
Qed.

(** X14. clear makes the history start again, whatever the item held,
    readable or not: the adds that follow all succeed and leave the entries
    added, most recent first, cut to maxSize.  Neither clear nor add
    touches an item under another key. *)
Theorem clear_then_add (h : QueryHistory.t) (localStorage : gmap string string)
        (calls : list (string * string)) :
  exists localStorage',
    QueryHistory.addAll JSON_parse JSON_stringify h calls (QueryHistory.clear h localStorage)
    = Normal localStorage' /\
    QueryHistory.getAll JSON_parse h localStorage' =
      Normal (JArray (map entryJson (kept (QueryHistory.maxSize h) calls))) /\
    forall key, key <> QueryHistory.storageKey h ->
                localStorage' !! key = localStorage !! key.
Proof.
  assert (Habsent : QueryHistory.clear h localStorage !! QueryHistory.storageKey h = None)
    by apply lookup_delete_eq.
  destruct (addAll_from JSON_parse JSON_stringify parse_stringify_history h calls
              (QueryHistory.clear h localStorage) []
              (getAll_absent JSON_parse parse_null h _ Habsent) (Nat.le_0_l _))
    as [ls' [Hall Hget]].
  exists ls'. split; [exact Hall|]. split.
  - unfold kept. now rewrite app_nil_r in Hget.
  - intros key Hkey. rewrite (addAll_other_keys h calls key Hkey _ _ Hall).
    unfold QueryHistory.clear. now apply lookup_delete_ne.
Qed.
End PersistenceMore.

Lemma add_outcomes_witness :
  QueryHistory.add parseWithLiterals stringify smallHistory "SELECT Id FROM Account"
    "2024-01-01T00:00:00.000Z" foreignStore = Throw TypeError /\
  QueryHistory.add parseWithLiterals stringify smallHistory "SELECT Id FROM Account"
    "2024-01-01T00:00:00.000Z" ∅
  = Normal {[ "modernExportQueryHistory" :=
                stringify (freshHistory smallHistory "SELECT Id FROM Account"
                             "2024-01-01T00:00:00.000Z") ]}.
Proof.
  split.
  - apply (proj1 (add_outcomes parseWithLiterals stringify smallHistory
                    "SELECT Id FROM Account" "2024-01-01T00:00:00.000Z" foreignStore)
             (JBool true)); [reflexivity | reflexivity | discriminate].
  - rewrite (proj2 (add_outcomes parseWithLiterals stringify smallHistory
                      "SELECT Id FROM Account" "2024-01-01T00:00:00.000Z" ∅)).
    + now rewrite insert_empty.
    + right. exists JNull. split; reflexivity.
Defined.

Lemma clear_then_add_witness :
  exists localStorage,
    QueryHistory.addAll parse stringify smallHistory threeCalls
      (QueryHistory.clear smallHistory sharedStore) = Normal localStorage /\
    QueryHistory.getAll parse smallHistory localStorage =
      Normal (JArray (map entryJson (kept 2 threeCalls))) /\
    localStorage !! "theme" = Some "dark".
Proof.
  destruct (clear_then_add parse stringify eq_refl CompactJSON_history
              smallHistory sharedStore threeCalls) as [ls [H1 [H2 H3]]].
  exists ls. split; [exact H1 | split; [exact H2|]].
  rewrite (H3 "theme"); [reflexivity | discriminate].
Defined.

(** ** The pickers *)

Lemma toLowerCase_app (a b : string) :
  toLowerCase (a +:+ b) = toLowerCase a +:+ toLowerCase b.
Proof. induction a as [|c a IH]; simpl; [reflexivity | now rewrite IH]. Qed.

Lemma lowerChar_idem (c : ascii) : lowerChar (lowerChar c) = lowerChar c.
Proof.
  destruct c as [[] [] [] [] [] [] [] []]; reflexivity.
Qed.

Lemma toLowerCase_idem (s : string) : toLowerCase (toLowerCase s) = toLowerCase s.
Proof.
  induction s as [|c s IH]; simpl; [reflexivity|]. now rewrite lowerChar_idem, IH.
Qed.

Lemma toLowerCase_empty (s : string) : toLowerCase s = "" -> s = "".
Proof. now destruct s. Qed.

Lemma includes_trans (a b s : string) :
  includes a b = true -> includes b s = true -> includes a s = true.
Proof.
  rewrite !includes_spec. intros [x [y ->]] [u [v ->]].
  exists (u +:+ x), (y +:+ v). now rewrite !sapp_assoc.
Qed.

Lemma includes_empty (a : string) : includes a "" = true -> a = "".
Proof.
  rewrite includes_spec. intros [x [y H]]. destruct x; [|discriminate].
  now destruct a.
Qed.

(** A term that contains another, case apart, matches no more than it. *)
Lemma matchesSearch_narrows (a b label name : string) :
  includes (toLowerCase a) (toLowerCase b) = true ->
  matchesSearch b label name = true -> matchesSearch a label name = true.
Proof.
  intros Hab. unfold matchesSearch.
  destruct (String.eqb_spec b "") as [->|Hb].
  - apply includes_empty, toLowerCase_empty in Hab. now subst.
  - cbn [orb]. intros H. apply orb_true_iff in H as [H|H].
    + rewrite (includes_trans _ _ _ Hab H). now rewrite orb_true_r.
    + rewrite (includes_trans _ _ _ Hab H). now rewrite !orb_true_r.
Qed.

Lemma filter_filter_implied {A} (f g : A -> bool) (l : list A) :
  (forall x, g x = true -> f x = true) ->
  List.filter g (List.filter f l) = List.filter g l.
Proof.
  intros H. induction l as [|x l IH]; [reflexivity|]. simpl.
  destruct (f x) eqn:Ef; simpl.
  - now rewrite IH.
  - destruct (g x) eqn:Eg; [|exact IH]. rewrite (H x Eg) in Ef. discriminate.
Qed.

(** X15. Typing on narrows the object list: the objects found for a search
    term that contains another, upper and lower case apart, are those the
    same search finds among the objects found for the shorter term.  The
    empty term finds every object, and without objects nothing is
    returned. *)
Theorem getFilteredObjects_narrows (objects : option (list ObjectInfo.t)) (a b : string) :
  includes (toLowerCase a) (toLowerCase b) = true ->
  getFilteredObjects (getFilteredObjects objects a) b = getFilteredObjects objects b /\
  getFilteredObjects objects "" = objects /\
  getFilteredObjects None b = None.
Proof.
  intros Hab. unfold getFilteredObjects. destruct objects as [objs|]; simpl; [|auto].
  split; [|split; [|reflexivity]].
  - f_equal. apply filter_filter_implied. intros obj. now apply matchesSearch_narrows.
  - f_equal. induction objs as [|o objs IH]; simpl; [reflexivity | now rewrite IH].
Qed.

Lemma getFilteredObjects_narrows_witness :
  getFilteredObjects (getFilteredObjects (Some [accountObject]) "acc") "ACCO"
  = getFilteredObjects (Some [accountObject]) "ACCO".
Proof.
  exact (proj1 (getFilteredObjects_narrows (Some [accountObject]) "acc" "ACCO" eq_refl)).
Defined.

Lemma matchesSearch_case (a b label name : string) :
  toLowerCase a = toLowerCase b -> matchesSearch a label name = matchesSearch b label name.
Proof.
  intros H. unfold matchesSearch. rewrite H.
  destruct (String.eqb_spec a "") as [->|Ha], (String.eqb_spec b "") as [->|Hb];
    try reflexivity.
  - symmetry in H. apply toLowerCase_empty in H. contradiction.
  - apply toLowerCase_empty in H. contradiction.
Qed.

(** X16. The field list depends on the search term only up to upper and
    lower case, and within a category typing on narrows it: the fields found
    for a term that contains another are those the same search finds among
    the fields found for the shorter term. *)
Theorem getFilteredFields_search (fields : list FieldInfo.t) (a b category : string) :
  (toLowerCase a = toLowerCase b ->
     getFilteredFields (Some fields) a category = getFilteredFields (Some fields) b category) /\
  (includes (toLowerCase a) (toLowerCase b) = true ->
     getFilteredFields (getFilteredFields (Some fields) a category) b category
     = getFilteredFields (Some fields) b category).
Proof.
  unfold getFilteredFields. cbn [option_map]. split.
  - intros H. f_equal. apply filter_ext. intros field. cbv zeta.
    now rewrite (matchesSearch_case a b _ _ H).
  - intros H. f_equal. apply filter_filter_implied. intros field. cbv zeta.
    rewrite !andb_true_iff. intros [Hs Hc]. split; [|exact Hc].
    exact (matchesSearch_narrows a b _ _ H Hs).
Qed.

Lemma getFilteredFields_search_witness :
  getFilteredFields (Some [industryField]) "IND" "all"
  = getFilteredFields (Some [industryField]) "ind" "all" /\
  getFilteredFields (getFilteredFields (Some [industryField]) "in" "all") "INDU" "all"
  = getFilteredFields (Some [industryField]) "INDU" "all".
Proof.
  split.
  - exact (proj1 (getFilteredFields_search [industryField] "IND" "ind" "all") eq_refl).
  - exact (proj2 (getFilteredFields_search [industryField] "in" "INDU" "all") eq_refl).
Defined.

(** ** Exporting the results *)

(** Replacing every quote by two is doubling it. *)
Lemma replaceAll_doubled (x : ascii) (s : string) :
  Ascii.eqb "$" x = false ->
  replaceAll false (lit (String x "")) (String x (String x "")) s = doubled x s.
Proof.
  intros Hx. unfold replaceAll.
  enough (H : forall b, replaceScan false (lit (String x "")) (String x (String x "")) b s 0
                        = doubled x s) by apply H.
  induction s as [|c s IH]; intros b.
  - apply (replaceScan_end x "").
  - cbn [doubled]. destruct (Ascii.eqb_spec x c) as [<-|Hc].
    + change (String x s) with (String x "" +:+ s).
      rewrite (replaceScan_hit x ""), IH, expand_plain; [reflexivity|].
      cbn [occurs]. now rewrite Hx.
    + change (String c s) with (String c "" +:+ s).
      rewrite (replaceScan_pass x ""), IH; [reflexivity|].
      cbn [occurs]. apply Ascii.eqb_neq in Hc. now rewrite Hc.
Qed.

Lemma readQuoted_doubled (v rest : string) :
  noQuoteAhead rest ->
  readQuoted (doubled "034" v +:+ dquote +:+ rest) = Some (v, rest).
Proof.
  intros Hrest. induction v as [|c v IH].
  - destruct rest as [|d rest]; [reflexivity|]. simpl in Hrest.
    cbn [doubled String.append dquote readQuoted]. cbn [Ascii.eqb Bool.eqb].
    now rewrite Hrest.
  - cbn [doubled]. destruct (Ascii.eqb_spec "034" c) as [<-|Hc].
    + change (String "034" (String "034" (doubled "034" v)) +:+ dquote +:+ rest)
        with (String "034" (String "034" (doubled "034" v +:+ dquote +:+ rest))).
      cbn [readQuoted]. cbn [Ascii.eqb Bool.eqb]. now rewrite IH.
    + change (String c (doubled "034" v) +:+ dquote +:+ rest)
        with (String c (doubled "034" v +:+ dquote +:+ rest)).
      cbn [readQuoted]. rewrite IH.
      destruct (Ascii.eqb_spec c "034") as [->|]; [contradiction | reflexivity].
Qed.

Lemma sapp_inv_head (a b c : string) : a +:+ b = a +:+ c -> b = c.
Proof. induction a as [|x a IH]; simpl; [auto | intros H; injection H as H; auto]. Qed.

Lemma rowText_cons (sep : ascii) (v : string) (row : list string) (tail : string) :
  rowText sep (v :: row) +:+ tail
  = dquote +:+ (doubled "034" v +:+ dquote
                +:+ match row with
                    | [] => tail
                    | _ => String sep (rowText sep row +:+ tail)
                    end).
Proof.
  unfold rowText, join. destruct row as [|w row].
  - cbn [map String.concat]. unfold inQuotes. now rewrite !sapp_assoc.
  - change (String.concat (String sep "") (map inQuotes (v :: w :: row)))
      with (inQuotes v +:+ String sep "" +:+ String.concat (String sep "") (map inQuotes (w :: row))).
    unfold inQuotes at 1. now rewrite !sapp_assoc.
Qed.

Lemma rowText_inj (sep : ascii) (r1 : list string) :
  Ascii.eqb sep "034" = false -> Ascii.eqb sep "010" = false ->
  forall (r2 : list string) (t1 t2 : string),
    r1 <> [] -> r2 <> [] -> endsRow t1 -> endsRow t2 ->
    rowText sep r1 +:+ t1 = rowText sep r2 +:+ t2 -> r1 = r2 /\ t1 = t2.
Proof.
  intros Hq Hn. induction r1 as [|v1 r1 IH]; intros r2 t1 t2 H1 H2 E1 E2 H; [contradiction|].
  destruct r2 as [|v2 r2]; [contradiction|].
  rewrite !rowText_cons in H. apply sapp_inv_head in H.
  assert (Hahead : forall (row : list string) (t : string), endsRow t ->
            noQuoteAhead match row with
                         | [] => t
                         | _ => String sep (rowText sep row +:+ t)
                         end).
  { intros row t [->|[t' ->]]; destruct row; simpl; auto. }
  pose proof (f_equal readQuoted H) as Hr.
  rewrite !readQuoted_doubled in Hr by now apply Hahead.
  injection Hr as -> Hrest.
  destruct r1 as [|w1 r1], r2 as [|w2 r2].
  - now split.
  - destruct E1 as [->|[t' ->]]; [discriminate|].
    injection Hrest as Hc _. rewrite <- Hc in Hn. discriminate.
  - destruct E2 as [->|[t' ->]]; [discriminate|].
    injection Hrest as Hc _. rewrite Hc in Hn. discriminate.
  - injection Hrest as Hrest.
    destruct (IH (w2 :: r2) t1 t2) as [-> ->]; auto; discriminate.
Qed.

Lemma tableText_cons (sep : ascii) (row : list string) (rows : list (list string)) :
  tableText sep (row :: rows)
  = rowText sep row +:+ match rows with
                        | [] => ""
                        | _ => String "010" (tableText sep rows)
                        end.
Proof.
  unfold tableText, join. destruct rows; cbn [map String.concat];
    [now rewrite sapp_nil_r | reflexivity].
Qed.

Lemma tableText_inj (sep : ascii) (t1 : list (list string)) :
  Ascii.eqb sep "034" = false -> Ascii.eqb sep "010" = false ->
  forall t2 : list (list string),
    List.Forall (fun row => row <> []) t1 -> List.Forall (fun row => row <> []) t2 ->
    tableText sep t1 = tableText sep t2 -> t1 = t2.
Proof.
  intros Hq Hn. induction t1 as [|r1 t1 IH]; intros t2 F1 F2 H.
  - destruct t2 as [|r2 t2]; [reflexivity|]. exfalso.
    inversion F2 as [|? ? Hr2 _]; subst. destruct r2 as [|v r2]; [contradiction|].
    rewrite tableText_cons in H. rewrite rowText_cons in H. discriminate.
  - inversion F1 as [|? ? Hr1 F1']; subst.
    destruct t2 as [|r2 t2].
    + exfalso. destruct r1 as [|v r1]; [contradiction|].
      rewrite tableText_cons in H. rewrite rowText_cons in H. discriminate.
    + inversion F2 as [|? ? Hr2 F2']; subst.
      rewrite !tableText_cons in H.
      assert (Hend : forall rows : list (list string),
                endsRow match rows with
                        | [] => ""
                        | _ => String "010" (tableText sep rows)
                        end).
      { intros [|? ?]; [now left | right; eauto]. }
      destruct (rowText_inj sep r1 Hq Hn r2 _ _ Hr1 Hr2 (Hend t1) (Hend t2) H) as [-> Ht].
      f_equal. destruct t1 as [|a t1], t2 as [|b t2]; try discriminate; [reflexivity|].
      injection Ht as Ht. now apply IH.
Qed.

Section ExportFacts.
Variable stringOf : json -> string.
Variable inheritedText : string -> string.

Lemma exportToCsv_table (records : list (jsobject json)) (fields : list string) :
  exportToCsv stringOf inheritedText records fields
  = tableText "," (table stringOf inheritedText records fields).
Proof.
  unfold exportToCsv, tableText, table, rowText. rewrite map_map. f_equal.
  apply map_ext. intros record. rewrite map_map. f_equal.
  apply map_ext. intros field. unfold quotedCell, inQuotes.
  now rewrite (replaceAll_doubled "034").
Qed.

Lemma exportToExcel_table (records : list (jsobject json)) (fields : list string) :
  exportToExcel stringOf inheritedText records fields
  = tableText "009" (table stringOf inheritedText records fields).
Proof.
  unfold exportToExcel, tableText, table, rowText. rewrite map_map. f_equal.
  apply map_ext. intros record. rewrite map_map. f_equal.
  apply map_ext. intros field. unfold quotedCell, inQuotes.
  now rewrite (replaceAll_doubled "034").
Qed.

Lemma table_rows (records : list (jsobject json)) (fields : list string) :
  fields <> [] ->
  List.Forall (fun row => row <> []) (table stringOf inheritedText records fields).
Proof.
  intros H. apply List.Forall_forall. intros row Hin. unfold table in Hin.
  apply in_map_iff in Hin as [record [<- _]]. destruct fields; [contradiction | discriminate].
Qed.

(** X17. The CSV and the Excel export lose nothing of the cell texts,
    whatever quotes, commas, tabs and line breaks these hold: for field
    lists that are not empty, two exports are the same text exactly when
    they have the same rows of cell texts.  The text of a cell is that of
    its value when the value is truthy and empty otherwise, so 0, false,
    null, the empty text and a missing field are exported alike. *)
Theorem export_lossless (records1 records2 : list (jsobject json))
        (fields1 fields2 : list string) :
  fields1 <> [] -> fields2 <> [] ->
  (exportToCsv stringOf inheritedText records1 fields1
   = exportToCsv stringOf inheritedText records2 fields2 <->
   table stringOf inheritedText records1 fields1
   = table stringOf inheritedText records2 fields2) /\
  (exportToExcel stringOf inheritedText records1 fields1
   = exportToExcel stringOf inheritedText records2 fields2 <->
   table stringOf inheritedText records1 fields1
   = table stringOf inheritedText records2 fields2).
Proof.
  intros H1 H2. rewrite !exportToCsv_table, !exportToExcel_table.
  split; (split; [|now intros ->]); intros H;
    (eapply tableText_inj; [| | apply table_rows | apply table_rows | exact H]);
    auto.
Qed.
End ExportFacts.

Lemma export_lossless_witness :
  exportToCsv textOf (fun _ => "") [contactA] contactFields
  = exportToCsv textOf (fun _ => "") [contactB] contactFields.
Proof.
  apply (proj1 (export_lossless textOf (fun _ => "") [contactA] [contactB]
                  contactFields contactFields ltac:(discriminate) ltac:(discriminate))).
  reflexivity.
Defined.

(** ** Suggesting objects *)

Lemma matches_F (c : ascii) : matches true (Char "F") c = Ascii.eqb (lowerChar c) "f".
Proof. destruct c as [[] [] [] [] [] [] [] []]; reflexivity. Qed.

Lemma matches_R (c : ascii) : matches true (Char "R") c = Ascii.eqb (lowerChar c) "r".
Proof. destruct c as [[] [] [] [] [] [] [] []]; reflexivity. Qed.

Lemma matches_O (c : ascii) : matches true (Char "O") c = Ascii.eqb (lowerChar c) "o".
Proof. destruct c as [[] [] [] [] [] [] [] []]; reflexivity. Qed.

Lemma matches_M (c : ascii) : matches true (Char "M") c = Ascii.eqb (lowerChar c) "m".
Proof. destruct c as [[] [] [] [] [] [] [] []]; reflexivity. Qed.

(** The keyword of the pattern matches the texts whose lower case starts
    with from. *)
Lemma matchFrom_FROM {R} (s : string) (cap : option string)
      (k : string -> option string -> option R) :
  matchFrom true (lit "FROM") s cap k
  = match s with
    | String c1 (String c2 (String c3 (String c4 rest))) =>
        if startsWith "from" (toLowerCase s) then k rest cap else None
    | _ => None
    end.
Proof.
  destruct s as [|c1 [|c2 [|c3 [|c4 rest]]]]; cbn [lit matchFrom];
    rewrite ?matches_F, ?matches_R, ?matches_O, ?matches_M;
    try (repeat match goal with
                | |- context [Ascii.eqb ?a ?b] => destruct (Ascii.eqb a b)
                end; reflexivity).
  cbn [toLowerCase startsWith].
  rewrite (Ascii.eqb_sym "f"), (Ascii.eqb_sym "r"), (Ascii.eqb_sym "o"), (Ascii.eqb_sym "m").
  destruct (Ascii.eqb (lowerChar c1) "f"), (Ascii.eqb (lowerChar c2) "r"),
    (Ascii.eqb (lowerChar c3) "o"), (Ascii.eqb (lowerChar c4) "m"); reflexivity.
Qed.

Lemma matchAt_FROM_fail (s : string) :
  startsWith "from" (toLowerCase s) = false -> matchAt true reFromPartial s = None.
Proof.
  intros H. unfold matchAt, reFromPartial. cbn [matchFrom]. rewrite matchFrom_FROM.
  destruct s as [|c1 [|c2 [|c3 [|c4 rest]]]]; try reflexivity. now rewrite H.
Qed.

(** The keyword does not begin before the text that comes ahead of it has
    ended. *)
Lemma startsWith_from_straddle (c : ascii) (p tail : string) :
  startsWith "from" (toLowerCase (String c p)) = false ->
  startsWith "from" (toLowerCase (String c p) +:+ "from" +:+ tail) = false.
Proof.
  destruct p as [|c2 [|c3 [|c4 p]]]; cbn [toLowerCase startsWith String.append].
  - intros _. now destruct (Ascii.eqb "f" (lowerChar c)).
  - intros _. now destruct (Ascii.eqb "f" (lowerChar c)), (Ascii.eqb "r" (lowerChar c2)).
  - intros _. now destruct (Ascii.eqb "f" (lowerChar c)), (Ascii.eqb "r" (lowerChar c2)),
      (Ascii.eqb "o" (lowerChar c3)).
  - auto.
Qed.

Lemma search_past (p kw tail : string) :
  includes "from" (toLowerCase p) = false -> toLowerCase kw = "from" ->
  search true reFromPartial (p +:+ kw +:+ tail) = search true reFromPartial (kw +:+ tail).
Proof.
  intros Hp Hkw. induction p as [|c p IH]; [reflexivity|].
  change (includes "from" (toLowerCase (String c p)))
    with (startsWith "from" (toLowerCase (String c p)) || includes "from" (toLowerCase p)) in Hp.
  apply orb_false_elim in Hp as [Hhere Hlater].
  change (String c p +:+ kw +:+ tail) with (String c (p +:+ kw +:+ tail)).
  cbn [search]. rewrite matchAt_FROM_fail; [exact (IH Hlater)|].
  change (String c (p +:+ kw +:+ tail)) with (String c p +:+ kw +:+ tail).
  rewrite !toLowerCase_app, Hkw. now apply startsWith_from_straddle.
Qed.

(** A greedy run takes all of a text that it can take and that ends where
    it must stop, when what follows the run then succeeds. *)
Lemma greedyStar_all {R} (cs : charset) (x rest : string) (k : string -> option R) (r : R) :
  allOf (matches true cs) x = true ->
  match rest with String c _ => matches true cs c = false | EmptyString => True end ->
  k rest = Some r ->
  greedyStar true cs (x +:+ rest) k = Some r.
Proof.
  intros Hx Hrest Hk. induction x as [|c x IH].
  - destruct rest as [|d rest]; [exact Hk|]. cbn [String.append greedyStar].
    now rewrite Hrest.
  - cbn [allOf] in Hx. apply andb_true_iff in Hx as [Hc Hx].
    change (String c x +:+ rest) with (String c (x +:+ rest)).
    cbn [greedyStar]. now rewrite Hc, (IH Hx).
Qed.

Lemma wordChar_noSpace (c : ascii) : isWordChar c = true -> isWhiteSpace c = false.
Proof. destruct c as [[] [] [] [] [] [] [] []]; (reflexivity || discriminate). Qed.

Lemma consumed_all (w : string) : consumed w "" = w.
Proof. rewrite <- (sapp_nil_r w) at 1. apply consumed_app. Qed.

Lemma matchAt_FROM_hit (kw ws w : string) :
  toLowerCase kw = "from" -> ws <> "" ->
  allOf isWhiteSpace ws = true -> allOf isWordChar w = true ->
  matchAt true reFromPartial (kw +:+ ws +:+ w)
  = Some {| matched := kw +:+ ws +:+ w; capture := Some w; after := "" |}.
Proof.
  intros Hkw Hne Hws Hw.
  assert (Hrun : matchFrom true reFromPartial (kw +:+ ws +:+ w) None accept
                 = Some ("", Some w)).
  { unfold reFromPartial. cbn [matchFrom]. rewrite matchFrom_FROM.
    destruct kw as [|a [|b [|c [|d [|e kw]]]]]; try discriminate Hkw.
    cbn [String.append].
    replace (toLowerCase (String a (String b (String c (String d (ws +:+ w))))))
      with ("from" +:+ toLowerCase (ws +:+ w))
      by (rewrite <- Hkw; reflexivity).
    cbn [String.append startsWith Ascii.eqb Bool.eqb andb].
    destruct ws as [|s ws]; [contradiction|].
    cbn [allOf] in Hws. apply andb_true_iff in Hws as [Hs Hws].
    unfold spaces. cbn [String.append matchFrom matches]. rewrite Hs.
    apply greedyStar_all.
    - exact Hws.
    - destruct w as [|x w]; [exact I|]. cbn [allOf] in Hw.
      apply andb_true_iff in Hw as [Hx _]. cbn [matches]. now apply wordChar_noSpace.
    - rewrite <- (sapp_nil_r w) at 1. apply greedyStar_all; [exact Hw | exact I |].
      cbn [matchFrom]. unfold accept. now rewrite consumed_all. }
  unfold matchAt. rewrite Hrun. now rewrite consumed_all.
Qed.

(** X18. While an object name is being typed after FROM, suggestQuery
    proposes the objects whose name starts with what has been typed of it,
    upper and lower case apart, in the order of the metadata: this holds for
    a query that ends with from in any case, white space and a possibly
    empty run of word characters, has no from before that and no where
    anywhere.  The field proposals of the second block follow. *)
Theorem suggestQuery_objects (p kw ws w : string) (objectMetadata : list ObjectInfo.t)
        (fieldMetadata : option (list FieldInfo.t)) :
  includes "from" (toLowerCase p) = false ->
  toLowerCase kw = "from" ->
  ws <> "" -> allOf isWhiteSpace ws = true -> allOf isWordChar w = true ->
  includes "where" (toLowerCase (p +:+ kw +:+ ws +:+ w)) = false ->
  suggestQuery (p +:+ kw +:+ ws +:+ w) objectMetadata fieldMetadata
  = map (fun obj => {| Proposal.type := "object"; Proposal.text := ObjectInfo.name obj;
                       Proposal.description := ObjectInfo.label obj |})
      (List.filter (fun obj => startsWith (toLowerCase w) (toLowerCase (ObjectInfo.name obj)))
         objectMetadata)
    ++ fieldProposals (p +:+ kw +:+ ws +:+ w) fieldMetadata.
Proof.
  intros Hp Hkw Hne Hws Hw Hwhere. unfold suggestQuery. cbn [app]. f_equal.
  unfold objectProposals. rewrite Hwhere.
  assert (Hfrom : includes "from" (toLowerCase (p +:+ kw +:+ ws +:+ w)) = true).
  { rewrite !toLowerCase_app, Hkw. apply includes_spec. eauto. }
  rewrite Hfrom. cbn [negb andb].
  rewrite (search_past p kw (ws +:+ w) Hp Hkw).
  assert (Hsearch : search true reFromPartial (kw +:+ ws +:+ w)
                    = Some {| matched := kw +:+ ws +:+ w; capture := Some w; after := "" |}).
  { pose proof (matchAt_FROM_hit kw ws w Hkw Hne Hws Hw) as Hm.
    destruct (kw +:+ ws +:+ w); cbn [search]; now rewrite Hm. }
  rewrite Hsearch. reflexivity.
Qed.

Lemma suggestQuery_objects_witness :
  suggestQuery "SELECT Id from  Acc" [accountObject] None
  = [{| Proposal.type := "object"; Proposal.text := "Account";
        Proposal.description := "Account" |}].
Proof.
  exact (suggestQuery_objects "SELECT Id " "from" "  " "Acc" [accountObject] None
           eq_refl eq_refl ltac:(discriminate) eq_refl eq_refl eq_refl).
Defined.

(** ** Saving and deleting queries *)

Lemma getOwn_fold_setOwn {V} (l : list (string * V)) (o : jsobject V) (k : string) :
  List.NoDup (map fst l) ->
  getOwn (fold_left (fun o kv => setOwn o (fst kv) (snd kv)) l o) k
  = match getOwn l k with Some v => Some v | None => getOwn o k end.
Proof.
  revert o; induction l as [|[j w] l IH]; intros o Hnd; [reflexivity|].
  inversion Hnd as [|? ? Hout Hnd']; subst. cbn [fold_left fst snd getOwn].
  rewrite (IH _ Hnd'), getOwn_setOwn.
  destruct (String.eqb_spec j k) as [->|Hjk]; [|reflexivity].
  apply getOwn_None_keys in Hout. now rewrite Hout.
Qed.

Lemma getOwn_entries {V} (o : jsobject V) (k : string) :
  List.NoDup (map fst o) -> getOwn (entries o) k = getOwn o k.
Proof.
  intros Hnd.
  assert (Hnd' : List.NoDup (map fst (entries o))).
  { eapply Permutation_NoDup; [|exact Hnd].
    apply Permutation_map, Permutation_sym, entries_perm. }
  destruct (getOwn o k) as [v|] eqn:E.
  - apply getOwn_In; [exact Hnd'|]. apply getOwn_In in E; [|exact Hnd].
    eapply Permutation_in; [apply Permutation_sym, entries_perm | exact E].
  - apply getOwn_None_keys. apply getOwn_None_keys in E. intros Hin. apply E.
    eapply Permutation_in; [apply Permutation_map, entries_perm | exact Hin].
Qed.

(** X19. The entry save writes for a query: its timestamp is that of the
    saving, whatever the query said; its id is the query's own when the
    query has one, and the clock reading only otherwise; every other
    property is the query's. *)
Theorem entry_properties (now : Z) (query : jsobject json) (timestamp : string) :
  List.NoDup (map fst query) ->
  getOwn (SavedQueries.entry now query timestamp) "timestamp" = Some (JString timestamp) /\
  getOwn (SavedQueries.entry now query timestamp) "id"
  = Some (match getOwn query "id" with Some id => id | None => JNumber now 0 end) /\
  forall key, key <> "id" -> key <> "timestamp" ->
              getOwn (SavedQueries.entry now query timestamp) key = getOwn query key.
Proof.
  intros Hnd.
  assert (Hnd' : List.NoDup (map fst (entries query))).
  { eapply Permutation_NoDup; [|exact Hnd].
    apply Permutation_map, Permutation_sym, entries_perm. }
  unfold SavedQueries.entry. cbv zeta. split; [|split].
  - rewrite getOwn_setOwn. reflexivity.
  - rewrite getOwn_setOwn. cbn [String.eqb Ascii.eqb Bool.eqb].
    rewrite (getOwn_fold_setOwn _ _ _ Hnd'), (getOwn_entries _ _ Hnd).
    now destruct (getOwn query "id").
  - intros key Hid Hts. rewrite getOwn_setOwn.
    destruct (String.eqb_spec "timestamp" key) as [<-|_]; [contradiction|].
    rewrite (getOwn_fold_setOwn _ _ _ Hnd'), (getOwn_entries _ _ Hnd).
    destruct (getOwn query key); [reflexivity|]. cbn [getOwn].
    destruct (String.eqb_spec "id" key) as [<-|_]; [contradiction | reflexivity].
Qed.

Lemma entry_properties_witness :
  getOwn (SavedQueries.entry 1717200000000 resavedQuery "2024-06-01T00:00:00.000Z") "id"
  = Some (JNumber 1704067200000 0).
Proof.
  refine (proj1 (proj2 (entry_properties 1717200000000 resavedQuery
                          "2024-06-01T00:00:00.000Z" _))).
  repeat constructor; cbn; intuition discriminate.
Defined.

Section SavedQueriesFacts.
Variable JSON_parse : string -> option json.
Variable JSON_stringify : json -> string.
Variable strictEquals : option json -> option json -> bool.

Lemma withoutId_null (id : option json) (saved : list json) :
  In JNull saved -> SavedQueries.withoutId strictEquals id saved = Throw TypeError.
Proof.
  induction saved as [|q saved IH]; intros Hin; [contradiction|].
  cbn [SavedQueries.withoutId]. destruct Hin as [->|Hin]; [reflexivity|].
  rewrite (IH Hin). unfold SavedQueries.idOf. destruct q; reflexivity.
Qed.

(** X20. What save and delete do with an item that is no list.  An item
    that cannot be read, or reads as a falsy value, is overwritten: save
    puts a list of the new entry alone in its place, delete an empty list.
    An item that reads as a value that is truthy and no array makes both
    raise a TypeError, and so does a list that holds a null for delete. *)
Theorem savedQueries_no_list (sq : SavedQueries.t) (query : jsobject json) (now : Z)
        (timestamp : string) (id : option json) (localStorage : gmap string string) :
  ((parseItem JSON_parse localStorage (SavedQueries.storageKey sq) = Throw SyntaxError \/
    exists v, parseItem JSON_parse localStorage (SavedQueries.storageKey sq) = Normal v /\
              truthy v = false) ->
   SavedQueries.save JSON_parse JSON_stringify sq query now timestamp localStorage
   = Normal (<[SavedQueries.storageKey sq := JSON_stringify (freshSaved query now timestamp)]>
               localStorage) /\
   SavedQueries.delete JSON_parse JSON_stringify strictEquals sq id localStorage
   = Normal (<[SavedQueries.storageKey sq := JSON_stringify (JArray [])]> localStorage)) /\
  (forall v, parseItem JSON_parse localStorage (SavedQueries.storageKey sq) = Normal v ->
             truthy v = true -> (forall items, v <> JArray items) ->
             SavedQueries.save JSON_parse JSON_stringify sq query now timestamp localStorage
             = Throw TypeError /\
             SavedQueries.delete JSON_parse JSON_stringify strictEquals sq id localStorage
             = Throw TypeError) /\
  (forall items, parseItem JSON_parse localStorage (SavedQueries.storageKey sq)
                 = Normal (JArray items) ->
                 In JNull items ->
                 SavedQueries.delete JSON_parse JSON_stringify strictEquals sq id localStorage
                 = Throw TypeError).
Proof.
  unfold SavedQueries.save, SavedQueries.delete, SavedQueries.getAll. split; [|split].
  - intros [Hthrow | [v [Hv Hf]]].
    + rewrite Hthrow. split; reflexivity.
    + rewrite Hv. cbv [cbind try_catch orEmpty]. rewrite Hf. split; reflexivity.
  - intros v Hv Ht Hna. rewrite Hv. cbv [cbind try_catch orEmpty]. rewrite Ht.
    destruct v; try (split; reflexivity). now destruct (Hna items).
  - intros items Hv Hin. rewrite Hv. cbv [cbind try_catch orEmpty]. cbn [truthy].
    now rewrite (withoutId_null id items Hin).
Qed.
End SavedQueriesFacts.

Lemma savedQueries_no_list_witness :
  SavedQueries.save parse stringify {| SavedQueries.storageKey := "modernExportSavedQueries" |}
    resavedQuery 1717200000000 "2024-06-01T00:00:00.000Z" corruptedStore
  = Normal (<["modernExportSavedQueries" :=
               stringify (freshSaved resavedQuery 1717200000000 "2024-06-01T00:00:00.000Z")]>
              corruptedStore) /\
  SavedQueries.delete parse stringify sameValue
    {| SavedQueries.storageKey := "modernExportSavedQueries" |}
    (Some (JNumber 1704067200000 0)) corruptedStore
  = Normal (<["modernExportSavedQueries" := stringify (JArray [])]> corruptedStore).
Proof.
  apply (proj1 (savedQueries_no_list parse stringify sameValue
                  {| SavedQueries.storageKey := "modernExportSavedQueries" |}
                  resavedQuery 1717200000000 "2024-06-01T00:00:00.000Z"
                  (Some (JNumber 1704067200000 0)) corruptedStore)).
  left. reflexivity.
Defined.

(** ** The categories of the field picker *)

Lemma insertSorted_perm (x : string) (l : list string) :
  Permutation (insertSorted x l) (x :: l).
Proof.
  induction l as [|y l IH]; simpl; [reflexivity|].
  destruct (String.leb x y); [reflexivity|].
  rewrite IH. apply perm_swap.
Qed.

Lemma sort_perm (l : list string) : Permutation (sort l) l.
Proof.
  induction l as [|x l IH]; simpl; [reflexivity|].
  now rewrite insertSorted_perm, IH.
Qed.

Lemma insertSorted_sorted (x : string) (l : list string) :
  Sorted (fun a b => String.leb a b = true) l ->
  Sorted (fun a b => String.leb a b = true) (insertSorted x l).
Proof.
  induction 1 as [|y l Hs IH Hhd]; simpl; [repeat constructor|].
  destruct (String.leb x y) eqn:E.
  - constructor; [now constructor | now constructor].
  - constructor; [exact IH|].
    assert (Hyx : String.leb y x = true)
      by (destruct (String.leb_total x y) as [H|H]; congruence).
    destruct Hhd as [|z l Hyz]; simpl; [now constructor|].
    destruct (String.leb x z); now constructor.
Qed.

Lemma sort_sorted (l : list string) : Sorted (fun a b => String.leb a b = true) (sort l).
Proof.
  induction l as [|x l IH]; simpl; [constructor | now apply insertSorted_sorted].
Qed.

Lemma distinct_In (x : string) (l : list string) : In x (distinct l) <-> In x l.
Proof.
  induction l as [|y l IH]; simpl; [tauto|].
  rewrite filter_In, IH, negb_true_iff.
  destruct (String.eqb_spec y x) as [->|Hne]; [tauto|]. intuition congruence.
Qed.

Lemma distinct_NoDup (l : list string) : List.NoDup (distinct l).
Proof.
  induction l as [|y l IH]; simpl; constructor.
  - rewrite filter_In, String.eqb_refl. simpl. intros [_ H]. discriminate.
  - now apply List.NoDup_filter.
Qed.

(** X21. The categories the field picker offers are all, then the types
    of the fields, each once, in ascending order; and none of them is
    empty: with no search term, every type offered finds a field. *)
Theorem getFieldCategories_types (fields : list FieldInfo.t) :
  exists types,
    getFieldCategories (Some fields) = "all" :: types /\
    Sorted (fun a b => String.leb a b = true) types /\
    List.NoDup types /\
    (forall t, In t types <-> exists field, In field fields /\ FieldInfo.type field = t) /\
    (forall t, In t types ->
       exists field rest, getFilteredFields (Some fields) "" t = Some (field :: rest)).
Proof.
  exists (sort (distinct (map FieldInfo.type fields))).
  assert (Hin : forall t, In t (sort (distinct (map FieldInfo.type fields))) <->
                          exists field, In field fields /\ FieldInfo.type field = t).
  { intros t. split.
    - intros H. apply (Permutation_in _ (sort_perm _)), distinct_In, in_map_iff in H.
      destruct H as [field [Ht Hf]]. eauto.
    - intros [field [Hf Ht]]. apply (Permutation_in _ (Permutation_sym (sort_perm _))).
      apply distinct_In, in_map_iff. eauto. }
  split; [reflexivity|]. split; [apply sort_sorted|]. split; [|split; [exact Hin|]].
  - apply (Permutation_NoDup (Permutation_sym (sort_perm _))), distinct_NoDup.
  - intros t Ht. apply Hin in Ht as [field [Hf Htype]].
    unfold getFilteredFields. cbn [option_map].
    assert (Hkeep : In field
              (List.filter
                 (fun field0 =>
                    let matchesSearch :=
                      matchesSearch "" (FieldInfo.label field0) (FieldInfo.name field0) in
                    let matchesCategory :=
                      String.eqb t "all" || String.eqb (FieldInfo.type field0) t in
                    matchesSearch && matchesCategory) fields)).
    { apply filter_In. split; [exact Hf|]. cbv zeta. rewrite Htype, String.eqb_refl.
      now rewrite orb_true_r. }
    destruct (List.filter _ fields) as [|f rest]; [contradiction | eauto].
Qed.

(** ** The validator on the query of a fresh builder *)

Lemma search_step_none (ic : bool) (r : regex) (c : ascii) (s : string) :
  matchAt ic r (String c s) = None -> search ic r (String c s) = search ic r s.
Proof. intros H. cbn [search]. now rewrite H. Qed.

(** A literal word that matches hands on a later part of the text. *)
Lemma matchFrom_lit_suffix {R} (ic : bool) (w : string) :
  forall (s : string) (cap : option string) (k : string -> option string -> option R) (r : R),
    matchFrom ic (lit w) s cap k = Some r ->
    exists pre s', s = pre +:+ s' /\ k s' cap = Some r.
Proof.
  induction w as [|c w IH]; intros s cap k r H.
  - exists "", s. now split.
  - destruct w as [|d w].
    + cbn [lit matchFrom] in H. destruct s as [|x s]; [discriminate|].
      destruct (matches ic (Char c) x); [|discriminate].
      exists (String x ""), s. now split.
    + change (lit (String c (String d w))) with (Seq (One (Char c)) (lit (String d w))) in H.
      cbn [matchFrom] in H. destruct s as [|x s]; [discriminate|].
      destruct (matches ic (Char c) x); [|discriminate].
      destruct (IH s cap k r H) as [pre [s' [-> Hk]]].
      exists (String x pre), s'. now split.
Qed.

Lemma allOf_app_r (f : ascii -> bool) (a b : string) :
  allOf f (a +:+ b) = true -> allOf f b = true.
Proof.
  induction a as [|c a IH]; [auto|]. cbn [String.append allOf].
  intros H. apply andb_true_iff in H as [_ H]. auto.
Qed.

Lemma allOf_tail (f : ascii -> bool) (c : ascii) (s : string) :
  allOf f (String c s) = true -> allOf f s = true.
Proof. cbn [allOf]. intros H. now apply andb_true_iff in H as [_ H]. Qed.

(** No WHERE clause is found in a run of word characters. *)
Lemma search_where_word (x : string) :
  allOf isWordChar x = true -> search true reWhereClause x = None.
Proof.
  assert (Hat : forall y, allOf isWordChar y = true -> matchAt true reWhereClause y = None).
  { intros y Hy. unfold matchAt, reWhereClause. cbn [matchFrom].
    match goal with
    | |- match ?m with _ => _ end = None => destruct m as [[rest cap]|] eqn:E
    end; [|reflexivity].
    apply matchFrom_lit_suffix in E as [pre [s' [-> Hk]]].
    apply allOf_app_r in Hy. unfold spaces in Hk. cbn [matchFrom] in Hk.
    destruct s' as [|c s']; [discriminate|].
    cbn [allOf] in Hy. apply andb_true_iff in Hy as [Hc _].
    cbn [matches] in Hk. now rewrite (wordChar_noSpace c Hc) in Hk. }
  induction x as [|c x IH]; intros Hx.
  - cbn [search]. now rewrite (Hat "" Hx).
  - cbn [search]. rewrite (Hat _ Hx). exact (IH (allOf_tail _ _ _ Hx)).
Qed.

Lemma matchAt_fromObject (name : string) :
  name <> "" -> allOf isWordChar name = true ->
  matchAt true reFromObject ("FROM " +:+ name)
  = Some {| matched := "FROM " +:+ name; capture := Some name; after := "" |}.
Proof.
  intros Hne Hw.
  assert (Hrun : matchFrom true reFromObject ("FROM " +:+ name) None accept
                 = Some ("", Some name)).
  { unfold reFromObject. cbn [matchFrom].
    change ("FROM " +:+ name) with ("FROM" +:+ String " " name).
    rewrite matchFrom_lit. unfold spaces. cbn [matchFrom].
    change (matches true Space " ") with true. cbv iota.
    destruct name as [|c name]; [contradiction|].
    cbn [allOf] in Hw. apply andb_true_iff in Hw as [Hc Hw].
    cbn [greedyStar]. change (matches true Space c) with (isWhiteSpace c).
    rewrite (wordChar_noSpace c Hc). cbn [matchFrom].
    change (matches true Word c) with (isWordChar c). rewrite Hc.
    rewrite <- (sapp_nil_r name) at 1. apply greedyStar_all; [exact Hw | exact I |].
    unfold accept. now rewrite consumed_all. }
  unfold matchAt. rewrite Hrun. now rewrite consumed_all.
Qed.

Lemma matchAt_selectId (rest : string) :
  exists m, matchAt true reSelectList ("SELECT Id FROM " +:+ rest) = Some m /\
            group1 m = "Id".
Proof.
  assert (Hrun : matchFrom true reSelectList ("SELECT Id FROM " +:+ rest) None accept
                 = Some (" " +:+ rest,
                         Some (consumed ("Id" +:+ (" FROM " +:+ rest)) (" FROM " +:+ rest))))
    by (vm_compute; reflexivity).
  rewrite consumed_app in Hrun. unfold matchAt. rewrite Hrun.
  eexists. split; reflexivity.
Qed.

(** X22. The query a builder gives right after an object has been chosen
    passes the validator without an error, whatever the field metadata,
    when the object is among the metadata and its name is made of word
    characters. *)
Theorem validateQuery_accepts_fresh (name : string) (objectMetadata : list ObjectInfo.t)
        (fieldMetadata : option (list FieldInfo.t)) :
  name <> "" -> allOf isWordChar name = true ->
  (exists obj, In obj objectMetadata /\ ObjectInfo.name obj = name) ->
  buildQuery (freshBuilder name) = Normal ("SELECT Id FROM " +:+ name) /\
  validateQuery ("SELECT Id FROM " +:+ name) objectMetadata fieldMetadata = [].
Proof.
  intros Hne Hw [obj [Hin Hname]]. split.
  - unfold buildQuery, freshBuilder, selectClause, fromClause. cbn.
    destruct (String.eqb_spec name ""); [contradiction|].
    cbn [String.append]. now rewrite !sapp_nil_r.
  - unfold validateQuery.
    change (includes "SELECT" ("SELECT Id FROM " +:+ name)) with true.
    change (includes "FROM" ("SELECT Id FROM " +:+ name)) with true.
    cbn [negb orb].
    assert (Hobject : checkObject ("SELECT Id FROM " +:+ name) objectMetadata [] = []).
    { unfold checkObject. cbn [String.append].
      repeat (rewrite search_step_none by reflexivity).
      pose proof (matchAt_fromObject name Hne Hw) as Hm. cbn [String.append] in Hm.
      cbn [search]. rewrite Hm. unfold group1. cbn [capture].
      destruct (find _ objectMetadata) eqn:E; [reflexivity|].
      apply (find_none _ _ E) in Hin. rewrite Hname, String.eqb_refl in Hin. discriminate. }
    assert (Hfields : checkFields ("SELECT Id FROM " +:+ name) fieldMetadata [] = []).
    { unfold checkFields. destruct (matchAt_selectId name) as [m [Hm Hg]].
      replace (search true reSelectList ("SELECT Id FROM " +:+ name)) with (Some m)
        by (cbn [String.append search] in *; now rewrite Hm).
      rewrite Hg. reflexivity. }
    assert (Hwhere : checkWhere ("SELECT Id FROM " +:+ name) [] = []).
    { unfold checkWhere. cbn [String.append].
      repeat (rewrite search_step_none by reflexivity).
      now rewrite (search_where_word name Hw). }
    cbv zeta. now rewrite Hobject, Hfields, Hwhere.
Qed.

Lemma validateQuery_accepts_fresh_witness :
  validateQuery "SELECT Id FROM Account" [accountObject] None = [].
Proof.
  refine (proj2 (validateQuery_accepts_fresh "Account" [accountObject] None
                   ltac:(discriminate) eq_refl _)).
  exists accountObject. split; [now left | reflexivity].
Defined.

(** ** The rows of the sorting modal *)

Lemma filterWithIndex_last {A} (x : A) (l : list A) :
  forall i, filterWithIndex (fun _ j => negb (j =? i + List.length l)%nat) i (l ++ [x]) = l.
Proof.
  induction l as [|y l IH]; intros i; simpl.
  - now rewrite Nat.add_0_r, Nat.eqb_refl.
  - destruct (Nat.eqb_spec i (i + S (List.length l))); [lia|]. simpl.
    replace (i + S (List.length l)) with (S i + List.length l) by lia.
    now rewrite IH.
Qed.

Lemma mapWithIndex_last {A} (f : A -> A) (x : A) (l : list A) :
  forall i, mapWithIndex (fun y j => if (j =? i + List.length l)%nat then f y else y) i (l ++ [x])
            = l ++ [f x].
Proof.
  induction l as [|y l IH]; intros i; simpl.
  - now rewrite Nat.add_0_r, Nat.eqb_refl.
  - destruct (Nat.eqb_spec i (i + S (List.length l))); [lia|].
    replace (i + S (List.length l)) with (S i + List.length l) by lia.
    now rewrite IH.
Qed.

(** X23. A row added in the sorting modal and left without a field never
    reaches the query: Apply hands on what it would have handed on without
    the row.  Removing the row just added gives the rows as they were, and
    once a field is chosen for it, Apply hands it on last, ascending. *)
Theorem sortingModal_new_row (sortFields : list SortKey) (f : string) :
  SortingModal.applied (SortingModal.addSortField sortFields)
  = SortingModal.applied sortFields /\
  SortingModal.removeSortField (List.length sortFields) (SortingModal.addSortField sortFields)
  = sortFields /\
  (f <> "" ->
   SortingModal.applied
     (SortingModal.updateSortField (List.length sortFields)
        {| SortingModal.newField := Some f; SortingModal.newDirection := None |}
        (SortingModal.addSortField sortFields))
   = SortingModal.applied sortFields ++ [{| sortField := f; direction := "ASC" |}]).
Proof.
  unfold SortingModal.applied, SortingModal.addSortField, SortingModal.removeSortField,
    SortingModal.updateSortField.
  split; [|split].
  - rewrite List.filter_app. simpl. apply app_nil_r.
  - apply (filterWithIndex_last _ sortFields 0).
  - intros Hf.
    rewrite (mapWithIndex_last (fun row => SortingModal.merge row _) _ sortFields 0).
    rewrite List.filter_app. f_equal. unfold SortingModal.merge. simpl.
    destruct (String.eqb_spec f ""); [contradiction | reflexivity].
Qed.

Lemma sortingModal_new_row_witness :
  SortingModal.applied
    (SortingModal.updateSortField 1
       {| SortingModal.newField := Some "CreatedDate"; SortingModal.newDirection := None |}
       (SortingModal.addSortField [{| sortField := "Name"; direction := "DESC" |}]))
  = [{| sortField := "Name"; direction := "DESC" |};
     {| sortField := "CreatedDate"; direction := "ASC" |}].
Proof.
  apply (proj2 (proj2 (sortingModal_new_row [{| sortField := "Name"; direction := "DESC" |}]
                         "CreatedDate"))).
  discriminate.
Defined.
